(** * Blog-generator agent: retrieval index, session memory, plugin dispatcher

    A shallow embedding of the TypeScript services of the agent backend and
    the properties its specification states about them, followed by further
    properties read off the code.

    Part I embeds the code, one module per source file:
    - [JS]          the fragments of the JavaScript runtime the services use
                    (exceptions, [Array.prototype.slice], [Array.prototype.sort],
                    the logger of [utils/logger.ts]);
    - [VectorUtils] [utils/vectorUtils.ts]: cosine similarity and top-k search;
    - [RAG]         [services/RAGService.ts]: ingestion, cache loading, queries;
    - [Memory]      [services/MemoryService.ts]: session history and compaction;
    - [Plugins]     [services/PluginService.ts]: activation and dispatch;
    - [Sessions]    [services/MemoryService.ts]: statistics, import, expiry;
    - [Registry]    [services/PluginService.ts]: lookup, configuration,
                    validation;
    - [JSString]    the methods of [String.prototype] the text utilities use;
    - [Text]        [utils/textUtils.ts]: chunk ids and fixed-size chunking;
    - [LLM]         [services/LLMService.ts]: completions with retries,
                    request payloads, embeddings;
    - [Agent]       [services/AgentService.ts]: the processing of a message;
    - [Distances]   [utils/vectorUtils.ts]: distances and batch scoring;
    - [PluginBase]  [plugins/BasePlugin.ts]: the validation of a plugin.

    Part II defines the vocabulary of the specification and sample data,
    Part III proves what is needed of binary64 arithmetic, [slice] and
    [sort], and Part IV states and proves the properties: first those of
    the specification (modules [VectorMath], [Retrieval], [SessionMemory],
    [Dispatcher]), then those read off the code (modules [History],
    [RegistryFacts], [Chunking], [Completions], [Ingestion], [Knowledge],
    [Orchestration], [DistanceFacts], [Validation]).

    JavaScript numbers that carry measurements (similarity scores, vector
    components, plugin priorities) are IEEE 754 binary64 values and are
    modelled by Rocq's primitive floats, which are the same format.  Numbers
    that only ever count things (top-k, message limits, timestamps in
    milliseconds) are modelled by [Z].  Strings are sequences of ASCII
    characters.  Asynchronous calls are modelled by their outcome: the
    services await every call before the next statement.  The one place
    where time decides is the race of a plugin against its timer: there a
    call is given by the time it runs synchronously and the time its
    promise takes to settle.  A loop that need not end is run with a fuel
    and returns [None] when the fuel does not suffice. *)

From Stdlib Require Import List ZArith Lia Bool String Ascii Floats.
From Stdlib Require Import Sorting.Sorted Sorting.Permutation.
From stdpp Require Import gmap strings list pretty.
Import ListNotations.

Open Scope Z_scope.

(* ===================================================================== *)
(** * Part I: the embedding                                               *)
(* ===================================================================== *)

Module JS.

(** ** Exceptions

    A function that may [throw new Error(msg)] returns [Throw msg]. *)
Inductive result (A : Type) : Type :=
| Ok (a : A)
| Throw (msg : string).
Arguments Ok {A} a.
Arguments Throw {A} msg.

Definition bind {A B} (r : result A) (k : A -> result B) : result B :=
  match r with
  | Ok a => k a
  | Throw m => Throw m
  end.

Definition isOk {A} (r : result A) : bool :=
  match r with Ok _ => true | Throw _ => false end.

(** ** [Array.prototype.slice]

    A relative index is counted from the end when negative and clamped to
    the array; [-0] is [0], so [slice(-0)] is the whole array. *)
Definition relIndex (len i : Z) : Z :=
  if i <? 0 then Z.max (len + i) 0 else Z.min i len.

Definition slice {A} (start : Z) (end_ : option Z) (l : list A) : list A :=
  let len := Z.of_nat (length l) in
  let k := relIndex len start in
  let final := match end_ with Some e => relIndex len e | None => len end in
  firstn (Z.to_nat (final - k)) (skipn (Z.to_nat k) l).

(** ** [Array.prototype.sort]

    ECMAScript requires the sort to be stable and, for a consistent
    comparator, fixes the result; a stable insertion sort is one such
    implementation ([SortFacts.sort_unique] below: for the comparators of
    this program no other list is ordered, stable and a permutation of the
    input).  [comparefn x y] is used as [SortCompare] uses it: a positive
    value puts [x] after [y]; zero, a negative value and NaN (read as [+0])
    leave [x] before [y]. *)
Definition after (v : float) : bool := (0 <? v)%float.

Fixpoint insert {A} (comparefn : A -> A -> float) (x : A) (l : list A) : list A :=
  match l with
  | [] => [x]
  | y :: l' =>
      if after (comparefn x y) then y :: insert comparefn x l' else x :: y :: l'
  end.

Definition sort {A} (comparefn : A -> A -> float) (l : list A) : list A :=
  fold_right (insert comparefn) [] l.

(** ** Strings

    Texts are taken to be ASCII; [toLowerCase] changes the letters A to Z. *)
Definition lowerChar (c : ascii) : ascii :=
  let n := nat_of_ascii c in
  if ((65 <=? n) && (n <=? 90))%nat then ascii_of_nat (n + 32) else c.

Fixpoint mapString (f : ascii -> ascii) (s : string) : string :=
  match s with
  | EmptyString => EmptyString
  | String c s' => String (f c) (mapString f s')
  end.

Definition toLowerCase (s : string) : string := mapString lowerChar s.

(** ** The logger of [utils/logger.ts]

    Every call is recorded; a call prints when the logger's level (always
    [INFO], [setLevel] is never called) is not above the call's level.  Of
    the data object passed with a message only its [error] property is
    kept. *)
Inductive LogLevel := DEBUG | INFO | WARN | ERROR.


Record LogEntry := {
  level : LogLevel;
  message : string;
  error_data : option string
}.



Definition debug (m : string) : LogEntry := {| level := DEBUG; message := m; error_data := None |}.
Definition info (m : string) : LogEntry := {| level := INFO; message := m; error_data := None |}.
Definition warn (m : string) (e : string) : LogEntry :=
  {| level := WARN; message := m; error_data := Some e |}.
Definition error (m : string) (e : string) : LogEntry :=
  {| level := ERROR; message := m; error_data := Some e |}.

End JS.

(* --------------------------------------------------------------------- *)
(** ** utils/vectorUtils.ts                                               *)
(* --------------------------------------------------------------------- *)

Module VectorUtils.
Import JS.

(** *** Types of [types/rag.ts] used by the search *)

Record Vector := {
  values : list float;
  dimensions : Z
}.

Record ChunkSource := {
  filename : string;
  start_position : Z;
  source_length : Z;
  section : option string
}.

(** [created_at] is the [Date] of [metadata.created_at], in milliseconds. *)
Record EmbeddedChunk := {
  id : string;
  text : string;
  embedding : Vector;
  source : ChunkSource;
  created_at : Z
}.

Record SimilarityResult := {
  chunk : EmbeddedChunk;
  similarity_score : float;
  rank : Z
}.

(** *** cosineSimilarity *)

(** [for (i...) dotProduct += vectorA[i] * vectorB[i]] *)
Fixpoint dotLoop (vectorA vectorB : list float) (dotProduct : float) : float :=
  match vectorA, vectorB with
  | a :: vectorA', b :: vectorB' => dotLoop vectorA' vectorB' (dotProduct + a * b)%float
  | _, _ => dotProduct
  end.

(** [for (i...) { magnitudeA += a[i]*a[i]; magnitudeB += b[i]*b[i] }] *)
Fixpoint magnitudeLoop (vectorA vectorB : list float) (magnitudeA magnitudeB : float)
  : float * float :=
  match vectorA, vectorB with
  | a :: vectorA', b :: vectorB' =>
      magnitudeLoop vectorA' vectorB' (magnitudeA + a * a)%float (magnitudeB + b * b)%float
  | _, _ => (magnitudeA, magnitudeB)
  end.

Definition cosineSimilarity (vectorA vectorB : list float) : result float :=
  if negb (length vectorA =? length vectorB)%nat then
    Throw "Vectors must have the same dimensions"
  else if (length vectorA =? 0)%nat then
    Throw "Vectors cannot be empty"
  else
    let dotProduct := dotLoop vectorA vectorB 0%float in
    let '(sumA, sumB) := magnitudeLoop vectorA vectorB 0%float 0%float in
    let magnitudeA := sqrt sumA in
    let magnitudeB := sqrt sumB in
    if (magnitudeA =? 0)%float || (magnitudeB =? 0)%float then Ok 0%float
    else Ok (dotProduct / (magnitudeA * magnitudeB))%float.

(** *** validateVector (without [expectedDimensions]) *)

Fixpoint firstNaN (i : nat) (vector : list float) : option nat :=
  match vector with
  | [] => None
  | v :: vector' => if is_nan v then Some i else firstNaN (S i) vector'
  end.

Definition validateVector (vector : list float) : result bool :=
  if (length vector =? 0)%nat then Throw "Vector cannot be empty"
  else match firstNaN 0 vector with
       | Some i =>
           Throw (String.append "Vector element at index "
                    (String.append (pretty i) " is not a valid number"))
       | None => Ok true
       end.

(** *** findSimilarChunks *)

(** The loop over the chunks: a chunk whose similarity cannot be computed
    is reported on [console.error] and skipped; the others are kept when
    [similarity >= minSimilarity].  The result is the pair of the collected
    [similarities] and the console lines. *)
Fixpoint similarityLoop (queryVector : list float) (minSimilarity : float)
    (chunks : list EmbeddedChunk) : list SimilarityResult * list string :=
  match chunks with
  | [] => ([], [])
  | c :: chunks' =>
      let '(similarities, console) := similarityLoop queryVector minSimilarity chunks' in
      match cosineSimilarity queryVector (values (embedding c)) with
      | Ok similarity =>
          if (minSimilarity <=? similarity)%float
          then ({| chunk := c; similarity_score := similarity; rank := 0 |} :: similarities,
                console)
          else (similarities, console)
      | Throw _ =>
          (similarities,
           String.append "Error calculating similarity for chunk "
             (String.append (id c) ":") :: console)
      end
  end.

(** [(a, b) => b.similarity_score - a.similarity_score] *)
Definition byScoreDescending (a b : SimilarityResult) : float :=
  (similarity_score b - similarity_score a)%float.

(** [for (i...) topResults[i].rank = i + 1], started at [i]. *)
Fixpoint setRanks (i : Z) (topResults : list SimilarityResult) : list SimilarityResult :=
  match topResults with
  | [] => []
  | r :: rest =>
      {| chunk := chunk r; similarity_score := similarity_score r; rank := i + 1 |}
        :: setRanks (i + 1) rest
  end.

(** The value returned (or the error thrown) together with what was written
    to [console.error]. *)
Definition findSimilarChunks (queryVector : list float) (chunks : list EmbeddedChunk)
    (topK : Z) (minSimilarity : float) : result (list SimilarityResult) * list string :=
  if (length queryVector =? 0)%nat then (Throw "Query vector cannot be empty", [])
  else if (length chunks =? 0)%nat then (Ok [], [])
  else if topK <=? 0 then (Throw "topK must be greater than 0", [])
  else
    let '(similarities, console) := similarityLoop queryVector minSimilarity chunks in
    let sorted := sort byScoreDescending similarities in
    let topResults := slice 0 (Some topK) sorted in
    (Ok (setRanks 0 topResults), console).

End VectorUtils.

(* --------------------------------------------------------------------- *)
(** ** services/RAGService.ts                                             *)
(* --------------------------------------------------------------------- *)

Module RAG.
Import JS VectorUtils.

(** *** Types *)

Inductive Strategy := fixed_size | sentence | paragraph | markdown_section.

Record ChunkingConfig := {
  max_chunk_size : Z;
  chunk_overlap : Z;
  strategy : Strategy
}.

(** An element of the array returned by [chunkText]. *)
Record TextChunk := {
  tc_id : string;
  tc_text : string;
  startPosition : Z;
  tc_length : Z;
  tc_section : option string
}.

Inductive DocumentType := markdown | plain_text | html | pdf.

(** [metadata] and [processing] are flattened into the record; [custom]
    holds the caller's metadata spread into [metadata]. *)
Record KnowledgeDocument := {
  doc_id : string;
  doc_filename : string;
  title : string;
  content : string;
  doc_type : DocumentType;
  doc_created_at : Z;
  doc_updated_at : Z;
  file_size : Z;
  tags : list string;
  custom : list (string * string);
  chunked : bool;
  embedded : bool;
  chunk_count : Z
}.

Record DateRange := {
  range_start : option Z;
  range_end : option Z
}.

Record Filters := {
  filenames : option (list string);
  sections : option (list string);
  date_range : option DateRange
}.

Record SearchParams := {
  top_k : Z;
  min_similarity_score : option float;
  filters : option Filters
}.

Record RAGContext := {
  query : string;
  session_id : string;
  search_params : SearchParams
}.

(** [query_analysis] and the timing fields of the result are not part of
    the model. *)
Record RAGResult := {
  retrieved_chunks : list SimilarityResult;
  documents_searched : Z;
  chunks_searched : Z
}.

Record RAGServiceConfig := {
  dataDirectory : string;
  chunkingConfig : ChunkingConfig;
  minSimilarityScore : float;
  defaultTopK : Z;
  cacheEmbeddings : bool
}.

(** *** Collaborators

    The text utilities ([utils/textUtils.ts]) and the embedding client
    ([LLMService.generateEmbeddings]) are used through their signatures
    only: every statement below holds for all of them. *)

Record TextUtils := {
  cleanText : string -> string;
  stripMarkdown : string -> string;
  chunkText : string -> ChunkingConfig -> string -> result (list TextChunk);
  extractKeyTerms : string -> Z -> list string
}.

Record LLMService := {
  generateEmbeddings : list string -> result (list (list float))
}.

(** What one call reads from its surroundings: the collaborators, the
    clock, and the regular expressions of [extractTitle]. *)
Record Env := {
  textUtils : TextUtils;
  llmService : LLMService;
  now : Z;
  extractTitle : string -> option string
}.

(** The cache directory: [existsSync], [readFileSync], and [JSON.parse]
    followed by the conversion of the date strings, which throws on a text
    that is not JSON or not an array of such records. *)
Record Cache := {
  existsSync : string -> bool;
  readFileSync : string -> result string;
  parseChunks : string -> result (list EmbeddedChunk);
  parseDocuments : string -> result (list KnowledgeDocument)
}.

(** *** The service object

    [console] collects what [findSimilarChunks] writes to [console.error];
    [log] the calls to the logger, oldest first. *)
Record RAGService := {
  config : RAGServiceConfig;
  embeddedChunks : list EmbeddedChunk;
  documentsIndex : gmap string KnowledgeDocument;
  isInitialized : bool;
  log : list LogEntry;
  console : list string
}.

(** The constructor.  [ensureDataDirectory] creates the data directory
    when [existsSync] does not find it, and logs that it did; [mkdirSync]
    is taken to succeed.  The files of the cache are read by [initialize]
    only. *)
Definition create (cache : Cache) (config : RAGServiceConfig) : RAGService :=
  {| config := config; embeddedChunks := []; documentsIndex := ∅;
     isInitialized := false;
     log := (if existsSync cache (dataDirectory config) then []
             else [info (String.append "Created data directory: " (dataDirectory config))])
            ++ [info "RAG Service initialized"];
     console := [] |}.

Definition logged (e : LogEntry) (s : RAGService) : RAGService :=
  {| config := config s; embeddedChunks := embeddedChunks s;
     documentsIndex := documentsIndex s; isInitialized := isInitialized s;
     log := log s ++ [e]; console := console s |}.

Definition withChunks (cs : list EmbeddedChunk) (s : RAGService) : RAGService :=
  {| config := config s; embeddedChunks := cs;
     documentsIndex := documentsIndex s; isInitialized := isInitialized s;
     log := log s; console := console s |}.

Definition withDocuments (d : gmap string KnowledgeDocument) (s : RAGService) : RAGService :=
  {| config := config s; embeddedChunks := embeddedChunks s;
     documentsIndex := d; isInitialized := isInitialized s;
     log := log s; console := console s |}.

Definition withInitialized (b : bool) (s : RAGService) : RAGService :=
  {| config := config s; embeddedChunks := embeddedChunks s;
     documentsIndex := documentsIndex s; isInitialized := b;
     log := log s; console := console s |}.

Definition withConsole (c : list string) (s : RAGService) : RAGService :=
  {| config := config s; embeddedChunks := embeddedChunks s;
     documentsIndex := documentsIndex s; isInitialized := isInitialized s;
     log := log s; console := console s ++ c |}.

(** *** Small private methods *)

Definition isAlnum (c : ascii) : bool :=
  let n := nat_of_ascii c in
  ((48 <=? n) && (n <=? 57) || (65 <=? n) && (n <=? 90) || (97 <=? n) && (n <=? 122))%nat.

(** [filename.replace(/[^a-zA-Z0-9]/g, '_').toLowerCase()] *)
Definition generateDocumentId (filename : string) : string :=
  toLowerCase (mapString (fun c => if isAlnum c then c else "_"%char) filename).

(** [filename.split('.').pop()]: the text after the last dot, the whole
    name when there is none. *)
Fixpoint lastSegment (acc : string) (s : string) : string :=
  match s with
  | EmptyString => acc
  | String c s' =>
      if Ascii.eqb c "."%char then lastSegment EmptyString s'
      else lastSegment (String.append acc (String c EmptyString)) s'
  end.

Definition detectDocumentType (filename : string) : DocumentType :=
  let extension := toLowerCase (lastSegment EmptyString filename) in
  if String.eqb extension "md" || String.eqb extension "markdown" then markdown
  else if String.eqb extension "html" || String.eqb extension "htm" then html
  else if String.eqb extension "pdf" then pdf
  else plain_text.

(** [a || b] on strings: the empty string is falsy. *)
Definition orElse (a : option string) (b : string) : string :=
  match a with
  | Some s => if String.eqb s "" then b else s
  | None => b
  end.

(** *** processDocument *)

(** [chunk.section ? {..., section} : {...}] *)
Definition truthySection (s : option string) : option string :=
  match s with
  | Some t => if String.eqb t "" then None else Some t
  | None => None
  end.

Definition embed (filename : string) (now : Z) (c : TextChunk) (e : list float)
  : EmbeddedChunk :=
  {| id := tc_id c;
     text := tc_text c;
     embedding := {| values := e; dimensions := Z.of_nat (length e) |};
     source := {| VectorUtils.filename := filename;
                  start_position := startPosition c;
                  source_length := tc_length c;
                  section := truthySection (tc_section c) |};
     created_at := now |}.

(** The loop [for (i...) this.embeddedChunks.push(...)]: when [embeddings]
    is shorter than [chunks], reading [embedding.length] of [undefined]
    throws after the earlier chunks have been pushed. *)
Fixpoint pushLoop (filename : string) (now : Z) (chunks : list TextChunk)
    (embeddings : list (list float)) (embeddedChunks : list EmbeddedChunk)
  : list EmbeddedChunk * result unit :=
  match chunks with
  | [] => (embeddedChunks, Ok tt)
  | c :: chunks' =>
      match embeddings with
      | [] => (embeddedChunks,
               Throw "Cannot read properties of undefined (reading 'length')")
      | e :: embeddings' =>
          pushLoop filename now chunks' embeddings' (embeddedChunks ++ [embed filename now c e])
      end
  end.

Definition processDocument (env : Env) (filename content : string)
    (metadata : list (string * string)) (s : RAGService) : RAGService * result unit :=
  let s := logged (debug (String.append "Processing document: " filename)) s in
  let cleanedContent := cleanText (textUtils env) content in
  let strippedContent := stripMarkdown (textUtils env) cleanedContent in
  let document (chunked embedded : bool) (count : Z) :=
    {| doc_id := generateDocumentId filename;
       doc_filename := filename;
       title := orElse (extractTitle env content) filename;
       content := cleanedContent;
       doc_type := detectDocumentType filename;
       doc_created_at := now env;
       doc_updated_at := now env;
       file_size := Z.of_nat (String.length content);
       tags := extractKeyTerms (textUtils env) strippedContent 5;
       custom := metadata;
       chunked := chunked;
       embedded := embedded;
       chunk_count := count |} in
  match chunkText (textUtils env) strippedContent (chunkingConfig (config s)) filename with
  | Throw m => (s, Throw m)
  | Ok chunks =>
      let s := logged (debug (String.append "Generated "
                 (String.append (pretty (length chunks))
                    (String.append " chunks for " filename)))) s in
      let chunkTexts := map tc_text chunks in
      match generateEmbeddings (llmService env) chunkTexts with
      | Throw m => (s, Throw m)
      | Ok embeddings =>
          match pushLoop filename (now env) chunks embeddings (embeddedChunks s) with
          | (pushed, Throw m) => (withChunks pushed s, Throw m)
          | (pushed, Ok _) =>
              let s := withChunks pushed s in
              let s := withDocuments
                         (<[filename := document true true (Z.of_nat (length chunks))]>
                            (documentsIndex s)) s in
              (logged (debug (String.append "Successfully processed document: " filename)) s,
               Ok tt)
          end
      end
  end.

(** *** processDocuments

    One failing document is logged and skipped.  [saveProcessedData] only
    writes the cache files (and logs that it did): it leaves the chunk list
    and the document index as they are, and is not part of the model. *)
Record Document := {
  in_filename : string;
  in_content : string;
  in_metadata : list (string * string)
}.

Fixpoint processEach (env : Env) (documents : list Document) (s : RAGService) : RAGService :=
  match documents with
  | [] => s
  | doc :: documents' =>
      let s :=
        match processDocument env (in_filename doc) (in_content doc) (in_metadata doc) s with
        | (s', Ok _) => s'
        | (s', Throw m) =>
            logged (error (String.append "Failed to process document: " (in_filename doc)) m) s'
        end in
      processEach env documents' s
  end.

Definition processDocuments (env : Env) (documents : list Document) (s : RAGService)
  : RAGService * result unit :=
  let s := logged (info "Processing documents for RAG") s in
  let s := processEach env documents s in
  (logged (info "Document processing completed") s, Ok tt).

(** *** loadExistingData and initialize *)

(** [path.join(dataDirectory, name)] of Node, on POSIX: the arguments
    that are not empty are joined by a slash and the path is normalized. *)

(** The segments between the slashes of a path. *)
Fixpoint segments (segment : string) (path : string) : list string :=
  match path with
  | EmptyString => [segment]
  | String c path' =>
      if Ascii.eqb c "/"%char then segment :: segments EmptyString path'
      else segments (String.append segment (String c EmptyString)) path'
  end.

(** [normalizeString]: an empty segment and [.] are dropped; [..] removes
    the segment before it, unless there is none or it is [..] too, and
    then it is kept in a relative path and dropped in an absolute one.
    [res] holds the segments kept so far, the last one first. *)
Fixpoint normalizeSegments (allowAboveRoot : bool) (res : list string) (l : list string)
  : list string :=
  match l with
  | [] => rev res
  | segment :: l' =>
      if String.eqb segment "" || String.eqb segment "." then
        normalizeSegments allowAboveRoot res l'
      else if String.eqb segment ".." then
        match res with
        | last :: res' =>
            if String.eqb last ".." then
              normalizeSegments allowAboveRoot
                (if allowAboveRoot then segment :: res else res) l'
            else normalizeSegments allowAboveRoot res' l'
        | [] =>
            normalizeSegments allowAboveRoot (if allowAboveRoot then [segment] else []) l'
        end
      else normalizeSegments allowAboveRoot (segment :: res) l'
  end.

Definition startsWithSlash (path : string) : bool :=
  match path with
  | String c _ => Ascii.eqb c "/"%char
  | EmptyString => false
  end.

Fixpoint endsWithSlash (path : string) : bool :=
  match path with
  | EmptyString => false
  | String c EmptyString => Ascii.eqb c "/"%char
  | String _ path' => endsWithSlash path'
  end.

(** [path.normalize] *)
Definition normalize (path : string) : string :=
  if String.eqb path "" then "."
  else
    let isAbsolute := startsWithSlash path in
    let trailingSeparator := endsWithSlash path in
    let normalized :=
      String.concat "/" (normalizeSegments (negb isAbsolute) [] (segments EmptyString path)) in
    if String.eqb normalized "" then
      if isAbsolute then "/" else if trailingSeparator then "./" else "."
    else
      let normalized :=
        if trailingSeparator then String.append normalized "/" else normalized in
      if isAbsolute then String.append "/" normalized else normalized.

Definition join (directory name : string) : string :=
  let joined :=
    if String.eqb directory "" then name
    else if String.eqb name "" then directory
    else String.append directory (String.append "/" name) in
  normalize joined.

(** The [try] block of the chunks file: read, parse, restore the dates. *)
Definition readChunks (cache : Cache) (chunksPath : string) : result (list EmbeddedChunk) :=
  bind (readFileSync cache chunksPath) (parseChunks cache).

Definition readDocuments (cache : Cache) (documentsPath : string)
  : result (list KnowledgeDocument) :=
  bind (readFileSync cache documentsPath) (parseDocuments cache).

(** [documents.forEach(doc => this.documentsIndex.set(doc.filename, doc))] *)
Definition setAll (documents : list KnowledgeDocument) (index : gmap string KnowledgeDocument)
  : gmap string KnowledgeDocument :=
  fold_left (fun m doc => <[doc_filename doc := doc]> m) documents index.

Definition loadChunks (cache : Cache) (s : RAGService) : RAGService :=
  let chunksPath := join (dataDirectory (config s)) "chunks.json" in
  if existsSync cache chunksPath then
    match readChunks cache chunksPath with
    | Ok chunks =>
        logged (info (String.append "Loaded "
                  (String.append (pretty (length chunks)) " chunks from cache")))
          (withChunks chunks s)
    | Throw m =>
        withChunks [] (logged (warn "Failed to load cached chunks" m) s)
    end
  else s.

Definition loadDocuments (cache : Cache) (s : RAGService) : RAGService :=
  let documentsPath := join (dataDirectory (config s)) "documents.json" in
  if existsSync cache documentsPath then
    match readDocuments cache documentsPath with
    | Ok documents =>
        let index := setAll documents ∅ in
        logged (info (String.append "Loaded "
                  (String.append (pretty (size index)) " documents from cache")))
          (withDocuments index s)
    | Throw m =>
        withDocuments ∅ (logged (warn "Failed to load cached documents" m) s)
    end
  else s.

Definition loadExistingData (cache : Cache) (s : RAGService) : RAGService * result unit :=
  (loadDocuments cache (loadChunks cache s), Ok tt).

(** [try { await this.loadExistingData(); ... } catch (error) { ...; throw error }] *)
Definition initialize (cache : Cache) (s : RAGService) : RAGService * result unit :=
  match loadExistingData cache s with
  | (s', Ok _) =>
      (logged (info "RAG Service initialization completed") (withInitialized true s'), Ok tt)
  | (s', Throw m) =>
      (logged (error "RAG Service initialization failed" m) s', Throw m)
  end.

(** *** retrieveContent *)

Definition generateQueryEmbedding (env : Env) (query : string) (s : RAGService)
  : RAGService * result (list float) :=
  let cleanedQuery := cleanText (textUtils env) query in
  let outcome :=
    bind (generateEmbeddings (llmService env) [cleanedQuery]) (fun embeddings =>
      match embeddings with
      | [] => Throw "No embedding generated for query"
      | embedding :: _ => bind (validateVector embedding) (fun _ => Ok embedding)
      end) in
  match outcome with
  | Ok embedding => (s, Ok embedding)
  | Throw m => (logged (error "Failed to generate query embedding" m) s, Throw m)
  end.

(** [list.includes(x)] *)
Definition includes (l : list string) (x : string) : bool :=
  existsb (String.eqb x) l.

(** The predicate passed to [chunks.filter] in [applyFilters]. *)
Definition passes (f : Filters) (r : SimilarityResult) : bool :=
  let c := chunk r in
  let byFilename :=
    match filenames f with
    | Some names =>
        if (0 <? length names)%nat then includes names (filename (source c)) else true
    | None => true
    end in
  let bySection :=
    match sections f with
    | Some names =>
        if (0 <? length names)%nat then
          match truthySection (section (source c)) with
          | Some sec => includes names sec
          | None => false
          end
        else true
    | None => true
    end in
  let byDate :=
    match date_range f with
    | Some range =>
        let chunkDate := created_at c in
        let afterStart :=
          match range_start range with Some d => negb (chunkDate <? d) | None => true end in
        let beforeEnd :=
          match range_end range with Some d => negb (d <? chunkDate) | None => true end in
        afterStart && beforeEnd
    | None => true
    end in
  byFilename && bySection && byDate.

Definition applyFilters (chunks : list SimilarityResult) (filters : option Filters)
  : list SimilarityResult :=
  match filters with
  | None => chunks
  | Some f => List.filter (passes f) chunks
  end.

(** [context.search_params.min_similarity_score || this.config.minSimilarityScore]:
    [undefined], [0] and [NaN] are falsy. *)
Definition orDefault (x : option float) (d : float) : float :=
  match x with
  | Some v => if (v =? 0)%float || is_nan v then d else v
  | None => d
  end.

Definition retrieveContent (env : Env) (context : RAGContext) (s : RAGService)
  : RAGService * result RAGResult :=
  if negb (isInitialized s) then
    (s, Throw "RAG Service not initialized. Call initialize() first.")
  else
    let s := logged (debug "Retrieving content for query") s in
    let failed (s : RAGService) (m : string) : RAGService * result RAGResult :=
      (logged (error "Content retrieval failed" m) s, Throw m) in
    match generateQueryEmbedding env (query context) s with
    | (s, Throw m) => failed s m
    | (s, Ok queryEmbedding) =>
        match findSimilarChunks queryEmbedding (embeddedChunks s)
                (top_k (search_params context))
                (orDefault (min_similarity_score (search_params context))
                   (minSimilarityScore (config s))) with
        | (Throw m, lines) => failed (withConsole lines s) m
        | (Ok similarChunks, lines) =>
            let s := withConsole lines s in
            let filteredChunks := applyFilters similarChunks (filters (search_params context)) in
            (logged (info "Content retrieval completed") s,
             Ok {| retrieved_chunks := filteredChunks;
                   documents_searched := Z.of_nat (size (documentsIndex s));
                   chunks_searched := Z.of_nat (length (embeddedChunks s)) |})
        end
    end.

End RAG.

(* --------------------------------------------------------------------- *)
(** ** services/MemoryService.ts                                          *)
(* --------------------------------------------------------------------- *)

Module Memory.
Import JS.

Inductive Role := user | assistant | system.

Definition isUser (r : Role) : bool := match r with user => true | _ => false end.
Definition isAssistant (r : Role) : bool := match r with assistant => true | _ => false end.

(** [timestamp], [created_at], [updated_at] are [Date]s, in milliseconds. *)
Record ConversationMessage := {
  id : string;
  role : Role;
  content : string;
  timestamp : Z;
  metadata : list (string * string)
}.

Record ConversationSession := {
  session_id : string;
  messages : list ConversationMessage;
  created_at : Z;
  updated_at : Z
}.

Record ConversationSummary := {
  summary_session_id : string;
  summary : string;
  message_count : Z;
  topics : list string;
  last_message_at : Z
}.

Record MemoryServiceConfig := {
  maxMessagesPerSession : Z;
  summaryThreshold : Z;
  sessionTTL : Z;
  persistSessions : bool
}.

(** The two [Map]s are keyed by session id; a session object is reached
    through the key it is stored under. *)
Record MemoryService := {
  config : MemoryServiceConfig;
  sessions : gmap string ConversationSession;
  sessionSummaries : gmap string ConversationSummary;
  log : list LogEntry
}.

(** The constructor.  (The hourly sweep it starts is not part of the
    model.) *)
Definition create (config : MemoryServiceConfig) : MemoryService :=
  {| config := config; sessions := ∅; sessionSummaries := ∅;
     log := [info "Memory Service initialized"] |}.

Definition logged (e : LogEntry) (m : MemoryService) : MemoryService :=
  {| config := config m; sessions := sessions m;
     sessionSummaries := sessionSummaries m; log := log m ++ [e] |}.

Definition withSessions (s : gmap string ConversationSession) (m : MemoryService)
  : MemoryService :=
  {| config := config m; sessions := s;
     sessionSummaries := sessionSummaries m; log := log m |}.

Definition withSummaries (s : gmap string ConversationSummary) (m : MemoryService)
  : MemoryService :=
  {| config := config m; sessions := sessions m;
     sessionSummaries := s; log := log m |}.

Definition withMessages (l : list ConversationMessage) (now : Z) (s : ConversationSession)
  : ConversationSession :=
  {| session_id := session_id s; messages := l;
     created_at := created_at s; updated_at := now |}.

Definition createNewSession (sessionId : string) (now : Z) : ConversationSession :=
  {| session_id := sessionId; messages := []; created_at := now; updated_at := now |}.

(** *** createSimpleSummary *)

Definition createSimpleSummary (messages : list ConversationMessage) : string :=
  if (length messages =? 0)%nat then "No previous conversation."
  else
    let userMessages := length (List.filter (fun m => isUser (role m)) messages) in
    let assistantMessages := length (List.filter (fun m => isAssistant (role m)) messages) in
    String.append "Previous conversation included "
      (String.append (pretty userMessages)
         (String.append " user messages and "
            (String.append (pretty assistantMessages)
               " assistant responses covering various topics."))).

(** *** extractTopics *)

Definition isSpace (c : ascii) : bool :=
  let n := nat_of_ascii c in
  ((9 <=? n) && (n <=? 13) || (n =? 32))%nat.

Definition isWord (c : ascii) : bool :=
  let n := nat_of_ascii c in
  ((48 <=? n) && (n <=? 57) || (65 <=? n) && (n <=? 90) || (97 <=? n) && (n <=? 122)
   || (n =? 95))%nat.

(** [.replace(/[^\w\s]/g, ' ')] *)
Definition blankPunctuation (s : string) : string :=
  mapString (fun c => if isWord c || isSpace c then c else " "%char) s.

(** [.split(/\s+/)]: the pieces between the runs of white space, the empty
    first and last piece included. *)
Fixpoint splitLoop (piece : string) (inRun : bool) (s : string) : list string :=
  match s with
  | EmptyString => [piece]
  | String c s' =>
      if isSpace c then
        if inRun then splitLoop piece true s'
        else piece :: splitLoop EmptyString true s'
      else splitLoop (String.append piece (String c EmptyString)) false s'
  end.

Definition splitWhitespace (s : string) : list string := splitLoop EmptyString false s.

(** [topics.add(word)] on a [Set], kept in insertion order. *)
Definition add (word : string) (topics : list string) : list string :=
  if existsb (String.eqb word) topics then topics else topics ++ [word].

Definition wordsOf (m : ConversationMessage) : list string :=
  List.filter (fun word => (3 <? String.length word)%nat)
    (splitWhitespace (blankPunctuation (toLowerCase (content m)))).

Definition extractTopics (messages : list ConversationMessage) : list string :=
  let topics :=
    fold_left (fun topics m =>
                 if isUser (role m) then fold_left (fun t w => add w t) (wordsOf m) topics
                 else topics)
      messages [] in
  slice 0 (Some 5) topics.

(** *** updateSessionSummary *)

Definition updateSessionSummary (sessionId summary : string) (topics : list string)
    (m : MemoryService) : MemoryService :=
  match sessions m !! sessionId with
  | None =>
      logged {| level := WARN;
                message := String.append
                  "Attempted to update summary for non-existent session: " sessionId;
                error_data := None |} m
  | Some session =>
      let conversationSummary :=
        {| summary_session_id := sessionId;
           summary := summary;
           message_count := Z.of_nat (length (messages session));
           topics := topics;
           last_message_at := updated_at session |} in
      logged (debug (String.append "Updated summary for session " sessionId))
        (withSummaries (<[sessionId := conversationSummary]> (sessionSummaries m)) m)
  end.

(** *** manageSessionSize

    [ref] is the key under which the session object passed by [addMessage]
    is stored; the summary is filed under the object's own [session_id]. *)
Definition trimmed (sessionId : string) : LogEntry :=
  debug (String.append "Trimmed session " sessionId).

Definition manageSessionSize (ref : string) (m : MemoryService) : MemoryService :=
  match sessions m !! ref with
  | None => m
  | Some session =>
      if maxMessagesPerSession (config m) <? Z.of_nat (length (messages session)) then
        let messagesToSummarize :=
          slice 0 (Some (- summaryThreshold (config m))) (messages session) in
        let summary := createSimpleSummary messagesToSummarize in
        let topics := extractTopics messagesToSummarize in
        let m := updateSessionSummary (session_id session) summary topics m in
        let kept := slice (- summaryThreshold (config m)) None (messages session) in
        let m := withSessions
                   (<[ref := withMessages kept (updated_at session) session]> (sessions m)) m in
        logged (trimmed (session_id session)) m
      else m
  end.

(** *** addMessage

    [messageId] is the value of [generateMessageId()] and [now] the clock
    at the call. *)
Definition addMessage (messageId : string) (now : Z) (sessionId : string) (role : Role)
    (content : string) (metadata : list (string * string)) (m : MemoryService)
  : MemoryService * ConversationMessage :=
  let message :=
    {| id := messageId; role := role; content := content;
       timestamp := now; metadata := metadata |} in
  let '(session, m) :=
    match sessions m !! sessionId with
    | Some session => (session, m)
    | None =>
        let session := createNewSession sessionId now in
        (session,
         logged (debug (String.append "Created new session: " sessionId))
           (withSessions (<[sessionId := session]> (sessions m)) m))
    end in
  let session := withMessages (messages session ++ [message]) now session in
  let m := withSessions (<[sessionId := session]> (sessions m)) m in
  let m := manageSessionSize sessionId m in
  (logged (debug (String.append "Added message to session " sessionId)) m, message).

(** *** Reading the history *)

Definition getConversationHistory (sessionId : string) (limit : option Z) (m : MemoryService)
  : list ConversationMessage :=
  match sessions m !! sessionId with
  | None => []
  | Some session =>
      match limit with
      | Some n => if 0 <? n then slice (- n) None (messages session) else messages session
      | None => messages session
      end
  end.

Record RecentContext := {
  recentMessages : list ConversationMessage;
  recentSummary : option ConversationSummary;
  totalMessages : Z
}.

Definition getRecentContext (sessionId : string) (maxMessages : Z) (m : MemoryService)
  : RecentContext :=
  match sessions m !! sessionId with
  | None => {| recentMessages := []; recentSummary := None; totalMessages := 0 |}
  | Some session =>
      {| recentMessages := slice (- maxMessages) None (messages session);
         recentSummary := sessionSummaries m !! sessionId;
         totalMessages := Z.of_nat (length (messages session)) |}
  end.

Definition clearSession (sessionId : string) (m : MemoryService) : MemoryService * bool :=
  let sessionExists := bool_decide (is_Some (sessions m !! sessionId)) in
  let m' := withSummaries (delete sessionId (sessionSummaries m))
              (withSessions (delete sessionId (sessions m)) m) in
  (if sessionExists then logged (info (String.append "Cleared session: " sessionId)) m' else m',
   sessionExists).

(** *** fromConfig and createDefault

    [Math.floor(config.max_conversation_history * 0.7)] is computed on
    binary64 numbers, for a history length below [2^53]. *)
Definition toNumber (n : Z) : float :=
  if n <? 0 then (- of_uint63 (Uint63.of_Z (- n)))%float else of_uint63 (Uint63.of_Z n).

Definition floor (x : float) : Z :=
  match Prim2SF x with
  | S754_finite s mant e =>
      let v := if s then Zneg mant else Zpos mant in
      if 0 <=? e then v * 2 ^ e else Z.shiftr v (- e)
  | _ => 0
  end.

Definition fromConfig (max_conversation_history : Z) : MemoryService :=
  create {| maxMessagesPerSession := max_conversation_history;
            summaryThreshold := floor (toNumber max_conversation_history * 0x1.6666666666666p-1)%float;
            sessionTTL := 24 * 60 * 60 * 1000;
            persistSessions := false |}.

Definition createDefault : MemoryService :=
  create {| maxMessagesPerSession := 20;
            summaryThreshold := 12;
            sessionTTL := 24 * 60 * 60 * 1000;
            persistSessions := false |}.

End Memory.

(* --------------------------------------------------------------------- *)
(** ** services/PluginService.ts                                          *)
(* --------------------------------------------------------------------- *)

Module Plugins.
Import JS.

(** *** Types of [types/plugin.ts] *)

Record PluginContext := {
  session_id : string
}.

Record PluginError := {
  code : string;
  error_message : string
}.

(** [data] is opaque to the dispatcher. *)
Record PluginResult := {
  success : bool;
  data : option string;
  result_message : option string;
  error : option PluginError;
  execution_time_ms : Z;
  plugin_version : string
}.

(** What the promise returned by [plugin.execute(input, context)] does,
    counted from the moment the call returned it: it settles after some
    milliseconds, fulfilled with a result or rejected with an error, or it
    never settles. *)
Inductive Settlement :=
| Settles (after_ms : Z) (outcome : result PluginResult)
| Pending.

(** What a call of [plugin.execute(input, context)] does, seen from the
    caller.  The call first runs synchronously, up to the first [await]
    inside [execute], for [busy_ms] milliseconds, during which nothing else
    runs in the process, no timer either; then it returns its promise.  A
    call that throws instead of returning a promise is one that returns a
    promise rejected after 0 ms: the same [catch] block receives the error.
    [execute] is taken to return: a call that never does stops the whole
    process, the dispatcher with it. *)
Record Execution := Returns {
  busy_ms : Z;
  promise : Settlement
}.

Record BasePlugin := {
  name : string;
  version : string;
  priority : float;
  enabled : bool;
  shouldActivate : string -> PluginContext -> result bool;
  execute : string -> PluginContext -> Execution
}.

Inductive ExecutionMode := parallel | sequential.

Record PluginSystemConfig := {
  config_enabled : bool;
  max_plugins_per_request : Z;
  plugin_timeout_ms : Z;
  execution_mode : ExecutionMode
}.

(** [plugins] is the [Map] from plugin name to plugin, in insertion order. *)
Record PluginService := {
  plugins : list (string * BasePlugin);
  config : PluginSystemConfig;
  log : list LogEntry
}.

Definition defaultConfig : PluginSystemConfig :=
  {| config_enabled := true; max_plugins_per_request := 3;
     plugin_timeout_ms := 30000; execution_mode := sequential |}.

Definition has (pluginId : string) (plugins : list (string * BasePlugin)) : bool :=
  existsb (fun entry => String.eqb (fst entry) pluginId) plugins.

Definition registerPlugin (plugin : BasePlugin) (s : PluginService) : PluginService :=
  if has (name plugin) (plugins s) then
    {| plugins := plugins s; config := config s;
       log := log s ++ [{| level := WARN;
                           message := String.append "Plugin "
                             (String.append (name plugin) " is already registered");
                           error_data := None |}] |}
  else
    {| plugins := plugins s ++ [(name plugin, plugin)]; config := config s;
       log := log s ++ [info (String.append "Plugin registered: " (name plugin))] |}.

Definition unregisterPlugin (pluginId : string) (s : PluginService) : PluginService * bool :=
  let removed := has pluginId (plugins s) in
  ({| plugins := List.filter (fun entry => negb (String.eqb (fst entry) pluginId)) (plugins s);
      config := config s;
      log := if removed
             then log s ++ [info (String.append "Plugin unregistered: " pluginId)]
             else log s |},
   removed).

Definition withEnabled (b : bool) (p : BasePlugin) : BasePlugin :=
  {| name := name p; version := version p; priority := priority p; enabled := b;
     shouldActivate := shouldActivate p; execute := execute p |}.

Definition setPluginEnabled (pluginId : string) (b : bool) (s : PluginService)
  : PluginService * bool :=
  if has pluginId (plugins s) then
    ({| plugins := map (fun entry => if String.eqb (fst entry) pluginId
                                     then (fst entry, withEnabled b (snd entry))
                                     else entry) (plugins s);
        config := config s;
        log := log s ++ [info (String.append "Plugin "
                 (String.append pluginId (if b then " enabled" else " disabled")))] |},
     true)
  else (s, false).

(** *** findActivatedPlugins *)

(** The loop over [this.plugins.values()]: the activated plugins in map
    order, and the errors logged for predicates that threw. *)
Fixpoint activationLoop (input : string) (context : PluginContext)
    (plugins : list BasePlugin) : list BasePlugin * list LogEntry :=
  match plugins with
  | [] => ([], [])
  | plugin :: plugins' =>
      let '(activatedPlugins, entries) := activationLoop input context plugins' in
      if negb (enabled plugin) then (activatedPlugins, entries)
      else
        match shouldActivate plugin input context with
        | Ok true => (plugin :: activatedPlugins, entries)
        | Ok false => (activatedPlugins, entries)
        | Throw m =>
            (activatedPlugins,
             JS.error (String.append "Failed to check activation for plugin " (name plugin)) m
               :: entries)
        end
  end.

(** [(a, b) => b.priority - a.priority] *)
Definition byPriorityDescending (a b : BasePlugin) : float :=
  (priority b - priority a)%float.

Definition findActivatedPlugins (input : string) (context : PluginContext)
    (s : PluginService) : list BasePlugin * list LogEntry :=
  let '(activatedPlugins, entries) := activationLoop input context (map snd (plugins s)) in
  let sorted := sort byPriorityDescending activatedPlugins in
  (slice 0 (Some (max_plugins_per_request (config s))) sorted, entries).

(** *** Execution with a timeout *)

(** The delay Node gives a timer: a delay below 1 or above [2^31 - 1] is
    set to 1. *)
Definition timerDelay (ms : Z) : Z :=
  if (ms <? 1) || (2147483647 <? ms) then 1 else ms.

Definition timeoutMessage (pluginId : string) (ms : Z) : string :=
  String.append "Plugin "
    (String.append pluginId
       (String.append " execution timed out after "
          (String.append (pretty ms) "ms"))).

(** The milliseconds a call of [execute] keeps the process busy before it
    returns its promise. *)
Definition busyTime (e : Execution) : Z := Z.max (busy_ms e) 0.

(** [await Promise.race([plugin.execute(...), this.createTimeoutPromise(name)])]:
    the elements of the array are evaluated in order, so [execute] has
    returned its promise before [createTimeoutPromise] sets the timer, and
    the timer runs from that moment, not from the start of the call.  The
    function gives what the [await] yields and how many milliseconds after
    the return of [execute].  The event loop is taken to serve timers and
    completions in the order in which they fall due; a promise that settles
    at the instant the timer fires is taken to win. *)
Definition race (timeout_ms : Z) (pluginId : string) (p : Settlement)
  : result PluginResult * Z :=
  match p with
  | Settles after_ms outcome =>
      if after_ms <=? timerDelay timeout_ms then (outcome, Z.max after_ms 0)
      else (Throw (timeoutMessage pluginId timeout_ms), timerDelay timeout_ms)
  | Pending => (Throw (timeoutMessage pluginId timeout_ms), timerDelay timeout_ms)
  end.

(** The result pushed by the [catch] block. *)
Definition executionFailed (plugin : BasePlugin) : PluginResult :=
  {| success := false;
     data := None;
     result_message := Some "Plugin execution failed";
     error := Some {| code := "EXECUTION_ERROR";
                      error_message := "Plugin execution failed" |};
     execution_time_ms := 0;
     plugin_version := version plugin |}.

Record Executed := {
  plugin_id : string;
  result_ : PluginResult
}.

(** One turn of either loop: the entry pushed, the error logged by the
    [catch] block if it ran, and the milliseconds waited on the race once
    [execute] had returned. *)
Definition executeOne (timeout_ms : Z) (input : string) (context : PluginContext)
    (plugin : BasePlugin) : Executed * list LogEntry * Z :=
  match race timeout_ms (name plugin) (promise (execute plugin input context)) with
  | (Ok r, waited) => ({| plugin_id := name plugin; result_ := r |}, [], waited)
  | (Throw m, waited) =>
      ({| plugin_id := name plugin; result_ := executionFailed plugin |},
       [JS.error (String.append "Plugin " (String.append (name plugin) " execution failed")) m],
       waited)
  end.

(** The entries pushed, the log lines, and the time at which the call
    returns, counted from its start: each turn takes the time its call of
    [execute] runs synchronously and then the time waited on the race. *)
Fixpoint executePluginsSequential (timeout_ms : Z) (plugins : list BasePlugin)
    (input : string) (context : PluginContext) : list Executed * list LogEntry * Z :=
  match plugins with
  | [] => ([], [], 0)
  | plugin :: plugins' =>
      let '(r, entries, waited) := executeOne timeout_ms input context plugin in
      let '(results, entries', waited') :=
        executePluginsSequential timeout_ms plugins' input context in
      (r :: results, entries ++ entries',
       busyTime (execute plugin input context) + waited + waited')
  end.

(** [plugins.map(async plugin => ...)] runs each callback up to its
    [await], one after another: the calls of [execute] run in turn, the
    first from the instant [started], and the timer of each is set when its
    call has returned.  For each plugin, in the order of the plugins: the
    entry its callback returns, the error its [catch] block logs if it
    runs, and the instant at which its race falls due, which is when it
    settles unless the call of a later plugin is still running then. *)
Fixpoint parallelTurns (timeout_ms : Z) (started : Z) (plugins : list BasePlugin)
    (input : string) (context : PluginContext) : list (Executed * list LogEntry * Z) :=
  match plugins with
  | [] => []
  | plugin :: plugins' =>
      let returned := started + busyTime (execute plugin input context) in
      let '(r, entries, waited) := executeOne timeout_ms input context plugin in
      (r, entries, returned + waited)
        :: parallelTurns timeout_ms returned plugins' input context
  end.

(** A promise that is settled when [execute] returns it: its race is won
    in the microtasks that run once every callback of [map] has reached
    its [await], before any timer is served. *)
Definition settledAtReturn (e : Execution) : bool :=
  match promise e with
  | Settles after_ms _ => after_ms <=? 0
  | Pending => false
  end.

(** Turns in the order in which they fall due, those that fall due at the
    same instant in the order of the plugins. *)
Fixpoint settleInsert (turn : Executed * list LogEntry * Z)
    (turns : list (Executed * list LogEntry * Z)) : list (Executed * list LogEntry * Z) :=
  match turns with
  | [] => [turn]
  | turn' :: turns' =>
      if snd turn' <? snd turn then turn' :: settleInsert turn turns'
      else turn :: turn' :: turns'
  end.

Definition settleOrder (turns : list (Executed * list LogEntry * Z))
  : list (Executed * list LogEntry * Z) :=
  fold_right (fun turn settled => settleInsert turn settled) [] turns.

(** The order in which the [catch] blocks of the callbacks can run: first
    the turns whose promise was settled when it was returned, in the order
    of the plugins, then the others as they settle. *)
Definition catchOrder (plugins : list BasePlugin) (input : string) (context : PluginContext)
    (turns : list (Executed * list LogEntry * Z)) : list (Executed * list LogEntry * Z) :=
  let marked :=
    combine (map (fun plugin => settledAtReturn (execute plugin input context)) plugins) turns in
  map snd (List.filter (fun m => fst m) marked)
  ++ settleOrder (map snd (List.filter (fun m => negb (fst m)) marked)).

(** [Promise.all(promises)]: the entries in the order of the plugins, the
    log lines in the order in which the [catch] blocks ran, and the instant
    at which the last race settles, which is not before the last call of
    [execute] has returned. *)
Definition executePluginsParallel (timeout_ms : Z) (plugins : list BasePlugin)
    (input : string) (context : PluginContext) : list Executed * list LogEntry * Z :=
  let turns := parallelTurns timeout_ms 0 plugins input context in
  (map (fun turn => fst (fst turn)) turns,
   flat_map (fun turn => snd (fst turn)) (catchOrder plugins input context turns),
   fold_right (fun turn latest => Z.max (snd turn) latest) 0 turns).

Definition executePlugins (s : PluginService) (plugins : list BasePlugin)
    (input : string) (context : PluginContext) : list Executed * list LogEntry * Z :=
  match execution_mode (config s) with
  | parallel => executePluginsParallel (plugin_timeout_ms (config s)) plugins input context
  | sequential => executePluginsSequential (plugin_timeout_ms (config s)) plugins input context
  end.

(** *** processInput *)

Record ExecutionSummary := {
  total_plugins_activated : Z;
  successful_executions : Z;
  failed_executions : Z
}.

Record Processed := {
  plugins_executed : list Executed;
  execution_summary : ExecutionSummary
}.

Definition nothingExecuted : Processed :=
  {| plugins_executed := [];
     execution_summary := {| total_plugins_activated := 0;
                             successful_executions := 0;
                             failed_executions := 0 |} |}.

(** The outer [catch] of [processInput] cannot run: [findActivatedPlugins]
    and both execution loops catch what their callees throw. *)
Definition processInput (input : string) (context : PluginContext) (s : PluginService)
  : PluginService * Processed :=
  if negb (config_enabled (config s)) then (s, nothingExecuted)
  else
    let '(activatedPlugins, entries) := findActivatedPlugins input context s in
    let s := {| plugins := plugins s; config := config s; log := log s ++ entries |} in
    if (length activatedPlugins =? 0)%nat then
      ({| plugins := plugins s; config := config s;
          log := log s ++ [debug "No plugins activated for input"] |},
       nothingExecuted)
    else
      let '(pluginResults, entries, _) := executePlugins s activatedPlugins input context in
      let successfulExecutions :=
        Z.of_nat (length (List.filter (fun r => success (result_ r)) pluginResults)) in
      let failedExecutions := Z.of_nat (length pluginResults) - successfulExecutions in
      let executionSummary :=
        {| total_plugins_activated := Z.of_nat (length activatedPlugins);
           successful_executions := successfulExecutions;
           failed_executions := failedExecutions |} in
      ({| plugins := plugins s; config := config s;
          log := log s ++ entries ++ [info "Plugin processing completed"] |},
       {| plugins_executed := pluginResults; execution_summary := executionSummary |}).

End Plugins.

(* --------------------------------------------------------------------- *)
(** ** services/MemoryService.ts, continued: housekeeping                 *)
(* --------------------------------------------------------------------- *)

Module Sessions.
Import JS Memory.

(** [getActiveSessions], at the clock [now].  The ids are listed in the
    order of the finite map, not in the insertion order of the [Map]. *)
Definition getActiveSessions (now : Z) (m : MemoryService) : list string :=
  let cutoff := now - sessionTTL (config m) in
  map fst (List.filter (fun entry => cutoff <? updated_at (snd entry))
             (map_to_list (sessions m))).

(** [messages.reduce((sum, msg) => sum + msg.content.length, 0)] *)
Definition totalChars (messages : list ConversationMessage) : Z :=
  fold_left (fun sum msg => sum + Z.of_nat (String.length (content msg))) messages 0.

Record SessionStats := {
  messageCount : Z;
  sessionAge : Z;
  lastActivity : Z;
  hasSummary : bool;
  estimatedTokens : Z
}.

(** [Math.ceil(totalChars / 4)] for a count of characters. *)
Definition getSessionStats (now : Z) (sessionId : string) (m : MemoryService)
  : option SessionStats :=
  match sessions m !! sessionId with
  | None => None
  | Some session =>
      Some {| messageCount := Z.of_nat (length (messages session));
              sessionAge := now - created_at session;
              lastActivity := updated_at session;
              hasSummary := bool_decide (is_Some (sessionSummaries m !! sessionId));
              estimatedTokens := (totalChars (messages session) + 3) / 4 |}
  end.

Definition clearAllSessions (m : MemoryService) : MemoryService * Z :=
  (logged (info "Cleared all sessions") (withSummaries ∅ (withSessions ∅ m)),
   Z.of_nat (size (sessions m))).

(** [importSession]: the dates of a [ConversationSession] are [Date]s, which
    [new Date(...)] copies. *)
Definition importSession (sessionData : ConversationSession) (m : MemoryService)
  : MemoryService * result unit :=
  if String.eqb (session_id sessionData) EmptyString then (m, Throw "Invalid session data")
  else
    (logged (info (String.append "Imported session: " (session_id sessionData)))
       (withSessions (<[session_id sessionData := sessionData]> (sessions m)) m),
     Ok tt).

(** [cleanupExpiredSessions], the hourly sweep, at the clock [now]. *)
Definition expiredSessions (cutoff : Z) (m : MemoryService) : list string :=
  map fst (List.filter (fun entry => updated_at (snd entry) <? cutoff)
             (map_to_list (sessions m))).

Definition cleanupExpiredSessions (now : Z) (m : MemoryService) : MemoryService :=
  let cutoff := now - sessionTTL (config m) in
  let ids := expiredSessions cutoff m in
  let m' := withSummaries (fold_right delete (sessionSummaries m) ids)
              (withSessions (fold_right delete (sessions m) ids) m) in
  if (0 <? length ids)%nat then logged (info "Cleaned up expired sessions") m' else m'.

Record MemoryStats := {
  totalSessions : Z;
  totalMessages : Z;
  totalSummaries : Z;
  activeSessions : Z;
  memoryUsageEstimate : Z
}.

Definition messageBytes (message : ConversationMessage) : Z :=
  Z.of_nat (String.length (content message)) * 2 + 200.

Definition sessionBytes (session : ConversationSession) : Z :=
  fold_left (fun estimate message => estimate + messageBytes message) (messages session) 0 + 500.

Definition getMemoryStats (now : Z) (m : MemoryService) : MemoryStats :=
  let all := map snd (map_to_list (sessions m)) in
  {| totalSessions := Z.of_nat (size (sessions m));
     totalMessages := fold_left (fun sum session => sum + Z.of_nat (length (messages session))) all 0;
     totalSummaries := Z.of_nat (size (sessionSummaries m));
     activeSessions := Z.of_nat (length (getActiveSessions now m));
     memoryUsageEstimate := fold_left (fun estimate session => estimate + sessionBytes session) all 0 |}.

End Sessions.

(* --------------------------------------------------------------------- *)
(** ** services/PluginService.ts, continued: the registry                 *)
(* --------------------------------------------------------------------- *)

Module Registry.
Import JS Plugins.

(** [this.plugins.get(pluginId)] *)
Definition getPlugin (pluginId : string) (s : PluginService) : option BasePlugin :=
  option_map snd (List.find (fun entry => String.eqb (fst entry) pluginId) (plugins s)).

(** [updateConfig(newConfig)]: the properties present in [newConfig]
    replace those of the configuration. *)
Record PartialConfig := {
  new_enabled : option bool;
  new_max_plugins_per_request : option Z;
  new_plugin_timeout_ms : option Z;
  new_execution_mode : option ExecutionMode
}.

Definition spread (c : PluginSystemConfig) (newConfig : PartialConfig) : PluginSystemConfig :=
  {| config_enabled := default (config_enabled c) (new_enabled newConfig);
     max_plugins_per_request :=
       default (max_plugins_per_request c) (new_max_plugins_per_request newConfig);
     plugin_timeout_ms := default (plugin_timeout_ms c) (new_plugin_timeout_ms newConfig);
     execution_mode := default (execution_mode c) (new_execution_mode newConfig) |}.

Definition updateConfig (newConfig : PartialConfig) (s : PluginService) : PluginService :=
  {| plugins := plugins s; config := spread (config s) newConfig;
     log := log s ++ [info "Plugin service configuration updated"] |}.

Definition getConfig (s : PluginService) : PluginSystemConfig := config s.

(** [validatePlugins].  [validate] is the method of that name of the plugin
    objects, which returns the four lists of a [PluginValidationResult] or
    throws. *)
Record PluginValidationResult := {
  valid : bool;
  errors : list string;
  warnings : list string;
  missing_dependencies : list string;
  config_issues : list string
}.

Record Invalid := {
  invalid_plugin_id : string;
  issues : PluginValidationResult
}.

Definition hasErrors (validation : PluginValidationResult) : bool :=
  (0 <? length (errors validation))%nat
  || (0 <? length (missing_dependencies validation))%nat
  || (0 <? length (config_issues validation))%nat.

(** The [issues] object built in the [catch] block has no [valid] property. *)
Definition validationFailed (m : string) : PluginValidationResult :=
  {| valid := false;
     errors := [String.append "Validation failed: " m];
     warnings := []; missing_dependencies := []; config_issues := [] |}.

Fixpoint validateLoop (validate : BasePlugin -> result PluginValidationResult)
    (entries : list (string * BasePlugin)) : list string * list Invalid :=
  match entries with
  | [] => ([], [])
  | (pluginId, plugin) :: entries' =>
      let '(validPlugins, invalidPlugins) := validateLoop validate entries' in
      match validate plugin with
      | Ok validation =>
          if hasErrors validation
          then (validPlugins,
                {| invalid_plugin_id := pluginId; issues := validation |} :: invalidPlugins)
          else (pluginId :: validPlugins, invalidPlugins)
      | Throw m =>
          (validPlugins,
           {| invalid_plugin_id := pluginId; issues := validationFailed m |} :: invalidPlugins)
      end
  end.

Definition validatePlugins (validate : BasePlugin -> result PluginValidationResult)
    (s : PluginService) : list string * list Invalid :=
  validateLoop validate (plugins s).

End Registry.

(* --------------------------------------------------------------------- *)
(** ** Methods of [String.prototype]                                      *)
(* --------------------------------------------------------------------- *)

Module JSString.
Import JS.

(** The characters of [\s] and of [trim], among ASCII characters: tab, line
    feed, vertical tab, form feed, carriage return, space. *)
Definition isWhiteSpace (c : ascii) : bool :=
  let n := nat_of_ascii c in
  ((9 <=? n) && (n <=? 13) || (n =? 32))%nat.

Definition chars (s : string) : list ascii := list_ascii_of_string s.

Definition text (l : list ascii) : string := string_of_list_ascii l.

Definition length (s : string) : Z := Z.of_nat (String.length s).

(** [s.slice(start, end)] *)
Definition slice (start : Z) (end_ : option Z) (s : string) : string :=
  text (JS.slice start end_ (chars s)).

Fixpoint dropWhile (p : ascii -> bool) (l : list ascii) : list ascii :=
  match l with
  | [] => []
  | c :: l' => if p c then dropWhile p l' else l
  end.

(** [s.trim()] *)
Definition trim (s : string) : string :=
  text (rev (dropWhile isWhiteSpace (rev (dropWhile isWhiteSpace (chars s))))).

(** [s.startsWith(sub)] and [s.includes(sub)] *)
Fixpoint startsWith (s sub : list ascii) : bool :=
  match sub, s with
  | [], _ => true
  | _ :: _, [] => false
  | b :: sub', a :: s' => Ascii.eqb a b && startsWith s' sub'
  end.

Fixpoint includesFrom (s sub : list ascii) : bool :=
  startsWith s sub ||
  match s with
  | [] => false
  | _ :: s' => includesFrom s' sub
  end.

Definition includes (s sub : string) : bool := includesFrom (chars s) (chars sub).

(** [s.padStart(targetLength, "0")] *)
Definition padStart (targetLength : nat) (s : string) : string :=
  text (repeat "0"%char (targetLength - String.length s) ++ chars s).

End JSString.

(* --------------------------------------------------------------------- *)
(** ** utils/textUtils.ts                                                 *)
(* --------------------------------------------------------------------- *)

Module Text.
Import JS RAG.

(** *** generateChunkId *)

(** [sourceFilename.replace(/\.[^/.]+$/, '')]: the name without its last
    extension, which is a dot followed to the end of the name by one or more
    characters other than a dot or a slash. *)
Definition extensionAt (l : list ascii) : bool :=
  match l with
  | [] => false
  | c :: l' =>
      (Ascii.eqb c "."%char
       && (0 <? List.length l')%nat
       && forallb (fun d => negb (Ascii.eqb d "."%char || Ascii.eqb d "/"%char)) l')
  end.

Fixpoint removeExtension (l : list ascii) : list ascii :=
  match l with
  | [] => []
  | c :: l' => if extensionAt l then [] else c :: removeExtension l'
  end.

(** [index.toString().padStart(4, '0')], for an index that is a natural
    number. *)
Definition generateChunkId (sourceFilename : string) (index : nat) : string :=
  String.append (JSString.text (removeExtension (JSString.chars sourceFilename)))
    (String.append "_chunk_" (JSString.padStart 4 (pretty index))).

(** *** findLastSentenceEnd *)

Definition isSentenceEnder (c : ascii) : bool :=
  Ascii.eqb c "."%char || Ascii.eqb c "!"%char || Ascii.eqb c "?"%char.

(** The loop over the matches of [/[.!?]/g], from the character at [index]. *)
Fixpoint lastMatchFrom (index lastMatch : Z) (l : list ascii) : Z :=
  match l with
  | [] => lastMatch
  | c :: l' => lastMatchFrom (index + 1) (if isSentenceEnder c then index + 1 else lastMatch) l'
  end.

Definition findLastSentenceEnd (text : string) : Z :=
  lastMatchFrom 0 (-1) (JSString.chars text).

(** *** chunkByFixedSize

    [sentences] is [config.preserve_boundaries?.sentences].  The state of
    the [while] loop is [position], [chunkIndex] and [chunks]; the loop is
    run for at most [fuel] turns, and [None] means that it has not exited
    by then. *)
Record FixedState := {
  position : Z;
  chunkIndex : nat;
  chunks : list TextChunk
}.

(** One turn of the loop body.  [lastSentenceEnd > chunkText.length * 0.5]
    compares an integer with half an integer. *)
Definition fixedTurn (text : string) (config : ChunkingConfig) (sentences : bool)
    (sourceFilename : string) (st : FixedState) : FixedState :=
  let endPosition := Z.min (position st + max_chunk_size config) (JSString.length text) in
  let chunkText := JSString.slice (position st) (Some endPosition) text in
  let chunkText :=
    if (endPosition <? JSString.length text) && sentences then
      let lastSentenceEnd := findLastSentenceEnd chunkText in
      if JSString.length chunkText <? 2 * lastSentenceEnd
      then JSString.slice 0 (Some lastSentenceEnd) chunkText
      else chunkText
    else chunkText in
  let pushed := 0 <? JSString.length (JSString.trim chunkText) in
  let next := endPosition - chunk_overlap config in
  {| position := if next <=? 0 then endPosition else next;
     chunkIndex := if pushed then S (chunkIndex st) else chunkIndex st;
     chunks := if pushed
               then chunks st ++ [ {| tc_id := generateChunkId sourceFilename (chunkIndex st);
                                      tc_text := JSString.trim chunkText;
                                      startPosition := position st;
                                      tc_length := JSString.length chunkText;
                                      tc_section := None |} ]
               else chunks st |}.

Fixpoint fixedLoop (fuel : nat) (text : string) (config : ChunkingConfig) (sentences : bool)
    (sourceFilename : string) (st : FixedState) : option (list TextChunk) :=
  if position st <? JSString.length text then
    match fuel with
    | O => None
    | S fuel' =>
        fixedLoop fuel' text config sentences sourceFilename
          (fixedTurn text config sentences sourceFilename st)
    end
  else Some (chunks st).

Definition chunkByFixedSize (fuel : nat) (text : string) (config : ChunkingConfig)
    (sentences : bool) (sourceFilename : string) : option (list TextChunk) :=
  fixedLoop fuel text config sentences sourceFilename
    {| position := 0; chunkIndex := 0; chunks := [] |}.

End Text.

(* --------------------------------------------------------------------- *)
(** ** services/LLMService.ts                                             *)
(* --------------------------------------------------------------------- *)

Module LLM.
Import JS.

Inductive Provider := groq | gemini.

Record LLMMessage := {
  role : Memory.Role;
  content : string
}.

Record LLMRequest := {
  messages : list LLMMessage;
  model : option string;
  temperature : option float;
  max_tokens : option float;
  top_p : option float
}.

Record TokenUsage := {
  prompt_tokens : Z;
  completion_tokens : Z;
  total_tokens : Z
}.

Record LLMResponse := {
  response_content : string;
  response_model : string;
  usage : TokenUsage;
  provider : Provider
}.

Record LLMProviderConfig := {
  config_provider : Provider;
  apiKey : string;
  config_model : string;
  timeout : option Z;
  maxRetries : option Z
}.

(** What a call of the provider's API throws: an error of axios, with the
    HTTP status of the response if there was one, or another error, with
    its [code] if it has one. *)
Record CallError := {
  isAxiosError : bool;
  status : option Z;
  code : option string;
  error_message : string
}.

(** [retryCount] is the counter of the service object, shared by its calls. *)
Record LLMService := {
  config : LLMProviderConfig;
  retryCount : Z
}.

Definition create (config : LLMProviderConfig) : LLMService :=
  {| config := config; retryCount := 0 |}.

(** *** shouldRetry *)

Definition shouldRetry (error : CallError) : bool :=
  if isAxiosError error then
    match status error with
    | Some s => (s =? 429) || (s =? 500) || (s =? 502) || (s =? 503) || (s =? 504)
    | None => false
    end
  else
    match code error with
    | Some c => String.eqb c "ECONNRESET" || String.eqb c "ETIMEDOUT"
    | None => false
    end.

(** *** The request sent to the provider

    [x || d] for a number: [undefined], [0] and [NaN] give [d]. *)
Definition orNumber (x : option float) (d : float) : float :=
  match x with
  | Some v => if (v =? 0)%float || is_nan v then d else v
  | None => d
  end.

Definition orString (x : option string) (d : string) : string :=
  match x with
  | Some v => if String.eqb v EmptyString then d else v
  | None => d
  end.

Record Payload := {
  payload_model : string;
  payload_messages : list LLMMessage;
  payload_temperature : float;
  payload_max_tokens : float;
  payload_top_p : float
}.

(** The [payload] of [callGroq]. *)
Definition groqPayload (config : LLMProviderConfig) (request : LLMRequest) : Payload :=
  {| payload_model := orString (model request) (orString (Some (config_model config)) "llama3-8b-8192");
     payload_messages := messages request;
     payload_temperature := orNumber (temperature request) 0x1.6666666666666p-1;
     payload_max_tokens := orNumber (max_tokens request) 1000;
     payload_top_p := orNumber (top_p request) 1 |}.

(** [convertToGeminiFormat] *)
Inductive GeminiRole := gemini_user | gemini_model.

Record GeminiMessage := {
  gemini_role : GeminiRole;
  gemini_text : string
}.

Definition isSystem (m : LLMMessage) : bool :=
  match role m with Memory.system => true | _ => false end.

(** [parts.join(separator)] *)
Fixpoint join (separator : string) (parts : list string) : string :=
  match parts with
  | [] => EmptyString
  | [part] => part
  | part :: parts' => String.append part (String.append separator (join separator parts'))
  end.

Definition newline : string := String (ascii_of_nat 10) EmptyString.

Definition convertToGeminiFormat (messages : list LLMMessage) : list GeminiMessage :=
  let systemMessages := List.filter isSystem messages in
  let conversationMessages := List.filter (fun m => negb (isSystem m)) messages in
  let instructions :=
    if (0 <? length systemMessages)%nat then
      [ {| gemini_role := gemini_user;
           gemini_text :=
             String.append "Instructions: "
               (String.append (join (String.append newline newline) (map content systemMessages))
                  (String.append newline (String.append newline
                     (String.append "---" (String.append newline newline))))) |} ]
    else [] in
  instructions ++
  map (fun message =>
         {| gemini_role := match role message with
                           | Memory.assistant => gemini_model
                           | _ => gemini_user
                           end;
            gemini_text := content message |}) conversationMessages.

(** The [payload] of [callGemini]: the converted messages and the
    [generationConfig]. *)
Record GeminiPayload := {
  contents : list GeminiMessage;
  generation_temperature : float;
  maxOutputTokens : float;
  topP : float
}.

Definition geminiPayload (request : LLMRequest) : GeminiPayload :=
  {| contents := convertToGeminiFormat (messages request);
     generation_temperature := orNumber (temperature request) 0x1.6666666666666p-1;
     maxOutputTokens := orNumber (max_tokens request) 1000;
     topP := orNumber (top_p request) 1 |}.

(** *** generateCompletion

    [call attempt] is what the provider's API does at the call number
    [attempt] of this request: it answers, or the call throws.  The
    function returns the outcome, the service with its counter, the delays
    waited before each retry, and the number of calls made; [None] means
    that [fuel] retries did not suffice to come to an end. *)
Definition limit (s : LLMService) : Z :=
  match maxRetries (config s) with
  | Some n => if n =? 0 then 3 else n
  | None => 3
  end.

Record Completion := {
  outcome : result LLMResponse;
  service : LLMService;
  delays : list Z;
  calls : nat
}.

Fixpoint generateCompletion (fuel : nat) (call : nat -> LLMResponse + CallError)
    (attempt : nat) (s : LLMService) : option Completion :=
  match call attempt with
  | inl response =>
      Some {| outcome := Ok response; service := s; delays := []; calls := 1 |}
  | inr error =>
      if shouldRetry error && (retryCount s <? limit s) then
        match fuel with
        | O => None
        | S fuel' =>
            let s := {| config := config s; retryCount := retryCount s + 1 |} in
            match generateCompletion fuel' call (S attempt) s with
            | Some c =>
                Some {| outcome := outcome c; service := service c;
                        delays := 1000 * retryCount s :: delays c;
                        calls := S (calls c) |}
            | None => None
            end
        end
      else
        Some {| outcome := Throw (error_message error);
                service := {| config := config s; retryCount := 0 |};
                delays := []; calls := 1 |}
  end.

(** *** generateEmbeddings

    [embedContent text] is what one request to the embedding endpoint does:
    it throws, or it answers, with [embedding.values] or without.  Both
    providers use [generateGeminiEmbeddings]. *)
Fixpoint generateGeminiEmbeddings (embedContent : string -> result (option (list float)))
    (texts : list string) : result (list (list float)) :=
  match texts with
  | [] => Ok []
  | text :: texts' =>
      bind (embedContent text) (fun values =>
      bind (generateGeminiEmbeddings embedContent texts') (fun embeddings =>
      Ok (match values with
          | Some v => v :: embeddings
          | None => embeddings
          end)))
  end.

Definition generateEmbeddings (embedContent : string -> result (option (list float)))
    (texts : list string) : result (list (list float)) * list LogEntry :=
  match generateGeminiEmbeddings embedContent texts with
  | Ok embeddings =>
      (Ok embeddings, [info "Generating embeddings"; info "Embeddings generated successfully"])
  | Throw m =>
      (Throw m, [info "Generating embeddings"; JS.error "Embedding generation failed" m])
  end.

(** *** Static helpers *)

(** [Math.ceil(text.length / 4)] *)
Definition estimateTokenCount (text : string) : Z :=
  (Z.of_nat (String.length text) + 3) / 4.

Definition getDefaultModel (provider : Provider) : string :=
  match provider with
  | groq => "llama3-8b-8192"
  | gemini => "gemini-pro"
  end.

End LLM.

(* --------------------------------------------------------------------- *)
(** ** services/AgentService.ts                                           *)
(* --------------------------------------------------------------------- *)

Module Agent.
Import JS.

(** *** Objects read without their type

    [buildSystemPrompt] and the response builder take [ragResults] and
    [pluginResults] as [any] and read properties by name.  A value is read
    as JavaScript reads it: a property an object does not have is
    [undefined], and reading a property of [undefined] throws a
    [TypeError], whose message is given as V8 words it.  None of the
    properties read here exists on a string or on a number. *)
Inductive Value :=
| Undefined
| Text (s : string)
| Number (x : float)
| Integer (n : Z)
| Object (properties : Properties)
with Properties :=
| NoProperties
| Property (name : string) (value : Value) (rest : Properties).

Fixpoint lookup (property : string) (properties : Properties) : Value :=
  match properties with
  | NoProperties => Undefined
  | Property name v rest =>
      if String.eqb name property then v else lookup property rest
  end.

Definition get (v : Value) (property : string) : result Value :=
  match v with
  | Undefined =>
      Throw (String.append "Cannot read properties of undefined (reading '"
               (String.append property "')"))
  | Object properties => Ok (lookup property properties)
  | _ => Ok Undefined
  end.

(** [v || 0] *)
Definition orZero (v : Value) : Value :=
  match v with
  | Undefined => Integer 0
  | Text s => if String.eqb s EmptyString then Integer 0 else v
  | Number x => if (x =? 0)%float || is_nan x then Integer 0 else v
  | Integer n => v
  | Object _ => v
  end.

(** The properties of a [SimilarityResult] and of its [EmbeddedChunk], as
    [findSimilarChunks] and [processDocument] build the objects. *)
Definition ofSource (s : VectorUtils.ChunkSource) : Value :=
  Object (Property "filename" (Text (VectorUtils.filename s))
         (Property "start_position" (Integer (VectorUtils.start_position s))
         (Property "length" (Integer (VectorUtils.source_length s))
         (match VectorUtils.section s with
          | Some name => Property "section" (Text name) NoProperties
          | None => NoProperties
          end)))).

(** The components of the vector are not read by the agent. *)
Definition ofChunk (c : VectorUtils.EmbeddedChunk) : Value :=
  Object (Property "id" (Text (VectorUtils.id c))
         (Property "text" (Text (VectorUtils.text c))
         (Property "embedding"
            (Object (Property "values" (Object NoProperties)
                    (Property "dimensions"
                       (Integer (VectorUtils.dimensions (VectorUtils.embedding c)))
                     NoProperties)))
         (Property "source" (ofSource (VectorUtils.source c))
         (Property "metadata"
            (Object (Property "created_at" (Integer (VectorUtils.created_at c)) NoProperties))
          NoProperties))))).

Definition ofResult (r : VectorUtils.SimilarityResult) : Value :=
  Object (Property "chunk" (ofChunk (VectorUtils.chunk r))
         (Property "similarity_score" (Number (VectorUtils.similarity_score r))
         (Property "rank" (Integer (VectorUtils.rank r)) NoProperties))).

(** A value inside a template literal; of the values above only texts and
    [undefined] are interpolated. *)
Definition interpolate (v : Value) : string :=
  match v with
  | Text s => s
  | Integer n => pretty n
  | Undefined => "undefined"
  | Number _ => "NaN"
  | Object _ => "[object Object]"
  end.

(** *** Types *)

Record AgentMessageRequest := {
  message : string;
  session_id : string
}.

Record Source := {
  source_filename : Value;
  relevance_score : Value;
  source_chunk : Value
}.

Record ResponseData := {
  response : string;
  response_session_id : string;
  plugins_used : list string;
  sources_used : list Source;
  token_usage : LLM.TokenUsage
}.

Record AgentError := {
  code : string;
  error_message : string;
  details : string
}.

Inductive AgentMessageResponse :=
| Succeeded (data : ResponseData)
| Failed (error : AgentError).

(** The four services of the agent; the temperature and the token limit of
    its configuration. *)
Record AgentService := {
  ragService : RAG.RAGService;
  memoryService : Memory.MemoryService;
  pluginService : Plugins.PluginService;
  llm_temperature : float;
  llm_max_tokens : float
}.

(** What one call of [processMessage] reads from its surroundings: those of
    the retrieval index, the answer of [llmService.generateCompletion] to a
    request, and the ids and times of the two messages it stores. *)
Record Env := {
  ragEnv : RAG.Env;
  generateCompletion : LLM.LLMRequest -> result LLM.LLMResponse;
  userMessageId : string;
  userMessageTime : Z;
  assistantMessageId : string;
  assistantMessageTime : Z
}.

(** *** buildSystemPrompt *)

Definition newline : string := String (ascii_of_nat 10) EmptyString.

Fixpoint lines (l : list string) : string :=
  match l with
  | [] => EmptyString
  | line :: l' => String.append line (String.append newline (lines l'))
  end.

Definition guidelines : string :=
  lines [ "You are an intelligent AI assistant with access to a knowledge base and various tools. Your role is to provide helpful, accurate, and contextual responses.";
          "";
          "GUIDELINES:";
          "- Be helpful, informative, and conversational";
          "- Use the provided context when relevant";
          "- If plugins have provided specific information, incorporate it naturally";
          "- Acknowledge when you don't have enough information";
          "- Be concise but complete in your responses";
          "" ]%string.

Definition knowledgeHeading : string :=
  lines [ "KNOWLEDGE BASE CONTEXT:";
          "The following information from the knowledge base may be relevant to the user's question:";
          "" ]%string.

Definition toolHeading : string :=
  lines [ "TOOL RESULTS:";
          "The following tools have provided specific information:";
          "" ]%string.

Definition closing : string :=
  "Please provide a helpful response based on the user's question and any relevant context provided above.".

(** The body of the [forEach] over the first three chunks: the text added
    for the chunk at [index]. *)
Definition chunkEntry (index : Z) (chunk : Value) : result string :=
  bind (get chunk "source") (fun source =>
  bind (get source "filename") (fun filename =>
  bind (get chunk "content") (fun content =>
  Ok (lines [ String.append (pretty (index + 1))
                (String.append ". From " (String.append (interpolate filename) ":"));
              interpolate content;
              EmptyString ])))).

Fixpoint chunkEntries (index : Z) (chunks : list Value) (prompt : string) : result string :=
  match chunks with
  | [] => Ok prompt
  | chunk :: chunks' =>
      bind (chunkEntry index chunk) (fun entry =>
      chunkEntries (index + 1) chunks' (String.append prompt entry))
  end.

Definition toolEntry (p : Plugins.Executed) : string :=
  lines [ String.append "- "
            (String.append (Plugins.plugin_id p)
               (String.append ": "
                  (match Plugins.result_message (Plugins.result_ p) with
                   | Some m => m
                   | None => "undefined"
                   end))) ].

Definition buildSystemPrompt (ragResults : RAG.RAGResult) (pluginResults : Plugins.Processed)
  : result string :=
  let prompt := guidelines in
  let retrieved := map ofResult (RAG.retrieved_chunks ragResults) in
  bind (if (0 <? length retrieved)%nat
        then chunkEntries 0 (slice 0 (Some 3) retrieved) (String.append prompt knowledgeHeading)
        else Ok prompt) (fun prompt =>
  let successfulPlugins :=
    List.filter (fun p => Plugins.success (Plugins.result_ p))
      (Plugins.plugins_executed pluginResults) in
  let prompt :=
    if (0 <? length (Plugins.plugins_executed pluginResults))%nat
       && (0 <? length successfulPlugins)%nat
    then String.append prompt
           (String.append toolHeading
              (String.append (String.concat EmptyString (map toolEntry successfulPlugins))
                 newline))
    else prompt in
  Ok (String.append prompt closing)).

(** *** processMessage *)

Definition ragContext (request : AgentMessageRequest) : RAG.RAGContext :=
  {| RAG.query := message request;
     RAG.session_id := session_id request;
     RAG.search_params := {| RAG.top_k := 5;
                             RAG.min_similarity_score := Some 0x1.3333333333333p-2%float;
                             RAG.filters := None |} |}.

(** [retrieved_chunks.map(chunk => chunk.source.filename)] *)
Fixpoint filenames (chunks : list Value) : result (list Value) :=
  match chunks with
  | [] => Ok []
  | chunk :: chunks' =>
      bind (get chunk "source") (fun source =>
      bind (get source "filename") (fun filename =>
      bind (filenames chunks') (fun rest => Ok (filename :: rest))))
  end.

(** The elements of [sources_used] in the response. *)
Fixpoint sources (chunks : list Value) : result (list Source) :=
  match chunks with
  | [] => Ok []
  | chunk :: chunks' =>
      bind (get chunk "source") (fun source =>
      bind (get source "filename") (fun filename =>
      bind (get chunk "similarity") (fun similarity =>
      bind (get chunk "content") (fun content =>
      bind (get source "section") (fun _ =>
      bind (sources chunks') (fun rest =>
      Ok ({| source_filename := filename;
             relevance_score := orZero similarity;
             source_chunk := content |} :: rest)))))))
  end.

(** The metadata stored with a message: an array is written as its
    elements joined by commas; the processing time, a difference of two
    readings of the clock, is left out. *)
Definition listed (key : string) (values : list string) : string * string :=
  (key, String.concat "," values).

Definition failed (m : string) : AgentMessageResponse :=
  Failed {| code := "PROCESSING_ERROR"; error_message := "Failed to process message";
            details := m |}.

Definition withMemory (m : Memory.MemoryService) (a : AgentService) : AgentService :=
  {| ragService := ragService a; memoryService := m; pluginService := pluginService a;
     llm_temperature := llm_temperature a; llm_max_tokens := llm_max_tokens a |}.

Definition withRag (r : RAG.RAGService) (a : AgentService) : AgentService :=
  {| ragService := r; memoryService := memoryService a; pluginService := pluginService a;
     llm_temperature := llm_temperature a; llm_max_tokens := llm_max_tokens a |}.

Definition withPlugins (p : Plugins.PluginService) (a : AgentService) : AgentService :=
  {| ragService := ragService a; memoryService := memoryService a; pluginService := p;
     llm_temperature := llm_temperature a; llm_max_tokens := llm_max_tokens a |}.

Definition processMessage (env : Env) (request : AgentMessageRequest) (a : AgentService)
  : AgentService * AgentMessageResponse :=
  (* Step 1 *)
  let conversationHistory :=
    Memory.getConversationHistory (session_id request) (Some 10) (memoryService a) in
  (* Step 2 *)
  let '(plugins, pluginResults) :=
    Plugins.processInput (message request) {| Plugins.session_id := session_id request |}
      (pluginService a) in
  let a := withPlugins plugins a in
  let pluginsUsed := map Plugins.plugin_id (Plugins.plugins_executed pluginResults) in
  (* Step 3 *)
  match RAG.retrieveContent (ragEnv env) (ragContext request) (ragService a) with
  | (rag, Throw m) => (withRag rag a, failed m)
  | (rag, Ok ragResults) =>
      let a := withRag rag a in
      let retrieved := map ofResult (RAG.retrieved_chunks ragResults) in
      (* Step 4 *)
      let a := withMemory
                 (fst (Memory.addMessage (userMessageId env) (userMessageTime env)
                         (session_id request) Memory.user (message request)
                         [listed "plugins_used" pluginsUsed] (memoryService a))) a in
      (* Step 5 *)
      match buildSystemPrompt ragResults pluginResults with
      | Throw m => (a, failed m)
      | Ok systemPrompt =>
          (* Step 6 *)
          let request_ :=
            {| LLM.messages :=
                 {| LLM.role := Memory.system; LLM.content := systemPrompt |}
                 :: map (fun msg => {| LLM.role := Memory.role msg;
                                       LLM.content := Memory.content msg |})
                      (slice (-5) None conversationHistory)
                 ++ [ {| LLM.role := Memory.user; LLM.content := message request |} ];
               LLM.model := None;
               LLM.temperature := Some (llm_temperature a);
               LLM.max_tokens := Some (llm_max_tokens a);
               LLM.top_p := None |} in
          match generateCompletion env request_ with
          | Throw m => (a, failed m)
          | Ok llmResponse =>
              (* Step 7 *)
              match filenames retrieved with
              | Throw m => (a, failed m)
              | Ok sourcesUsed =>
                  let a := withMemory
                             (fst (Memory.addMessage (assistantMessageId env)
                                     (assistantMessageTime env) (session_id request)
                                     Memory.assistant (LLM.response_content llmResponse)
                                     [listed "sources_used" (map interpolate sourcesUsed);
                                      listed "plugins_used" pluginsUsed]
                                     (memoryService a))) a in
                  (* Step 8 *)
                  match sources retrieved with
                  | Throw m => (a, failed m)
                  | Ok sourcesOfResponse =>
                      (a, Succeeded {| response := LLM.response_content llmResponse;
                                       response_session_id := session_id request;
                                       plugins_used := pluginsUsed;
                                       sources_used := sourcesOfResponse;
                                       token_usage := LLM.usage llmResponse |})
                  end
              end
          end
      end
  end.

(** [getSessionHistory], with its default limit of 50. *)
Record HistoryEntry := {
  entry_role : Memory.Role;
  entry_content : string;
  entry_timestamp : Z
}.

Definition getSessionHistory (sessionId : string) (limit : option Z) (a : AgentService)
  : list HistoryEntry * Z :=
  let history :=
    Memory.getConversationHistory sessionId
      (Some (match limit with Some n => n | None => 50 end)) (memoryService a) in
  (map (fun msg => {| entry_role := Memory.role msg; entry_content := Memory.content msg;
                      entry_timestamp := Memory.timestamp msg |}) history,
   Z.of_nat (length history)).

Definition clearSession (sessionId : string) (a : AgentService) : AgentService :=
  withMemory (fst (Memory.clearSession sessionId (memoryService a))) a.

End Agent.

(** ** [utils/vectorUtils.ts], continued: distances and batch scoring *)

Module Distances.
Import JS VectorUtils.

(** *** euclideanDistance *)

(** [for (i...) { const diff = a[i] - b[i]; sum += diff * diff }] *)
Fixpoint squaresLoop (vectorA vectorB : list float) (sum : float) : float :=
  match vectorA, vectorB with
  | a :: vectorA', b :: vectorB' =>
      let diff := (a - b)%float in
      squaresLoop vectorA' vectorB' (sum + diff * diff)%float
  | _, _ => sum
  end.

Definition euclideanDistance (vectorA vectorB : list float) : result float :=
  if negb (length vectorA =? length vectorB)%nat then
    Throw "Vectors must have the same dimensions"
  else Ok (sqrt (squaresLoop vectorA vectorB 0%float)).

(** *** manhattanDistance *)

(** [for (i...) sum += Math.abs(a[i] - b[i])] *)
Fixpoint absLoop (vectorA vectorB : list float) (sum : float) : float :=
  match vectorA, vectorB with
  | a :: vectorA', b :: vectorB' => absLoop vectorA' vectorB' (sum + abs (a - b))%float
  | _, _ => sum
  end.

Definition manhattanDistance (vectorA vectorB : list float) : result float :=
  if negb (length vectorA =? length vectorB)%nat then
    Throw "Vectors must have the same dimensions"
  else Ok (absLoop vectorA vectorB 0%float).

(** *** batchCosineSimilarity *)

(** [vectors.map(vector => { try { return cosineSimilarity(q, vector) }
    catch (error) { console.error(label, error); return 0 } })]: the scores
    and, for each error caught, the label and the error's message. *)
Fixpoint batchLoop (queryVector : list float) (vectors : list (list float))
  : list float * list (string * string) :=
  match vectors with
  | [] => ([], [])
  | vector :: vectors' =>
      let '(scores, console) := batchLoop queryVector vectors' in
      match cosineSimilarity queryVector vector with
      | Ok similarity => (similarity :: scores, console)
      | Throw error =>
          (0%float :: scores, ("Error calculating similarity:"%string, error) :: console)
      end
  end.

Definition batchCosineSimilarity (queryVector : list float) (vectors : list (list float))
  : result (list float) * list (string * string) :=
  if (length queryVector =? 0)%nat then (Throw "Query vector cannot be empty", [])
  else if (length vectors =? 0)%nat then (Ok [], [])
  else let '(scores, console) := batchLoop queryVector vectors in (Ok scores, console).

End Distances.

(** ** [plugins/BasePlugin.ts]: validation of a plugin *)

Module PluginBase.
Import JS Plugins Registry.

(** [!s || s.trim().length === 0] *)
Definition blank (s : string) : bool :=
  (String.length s =? 0)%nat || (JSString.length (JSString.trim s) =? 0).

(** [AbstractBasePlugin.validate()], for a plugin with the given name,
    version and trigger words whose [customValidation()] settles as given
    (its result has the four lists; the [valid] field is not read). *)
Definition validate (name version : string) (triggers : list string)
    (customValidation : result PluginValidationResult) : result PluginValidationResult :=
  let errors0 :=
    (if blank name then ["Plugin name is required"%string] else []) ++
    (if blank version then ["Plugin version is required"%string] else []) in
  let warnings0 :=
    if (length triggers =? 0)%nat then ["Plugin has no trigger words defined"%string] else [] in
  match customValidation with
  | Throw m => Throw m
  | Ok custom =>
      let errors1 := errors0 ++ errors custom in
      let missing := missing_dependencies custom in
      Ok {| valid := (length errors1 =? 0)%nat && (length missing =? 0)%nat;
            errors := errors1;
            warnings := warnings0 ++ warnings custom;
            missing_dependencies := missing;
            config_issues := config_issues custom |}
  end.

End PluginBase.

(* ===================================================================== *)
(** * Part II: the vocabulary of the specification                        *)
(* ===================================================================== *)

(** The notions the statements of Part IV are written in, defined from the
    words of the specification, and the sample data they are tried on. *)

(** ** Binary64 numbers *)

Module Binary64.

(** A binary64 number other than NaN. *)
Definition notnan (x : float) : Prop := Prim2SF x <> S754_nan.

(** A finite or infinite number of sign [s]: neither a zero nor NaN. *)
Definition signed_nonzero (s : bool) (f : spec_float) : Prop :=
  match f with
  | S754_finite s' _ _ => s' = s
  | S754_infinity s' => s' = s
  | _ => False
  end.

(** The position of a number in the order of the reals extended with the
    two infinities, as a triple compared lexicographically: the class
    (negative infinity, negative, zero, positive, positive infinity), then
    exponent and mantissa, both negated for negative numbers. *)
Definition fkey (X : spec_float) : Z * Z * Z :=
  match X with
  | S754_infinity true => (-2, 0, 0)
  | S754_finite true m e => (-1, - e, - Zpos m)
  | S754_zero _ => (0, 0, 0)
  | S754_nan => (0, 0, 0)
  | S754_finite false m e => (1, e, Zpos m)
  | S754_infinity false => (2, 0, 0)
  end.

(** The lexicographic comparison of two triples. *)
Definition lexcmp (k1 k2 : Z * Z * Z) : comparison :=
  let '(a1, b1, c1) := k1 in
  let '(a2, b2, c2) := k2 in
  match a1 ?= a2 with
  | Eq => match b1 ?= b2 with Eq => c1 ?= c2 | r => r end
  | r => r
  end.

(** The position of a primitive float. *)
Definition key (x : float) : Z * Z * Z := fkey (Prim2SF x).

End Binary64.

(** ** Descending order *)

Module Order.
Import Binary64.

(** [(a, b) => score(b) - score(a)] *)
Definition descending {A} (score : A -> float) (a b : A) : float :=
  (score b - score a)%float.

(** Every score is a number. *)
Definition numbers {A} (score : A -> float) (l : list A) : Prop :=
  Forall (fun a => notnan (score a)) l.

(** [a] may stand before [b]: its score is not below. *)
Definition notBelow {A} (score : A -> float) (a b : A) : Prop :=
  (score b <=? score a)%float = true.

(** The score of [a] equals [v] (the two zeros are equal). *)
Definition sameScore {A} (score : A -> float) (v : float) (a : A) : bool :=
  (score a =? v)%float.

End Order.

(** ** Vector math *)

Module VectorSpec.
Import JS VectorUtils.

(** [dot(a, b)]: the sum of the products, from the first component on. *)
Definition dot (a b : list float) : float :=
  fold_left (fun acc p => (acc + fst p * snd p)%float) (combine a b) 0%float.

(** [‖a‖] *)
Definition norm (a : list float) : float := sqrt (dot a a).

(** Every component is a zero, [+0] or [-0]. *)
Definition zeroVector (a : list float) : Prop :=
  Forall (fun x => (x =? 0)%float = true) a.

(** The candidates whose cosine similarity with the query exists and is at
    least [min_score], in candidate order, each with its similarity. *)
Definition qualifying (query : list float) (min_score : float)
    (candidates : list EmbeddedChunk) : list (EmbeddedChunk * float) :=
  flat_map (fun c =>
              match cosineSimilarity query (values (embedding c)) with
              | Ok s => if (min_score <=? s)%float then [(c, s)] else []
              | Throw _ => []
              end) candidates.

(** A result without its rank. *)
Definition scored (r : SimilarityResult) : EmbeddedChunk * float :=
  (chunk r, similarity_score r).

(** The stored vector has as many components as the query. *)
Definition sameDimension (query : list float) (c : EmbeddedChunk) : bool :=
  (length (values (embedding c)) =? length query)%nat.

(** The line written to [console.error] for a chunk that is skipped. *)
Definition consoleLine (c : EmbeddedChunk) : string :=
  String.append "Error calculating similarity for chunk " (String.append (id c) ":").

(** A chunk of [notes.md] with the vector [v]. *)
Definition chunkOf (name : string) (v : list float) : EmbeddedChunk :=
  {| id := name; text := name;
     embedding := {| values := v; dimensions := Z.of_nat (length v) |};
     source := {| filename := "notes.md"; start_position := 0; source_length := 0;
                  section := None |};
     created_at := 0 |}.

End VectorSpec.

(** ** Retrieval index *)

Module IndexSpec.
Import JS VectorUtils RAG.

(** The stored chunks attributed to a file name. *)
Definition chunksOf (name : string) (chunks : list EmbeddedChunk) : list EmbeddedChunk :=
  List.filter (fun c => String.eqb (filename (source c)) name) chunks.

(** The number of chunks one ingestion of [content] under [name] makes. *)
Definition produced (env : Env) (name content : string) (s : RAGService) : nat :=
  match chunkText (textUtils env)
          (stripMarkdown (textUtils env) (cleanText (textUtils env) content))
          (chunkingConfig (config s)) name with
  | Ok chunks => length chunks
  | Throw _ => 0%nat
  end.

(** The chunks of a store that pass a file-name filter. *)
Definition named (names : list string) (r : SimilarityResult) : bool :=
  includes names (filename (source (chunk r))).

(** What the filters of a query ask of a result, in the words of the
    specification: when a set of file names is given, the chunk comes from
    one of these files; when a set of sections is given, the chunk has a
    section and it is one of these; when a date range is given, the chunk
    was created within it, both ends included.  An empty set asks
    nothing. *)
Definition satisfies (f : Filters) (r : SimilarityResult) : Prop :=
  (forall names, filenames f = Some names -> names <> [] ->
     List.In (filename (source (chunk r))) names) /\
  (forall names, sections f = Some names -> names <> [] ->
     exists name, section (source (chunk r)) = Some name /\ name <> EmptyString /\
                  List.In name names) /\
  (forall range, date_range f = Some range ->
     (forall d, range_start range = Some d -> d <= created_at (chunk r)) /\
     (forall d, range_end range = Some d -> created_at (chunk r) <= d)).

(** A filter on file names alone. *)
Definition onlyFilenames (names : list string) : Filters :=
  {| filenames := Some names; sections := None; date_range := None |}.

(** The chunks pushed by one successful ingestion. *)
Definition embedAll (name : string) (now : Z) (chunks : list TextChunk)
    (embeddings : list (list float)) : list EmbeddedChunk :=
  map (fun p => embed name now (fst p) (snd p)) (combine chunks embeddings).

(** A chunker that cuts every text into two chunks, named as
    [generateChunkId] names them. *)
Definition twoChunks (text : string) (c : ChunkingConfig) (name : string)
  : result (list TextChunk) :=
  Ok [ {| tc_id := String.append name "_chunk_0000"; tc_text := text;
          startPosition := 0; tc_length := 1; tc_section := None |};
       {| tc_id := String.append name "_chunk_0001"; tc_text := text;
          startPosition := 1; tc_length := 1; tc_section := None |} ].

(** Surroundings with that chunker and embedder, and texts left as they are. *)
Definition plainEnv : Env :=
  {| textUtils := {| cleanText := fun t => t; stripMarkdown := fun t => t;
                     chunkText := twoChunks; extractKeyTerms := fun _ _ => [] |};
     llmService := {| generateEmbeddings := fun texts => Ok (map (fun _ => [1; 0]%float) texts) |};
     now := 0;
     extractTitle := fun _ => None |}.

(** The configuration of [AgentService]: minimum score 0.3. *)
Definition plainConfig : RAGServiceConfig :=
  {| dataDirectory := "./data";
     chunkingConfig := {| max_chunk_size := 500; chunk_overlap := 50; strategy := fixed_size |};
     minSimilarityScore := 0x1.3333333333333p-2%float;
     defaultTopK := 5;
     cacheEmbeddings := true |}.

(** The data directory of that configuration, with no file in it. *)
Definition emptyDirectory : Cache :=
  {| existsSync := fun path => String.eqb path "./data";
     readFileSync := fun _ => Throw "ENOENT: no such file or directory";
     parseChunks := fun _ => Throw "Unexpected end of JSON input";
     parseDocuments := fun _ => Throw "Unexpected end of JSON input" |}.

(** The file [faq] ingested, and ingested again with another text. *)
Definition ingestedOnce : RAGService :=
  fst (processDocument plainEnv "faq" "first text" [] (create emptyDirectory plainConfig)).

Definition ingestedTwice : RAGService :=
  fst (processDocument plainEnv "faq" "second text" [] ingestedOnce).

(** A chunk of file [name] with the vector [(1, t)]. *)
Definition stored (name : string) (n : Z) (t : float) : EmbeddedChunk :=
  {| id := String.append name (pretty n); text := name;
     embedding := {| values := [1; t]%float; dimensions := 2 |};
     source := {| filename := name; start_position := n; source_length := 1;
                  section := None |};
     created_at := 0 |}.






(** A store of fifteen chunks.  Against the query vector [(1, 0)] the
    five closest are four chunks of [a.md] and one of [b.md]; the other ten
    chunks, all of [b.md], are further away but above the minimum score. *)
Definition store : list EmbeddedChunk :=
  [ stored "b.md" 10 1; stored "b.md" 11 1.125; stored "a.md" 0 0; stored "b.md" 12 1.25;
    stored "a.md" 1 0.125; stored "b.md" 13 1.375; stored "b.md" 2 0.25;
    stored "b.md" 14 1.5; stored "a.md" 3 0.375; stored "b.md" 15 1.625;
    stored "a.md" 4 0.5; stored "b.md" 16 1.75; stored "b.md" 17 1.875;
    stored "b.md" 18 2; stored "b.md" 19 2.125 ]%float.

(** The initialized service holding that store. *)
Definition loaded : RAGService :=
  withInitialized true (withChunks store (create emptyDirectory plainConfig)).

(** A query for the five best chunks, filtered to the file [b.md]. *)
Definition filteredQuery : RAGContext :=
  {| query := "what is in b?"; session_id := "s1";
     search_params := {| top_k := 5; min_similarity_score := None;
                         filters := Some (onlyFilenames ["b.md"%string]) |} |}.

(** What that query returns. *)
Definition answer : RAGResult :=
  match snd (retrieveContent plainEnv filteredQuery loaded) with
  | Ok r => r
  | Throw _ => {| retrieved_chunks := []; documents_searched := 0; chunks_searched := 0 |}
  end.

End IndexSpec.

(** ** Session memory *)

Module MemorySpec.
Import JS Memory.

(** Every session object is stored under its own [session_id]. *)
Definition consistent (m : MemoryService) : Prop :=
  forall key session, sessions m !! key = Some session -> session_id session = key.

(** The live messages of a session, none for an absent session. *)
Definition live (sessionId : string) (m : MemoryService) : list ConversationMessage :=
  match sessions m !! sessionId with
  | Some session => messages session
  | None => []
  end.

(** The log entries written between two states of the service. *)
Definition written (before after : MemoryService) : list LogEntry :=
  skipn (length (log before)) (log after).

(** The compaction events of a session among log entries. *)
Definition compactions (sessionId : string) (entries : list LogEntry) : nat :=
  length (List.filter (fun e => String.eqb (message e) (message (trimmed sessionId))) entries).

(** [n] user messages added to session ["s"], one per millisecond. *)
Fixpoint chat (n : nat) (m : MemoryService) : MemoryService :=
  match n with
  | O => m
  | S n' =>
      let m := chat n' m in
      fst (addMessage (String.append "msg_" (pretty n)) (Z.of_nat n) "s" user
             (String.append "question number " (pretty n)) [] m)
  end.

(** A limit of 3 with a threshold of 2. *)
Definition smallConfig : MemoryServiceConfig :=
  {| maxMessagesPerSession := 3; summaryThreshold := 2;
     sessionTTL := 1000; persistSessions := false |}.

(** A limit of 2 with a threshold of 5. *)
Definition wideConfig : MemoryServiceConfig :=
  {| maxMessagesPerSession := 2; summaryThreshold := 5;
     sessionTTL := 1000; persistSessions := false |}.

End MemorySpec.

(** ** Plugin dispatcher *)

Module DispatchSpec.
Import JS Plugins.

(** The activation predicate returns true. *)
Definition activates (input : string) (context : PluginContext) (p : BasePlugin) : bool :=
  match shouldActivate p input context with
  | Ok b => b
  | Throw _ => false
  end.

(** The enabled plugins whose activation predicate returns true, in
    registration order. *)
Definition activated (input : string) (context : PluginContext) (s : PluginService)
  : list BasePlugin :=
  List.filter (fun p => enabled p && activates input context p) (map snd (plugins s)).






(** A plugin that always activates and whose [execute] behaves as [e]. *)
Definition plugin (name : string) (priority : float) (enabled : bool) (e : Execution)
  : BasePlugin :=
  {| name := name; version := "1.0.0"; priority := priority; enabled := enabled;
     shouldActivate := fun _ _ => Ok true;
     execute := fun _ _ => e |}.

(** A successful result carrying [text]. *)
Definition carrying (text : string) : PluginResult :=
  {| success := true; data := Some text; result_message := None; error := None;
     execution_time_ms := 1; plugin_version := "1.0.0" |}.

Definition succeeds (text : string) : result PluginResult := Ok (carrying text).

(** The constructor's two plugins, weather (priority 2) then math
    (priority 3), then a third of priority 2 and a disabled one; at most
    two plugins run per request.  The math plugin computes synchronously,
    the others wait for an answer. *)
Definition service : PluginService :=
  registerPlugin (plugin "off" 9 false (Returns 0 Pending))
    (registerPlugin (plugin "echo" 2 true (Returns 0 (Settles 10 (succeeds "echo"))))
       (registerPlugin (plugin "math" 3 true (Returns 5 (Settles 0 (succeeds "200"))))
          (registerPlugin (plugin "weather" 2 true (Returns 0 (Settles 20 (succeeds "sunny"))))
             {| plugins := [];
                config := {| config_enabled := true; max_plugins_per_request := 2;
                             plugin_timeout_ms := 30000; execution_mode := sequential |};
                log := [] |}))).

(** A plugin that answers after a minute and one that throws at once,
    under the timeout of 30 seconds. *)
Definition slow : BasePlugin :=
  plugin "slow" 1 true (Returns 0 (Settles 60000 (succeeds "late"))).
Definition broken : BasePlugin :=
  plugin "broken" 1 true (Returns 0 (Settles 0 (Throw "boom"))).

(** A plugin that computes for a minute before it returns its promise,
    already fulfilled. *)
Definition heavy : BasePlugin :=
  plugin "heavy" 1 true (Returns 60000 (Settles 0 (succeeds "done"))).


Definition inMode (mode : ExecutionMode) (s : PluginService) : PluginService :=
  {| plugins := plugins s;
     config := {| config_enabled := config_enabled (config s);
                  max_plugins_per_request := max_plugins_per_request (config s);
                  plugin_timeout_ms := plugin_timeout_ms (config s);
                  execution_mode := mode |};
     log := log s |}.

End DispatchSpec.

(** ** Session housekeeping *)

Module HistorySpec.
Import JS Memory Sessions MemorySpec.

(** The last [n] elements of a list, all of them when there are fewer. *)
Definition lastN {A} (n : nat) (l : list A) : list A := skipn (length l - n) l.

(** The summary filed for a session, if any. *)
Definition summaryOf (sessionId : string) (m : MemoryService) : option ConversationSummary :=
  sessionSummaries m !! sessionId.

(** A request to the service. *)
Inductive Request :=
| Add (messageId : string) (now : Z) (sessionId : string) (role : Role) (content : string)
| Clear (sessionId : string)
| ClearAll
| Sweep (now : Z).

Definition serve (m : MemoryService) (r : Request) : MemoryService :=
  match r with
  | Add messageId now sessionId role content =>
      fst (addMessage messageId now sessionId role content [] m)
  | Clear sessionId => fst (clearSession sessionId m)
  | ClearAll => fst (clearAllSessions m)
  | Sweep now => cleanupExpiredSessions now m
  end.

(** The service after a sequence of requests, oldest first. *)
Definition served (requests : list Request) (m : MemoryService) : MemoryService :=
  fold_left serve requests m.

(** No session holds more than [limit] messages. *)
Definition bounded (limit : Z) (m : MemoryService) : Prop :=
  forall sessionId, Z.of_nat (length (live sessionId m)) <= limit.

(** A session is expired, or active, at a cutoff time. *)
Definition expiredAt (cutoff : Z) (session : ConversationSession) : bool :=
  updated_at session <? cutoff.

Definition activeAt (cutoff : Z) (session : ConversationSession) : bool :=
  cutoff <? updated_at session.

(** The threshold [fromConfig] computes for a history length, checked
    against seven tenths of the length. *)
Definition sevenTenths (n : nat) : bool :=
  let threshold := summaryThreshold (config (fromConfig (Z.of_nat n))) in
  (7 * Z.of_nat n / 10 - 1 <=? threshold) && (threshold <=? 7 * Z.of_nat n / 10) &&
  ((n <? 2)%nat || (0 <? threshold)).

(** A session of four messages, as it could have been exported. *)
Definition archived : ConversationSession :=
  {| session_id := "s"; created_at := 1; updated_at := 9;
     messages := map (fun n => {| id := pretty n; role := user; content := "archived";
                                  timestamp := n; metadata := [] |}) [1; 2; 3; 4] |}.

(** Two sessions of one service: ["s"] with three questions, ["t"] with one. *)
Definition twoSessions : MemoryService :=
  fst (addMessage "msg_t" 10 "t" user "another topic" [] (chat 3 (create smallConfig))).

End HistorySpec.

(** ** Plugin registry *)

Module RegistrySpec.
Import JS Plugins Registry DispatchSpec.

(** Every plugin is stored under its own name, and no name twice. *)
Definition keyedByName (s : PluginService) : Prop :=
  NoDup (map fst (plugins s)) /\
  Forall (fun entry => fst entry = name (snd entry)) (plugins s).

(** The ids of the plugins a call of [processInput] executed. *)
Definition executedIds (input : string) (context : PluginContext) (s : PluginService)
  : list string :=
  map plugin_id (plugins_executed (snd (processInput input context s))).

End RegistrySpec.

(** ** Chunking *)

Module TextSpec.
Import JS RAG Text.

(** The chunking configuration of [AgentService]. *)
Definition agentChunking : ChunkingConfig :=
  {| max_chunk_size := 500; chunk_overlap := 50; strategy := fixed_size |}.

(** Chunks of ten characters without overlap. *)
Definition tens : ChunkingConfig :=
  {| max_chunk_size := 10; chunk_overlap := 0; strategy := fixed_size |}.

(** A text of 60 characters. *)
Definition sixty : string :=
  "The quick brown fox jumps over the lazy dog and runs far off".

(** What is required of a chunk of [text] under a size limit. *)
Definition wellFormed (text : string) (limit : Z) (c : TextChunk) : Prop :=
  0 <= startPosition c < JSString.length text /\
  0 < tc_length c <= limit /\
  0 < JSString.length (tc_text c) /\
  tc_section c = None.

(** The character at an index of a text, if the index is within it. *)
Definition charAt (text : string) (i : Z) : option ascii :=
  if i <? 0 then None else nth_error (JSString.chars text) (Z.to_nat i).

(** The index lies in the stretch of the text a chunk stands for. *)
Definition covers (c : TextChunk) (i : Z) : Prop :=
  startPosition c <= i < startPosition c + tc_length c.

(** The piece of the text a chunk was cut from. *)
Definition piece (text : string) (c : TextChunk) : string :=
  JSString.slice (startPosition c) (Some (startPosition c + tc_length c)) text.

(** What the loop keeps true of its state. *)
Definition fixedInvariant (text : string) (config : ChunkingConfig) (sourceFilename : string)
    (st : FixedState) : Prop :=
  0 <= position st /\
  chunkIndex st = List.length (chunks st) /\
  Forall (wellFormed text (max_chunk_size config)) (chunks st) /\
  Forall (fun c => startPosition c < position st) (chunks st) /\
  StronglySorted (fun a b => startPosition a < startPosition b) (chunks st) /\
  map tc_id (chunks st) = map (generateChunkId sourceFilename) (seq 0 (List.length (chunks st))).

(** What the loop keeps true of the characters before its position. *)
Definition coverInvariant (text : string) (st : FixedState) : Prop :=
  position st <= JSString.length text /\
  (forall i ch, i < position st -> charAt text i = Some ch ->
                JSString.isWhiteSpace ch = false -> Exists (fun c => covers c i) (chunks st)) /\
  Forall (fun c => tc_text c = JSString.trim (piece text c)) (chunks st).

End TextSpec.

(** ** Language model client *)

Module LLMSpec.
Import JS LLM.

(** The vectors of the responses that carry one, in the order of the texts. *)
Definition answered (embedContent : string -> result (option (list float)))
    (texts : list string) : list (list float) :=
  flat_map (fun text => match embedContent text with
                        | Ok (Some v) => [v]
                        | _ => []
                        end) texts.

(** The response to the request for [text] carries a vector. *)
Definition carriesVector (embedContent : string -> result (option (list float)))
    (text : string) : Prop :=
  exists v, embedContent text = Ok (Some v).

(** An HTTP error of the provider with a status. *)
Definition httpError (s : Z) : CallError :=
  {| isAxiosError := true; status := Some s; code := None;
     error_message := String.append "Request failed with status code " (pretty s) |}.

(** A provider that is unavailable for the first [n] calls of a request. *)
Definition unavailableFor (n : nat) (response : LLMResponse) (attempt : nat)
  : LLMResponse + CallError :=
  if (attempt <? n)%nat then inr (httpError 503) else inl response.

Definition hello : LLMResponse :=
  {| response_content := "Hello"; response_model := "llama3-8b-8192";
     usage := {| prompt_tokens := 1; completion_tokens := 1; total_tokens := 2 |};
     provider := groq |}.

Definition groqService : LLMService :=
  create {| config_provider := groq; apiKey := "key"; config_model := "llama3-8b-8192";
            timeout := None; maxRetries := None |}.

(** A request for a deterministic answer. *)
Definition greedy : LLMRequest :=
  {| messages := [ {| role := Memory.user; content := "2 + 2?" |} ];
     model := None; temperature := Some 0%float; max_tokens := None; top_p := None |}.

(** The embedding client of the retrieval index, over an embedding endpoint. *)
Definition embedder (embedContent : string -> result (option (list float))) : RAG.LLMService :=
  {| RAG.generateEmbeddings := fun texts => fst (generateEmbeddings embedContent texts) |}.

(** An endpoint that answers without a vector for the text ["two"]. *)
Definition patchy (text : string) : result (option (list float)) :=
  if String.eqb text "two" then Ok None
  else Ok (Some [Memory.toNumber (Z.of_nat (String.length text)); 1%float]).

(** A chunker that cuts every text into the chunks ["one"], ["two"], ["three"]. *)
Definition threeChunks (text : string) (c : RAG.ChunkingConfig) (name : string)
  : result (list RAG.TextChunk) :=
  Ok (map (fun p => {| RAG.tc_id := String.append name (fst p); RAG.tc_text := snd p;
                       RAG.startPosition := 0; RAG.tc_length := 1; RAG.tc_section := None |})
        [("_chunk_0000", "one"); ("_chunk_0001", "two"); ("_chunk_0002", "three")]%string).

Definition patchyEnv : RAG.Env :=
  {| RAG.textUtils := {| RAG.cleanText := fun t => t; RAG.stripMarkdown := fun t => t;
                         RAG.chunkText := threeChunks; RAG.extractKeyTerms := fun _ _ => [] |};
     RAG.llmService := embedder patchy;
     RAG.now := 0;
     RAG.extractTitle := fun _ => None |}.

End LLMSpec.

(** ** Knowledge base *)

Module KnowledgeSpec.
Import JS VectorUtils RAG IndexSpec.

(** Filters that restrict nothing: every filter undefined or an empty list. *)
Definition unrestricted (f : Filters) : Prop :=
  (filenames f = None \/ filenames f = Some []) /\
  (sections f = None \/ sections f = Some []) /\
  date_range f = None.

(** A filter on a date range alone. *)
Definition onlyDates (from to : Z) : Filters :=
  {| filenames := None; sections := None;
     date_range := Some {| range_start := Some from; range_end := Some to |} |}.

(** A filter on sections alone. *)
Definition onlySections (names : list string) : Filters :=
  {| filenames := None; sections := Some names; date_range := None |}.

(** What a service knows: its chunks and its documents. *)
Definition knowledge (s : RAGService) : list EmbeddedChunk * gmap string KnowledgeDocument :=
  (embeddedChunks s, documentsIndex s).

(** The document cannot be chunked or embedded. *)
Definition unprocessable (env : Env) (s : RAGService) (doc : Document) (m : string) : Prop :=
  let stripped := stripMarkdown (textUtils env) (cleanText (textUtils env) (in_content doc)) in
  chunkText (textUtils env) stripped (chunkingConfig (config s)) (in_filename doc) = Throw m \/
  exists chunks,
    chunkText (textUtils env) stripped (chunkingConfig (config s)) (in_filename doc) = Ok chunks /\
    generateEmbeddings (llmService env) (map tc_text chunks) = Throw m.

(** A chunker that fails on the text ["bad"]. *)
Definition picky (text : string) (c : ChunkingConfig) (name : string)
  : result (list TextChunk) :=
  if String.eqb text "bad" then Throw "Unsupported chunking strategy: none"
  else twoChunks text c name.

Definition pickyEnv : Env :=
  {| textUtils := {| cleanText := fun t => t; stripMarkdown := fun t => t;
                     chunkText := picky; extractKeyTerms := fun _ _ => [] |};
     llmService := llmService plainEnv;
     now := 0;
     extractTitle := fun _ => None |}.

(** A service created without a cache directory content. *)
Definition emptyCache : Cache :=
  {| existsSync := fun _ => false;
     readFileSync := fun _ => Throw "ENOENT";
     parseChunks := fun _ => Throw "Unexpected end of JSON input";
     parseDocuments := fun _ => Throw "Unexpected end of JSON input" |}.

(** One turn of the loop of [processDocuments]. *)
Definition processOne (env : Env) (doc : Document) (s : RAGService) : RAGService :=
  match processDocument env (in_filename doc) (in_content doc) (in_metadata doc) s with
  | (s', Ok _) => s'
  | (s', Throw m) =>
      logged (error (String.append "Failed to process document: " (in_filename doc)) m) s'
  end.

End KnowledgeSpec.

(** ** Agent *)

Module AgentSpec.
Import JS Agent.

(** The messages of a session the agent has in memory. *)
Definition remembered (sessionId : string) (a : AgentService) : list Memory.ConversationMessage :=
  MemorySpec.live sessionId (memoryService a).

(** The user message a request stores. *)
Definition question (env : Env) (request : AgentMessageRequest) (pluginsUsed : list string)
  : Memory.ConversationMessage :=
  {| Memory.id := userMessageId env; Memory.role := Memory.user;
     Memory.content := message request; Memory.timestamp := userMessageTime env;
     Memory.metadata := [listed "plugins_used" pluginsUsed] |}.

(** What the retrieval index answers to a request. *)
Definition retrieved (env : Env) (request : AgentMessageRequest) (a : AgentService)
  : result RAG.RAGResult :=
  snd (RAG.retrieveContent (ragEnv env) (ragContext request) (ragService a)).

(** The ids of the plugins that run for a request. *)
Definition pluginsFor (request : AgentMessageRequest) (a : AgentService) : list string :=
  map Plugins.plugin_id
    (Plugins.plugins_executed
       (snd (Plugins.processInput (message request)
               {| Plugins.session_id := session_id request |} (pluginService a)))).

(** The error of reading [filename] of a [source] that is [undefined]. *)
Definition noSource : string := "Cannot read properties of undefined (reading 'filename')".

(** An agent over the store of fifteen chunks, with an empty memory. *)
Definition agent : AgentService :=
  {| ragService := IndexSpec.loaded;
     memoryService := Memory.createDefault;
     pluginService := DispatchSpec.service;
     llm_temperature := 0x1.6666666666666p-1;
     llm_max_tokens := 1000 |}.

(** The same agent with an empty knowledge base. *)
Definition blankAgent : AgentService :=
  {| ragService := RAG.withInitialized true (RAG.create IndexSpec.emptyDirectory IndexSpec.plainConfig);
     memoryService := Memory.createDefault;
     pluginService := DispatchSpec.service;
     llm_temperature := 0x1.6666666666666p-1;
     llm_max_tokens := 1000 |}.

Definition agentEnv : Env :=
  {| ragEnv := IndexSpec.plainEnv;
     generateCompletion := fun _ => Ok LLMSpec.hello;
     userMessageId := "msg_1"; userMessageTime := 1;
     assistantMessageId := "msg_2"; assistantMessageTime := 2 |}.

Definition ask : AgentMessageRequest :=
  {| message := "what is in b?"; session_id := "s1" |}.

End AgentSpec.

(** ** Distances *)

Module DistanceSpec.
Import JS VectorUtils Distances.

(** [Number.isFinite]: neither NaN nor an infinity. *)
Definition isFinite (x : float) : bool :=
  match Prim2SF x with
  | S754_zero _ | S754_finite _ _ _ => true
  | S754_infinity _ | S754_nan => false
  end.

(** The score reported for one vector: its cosine similarity with the
    query, or 0 when that cannot be computed. *)
Definition scoreOf (queryVector vector : list float) : float :=
  match cosineSimilarity queryVector vector with
  | Ok similarity => similarity
  | Throw _ => 0%float
  end.

(** The vectors whose dimension differs from the query's. *)
Definition mismatched (queryVector : list float) (vectors : list (list float))
  : list (list float) :=
  List.filter (fun vector => negb (length vector =? length queryVector)%nat) vectors.

Definition point : list float := [1.5%float; (-2)%float; 0.25%float].

Definition candidates : list (list float) :=
  [[1%float; 0%float]; [1%float; 2%float; 3%float]; []; [0%float; 1%float]].

End DistanceSpec.

(** ** Plugin validation *)

Module ValidationSpec.
Import JS Plugins Registry PluginBase.

(** A plugin object of a class derived from [AbstractBasePlugin]: what the
    dispatcher sees of it, its trigger words and how its
    [customValidation()] settles. *)
Record Derived := {
  triggers : BasePlugin -> list string;
  customValidation : BasePlugin -> result PluginValidationResult
}.

(** The [validate] method such plugins inherit. *)
Definition inherited (d : Derived) (p : BasePlugin) : result PluginValidationResult :=
  validate (name p) (version p) (triggers d p) (customValidation d p).

(** [validate()] returned and reported nothing under [errors],
    [missing_dependencies] or [config_issues]. *)
Definition clean (validate : BasePlugin -> result PluginValidationResult) (p : BasePlugin)
  : bool :=
  match validate p with
  | Ok validation => negb (hasErrors validation)
  | Throw _ => false
  end.

(** The registered ids whose plugin satisfies [f], in registration order. *)
Definition idsWhere (f : BasePlugin -> bool) (s : PluginService) : list string :=
  map fst (List.filter (fun entry => f (snd entry)) (plugins s)).

End ValidationSpec.

(* ===================================================================== *)
(** * Part III: facts about the runtime                                   *)
(* ===================================================================== *)

(** ** Binary64 arithmetic

    The comparators [(a, b) => b.x - a.x] decide by the sign of a rounded
    difference.  For numbers other than NaN that sign is the sign of the
    exact difference, and the order is a total preorder. *)

Module FloatOrder.
Import Binary64.

(** *** Digits and shifts *)
Lemma digits2_pos_size p : digits2_pos p = Pos.size p.
Proof. induction p; simpl; congruence. Qed.

Lemma digits_lower p : 2 ^ (Zpos (digits2_pos p) - 1) <= Zpos p.
Proof.
  rewrite digits2_pos_size.
  pose proof (Pos.size_le p) as H.
  assert (Hs : Zpos (2 ^ Pos.size p) = 2 ^ Zpos (Pos.size p)) by (rewrite Pos2Z.inj_pow; reflexivity).
  assert (H2 : 2 ^ Zpos (Pos.size p) <= 2 * Zpos p).
  { rewrite <- Hs. change (2 * Zpos p) with (Zpos (p~0)). apply Pos2Z.pos_le_pos. exact H. }
  replace (Zpos (Pos.size p)) with (Z.succ (Zpos (Pos.size p) - 1)) in H2 by lia.
  rewrite Z.pow_succ_r in H2 by lia. lia.
Qed.

Lemma digits_upper p : Zpos p < 2 ^ Zpos (digits2_pos p).
Proof.
  rewrite digits2_pos_size.
  pose proof (Pos.size_gt p) as H.
  rewrite <- Pos2Z.inj_pow. apply Pos2Z.pos_lt_pos. exact H.
Qed.

Lemma pow2_xI p : 2 ^ Zpos p~1 = 2 * (2 ^ Zpos p * 2 ^ Zpos p).
Proof.
  rewrite Pos2Z.inj_xI.
  replace (2 * Zpos p + 1) with (1 + Zpos p + Zpos p) by lia.
  rewrite !Z.pow_add_r by lia. lia.
Qed.

Lemma pow2_xO p : 2 ^ Zpos p~0 = 2 ^ Zpos p * 2 ^ Zpos p.
Proof.
  replace (Zpos p~0) with (Zpos p + Zpos p) by lia.
  rewrite Z.pow_add_r by lia. reflexivity.
Qed.

Lemma shr_1_m mrs : 0 <= shr_m mrs -> shr_m (shr_1 mrs) = Z.div2 (shr_m mrs).
Proof.
  destruct mrs as [m r s]; simpl. intros Hm.
  destruct m as [|p|p]; [reflexivity| |lia].
  destruct p; reflexivity.
Qed.

Lemma iter_shr_1_m p : forall mrs, 0 <= shr_m mrs ->
  shr_m (SpecFloat.iter_pos shr_1 p mrs) = shr_m mrs / 2 ^ Zpos p.
Proof.
  induction p as [p IH|p IH|]; intros mrs Hm; simpl SpecFloat.iter_pos.
  - assert (H1 : 0 <= shr_m (shr_1 mrs)).
    { rewrite shr_1_m by assumption. rewrite Z.div2_div. apply Z.div_pos; lia. }
    assert (H2 : 0 <= shr_m (SpecFloat.iter_pos shr_1 p (shr_1 mrs))).
    { rewrite IH by assumption. apply Z.div_pos; [assumption|]. apply Z.pow_pos_nonneg; lia. }
    rewrite IH by assumption. rewrite IH by assumption.
    rewrite shr_1_m by assumption. rewrite Z.div2_div.
    rewrite !Z.div_div by (try apply Z.pow_pos_nonneg; lia).
    f_equal.
    rewrite pow2_xI. lia.
  - assert (H2 : 0 <= shr_m (SpecFloat.iter_pos shr_1 p mrs)).
    { rewrite IH by assumption. apply Z.div_pos; [assumption|]. apply Z.pow_pos_nonneg; lia. }
    rewrite IH by assumption. rewrite IH by assumption.
    rewrite !Z.div_div by (try apply Z.pow_pos_nonneg; lia).
    f_equal.
    rewrite pow2_xO. lia.
  - rewrite shr_1_m by assumption. rewrite Z.div2_div. reflexivity.
Qed.

Section Rounding.
Variables prec emax : Z.
Hypothesis Hprec : 0 < prec.

Let emin := SpecFloat.emin prec emax.
Let fexp := SpecFloat.fexp prec emax.

Lemma shr_record_of_loc_m m l : shr_m (shr_record_of_loc m l) = m.
Proof. destruct l as [|[]]; reflexivity. Qed.

Lemma shr_fexp_pos m e l :
  0 < m -> emin <= e ->
  0 < shr_m (fst (shr_fexp prec emax m e l)) /\ emin <= snd (shr_fexp prec emax m e l).
Proof.
  intros Hm He. unfold shr_fexp, shr.
  destruct m as [|q|q]; try lia.
  remember (SpecFloat.fexp prec emax (Zdigits2 (Zpos q) + e) - e) as n eqn:En.
  destruct n as [|p|p]; simpl fst; simpl snd.
  - rewrite shr_record_of_loc_m. lia.
  - rewrite iter_shr_1_m by (rewrite shr_record_of_loc_m; lia).
    rewrite shr_record_of_loc_m. split; [|lia].
    unfold SpecFloat.fexp in En. simpl Zdigits2 in En.
    fold (SpecFloat.emin prec emax) in En. fold emin in En.
    assert (Hp : Zpos p = Zpos (digits2_pos q) - prec) by lia.
    apply Z.div_str_pos. split; [apply Z.pow_pos_nonneg; lia|].
    pose proof (digits_lower q) as Hl.
    assert (2 ^ Zpos p <= 2 ^ (Zpos (digits2_pos q) - 1)) by (apply Z.pow_le_mono_r; lia).
    lia.
  - rewrite shr_record_of_loc_m. lia.
Qed.

Lemma round_nearest_even_pos m l : 0 < m -> 0 < round_nearest_even m l.
Proof.
  intros Hm. unfold round_nearest_even.
  destruct l as [|[]]; try lia. destruct (Z.even m); lia.
Qed.

Lemma binary_round_aux_sign s m e l :
  0 < m -> emin <= e -> signed_nonzero s (binary_round_aux prec emax s m e l).
Proof.
  intros Hm He. unfold binary_round_aux.
  pose proof (shr_fexp_pos m e l Hm He) as [H1 H1'].
  destruct (shr_fexp prec emax m e l) as [mrs' e']. simpl in H1, H1'.
  pose proof (round_nearest_even_pos (shr_m mrs') (loc_of_shr_record mrs') H1) as H2.
  pose proof (shr_fexp_pos _ e' loc_Exact H2 H1') as [H3 _].
  destruct (shr_fexp prec emax (round_nearest_even (shr_m mrs') (loc_of_shr_record mrs')) e' loc_Exact)
    as [mrs'' e'']. simpl in H3.
  destruct (shr_m mrs'') as [|q|q]; try lia.
  destruct (e'' <=? emax - prec); reflexivity.
Qed.

Lemma binary_round_sign s m e :
  emin <= e -> signed_nonzero s (binary_round prec emax s m e).
Proof.
  intros He. unfold binary_round, shl_align.
  destruct (SpecFloat.fexp prec emax (Zpos (digits2_pos m) + e) - e) as [|d|d] eqn:Ed.
  - apply binary_round_aux_sign; [lia|assumption].
  - apply binary_round_aux_sign; [lia|assumption].
  - apply binary_round_aux_sign; [lia|].
    unfold SpecFloat.fexp. fold (SpecFloat.emin prec emax). fold emin. lia.
Qed.

Lemma pos_iter_xO m d : Zpos (Pos.iter xO m d) = Zpos m * 2 ^ Zpos d.
Proof.
  induction d as [|d IH] using Pos.peano_ind.
  - simpl. lia.
  - rewrite Pos.iter_succ, Pos2Z.inj_xO, IH, Pos2Z.inj_succ, Z.pow_succ_r by lia. lia.
Qed.

Lemma shl_align_m m e ez :
  ez <= e -> Zpos (fst (shl_align m e ez)) = Zpos m * 2 ^ (e - ez).
Proof.
  intros Hle. unfold shl_align.
  destruct (ez - e) as [|d|d] eqn:Ed; simpl fst.
  - replace (e - ez) with 0 by lia. simpl. lia.
  - lia.
  - rewrite pos_iter_xO. f_equal. f_equal. lia.
Qed.

Lemma canonical_facts m e :
  bounded prec emax m e = true ->
  emin <= e /\ Zpos (digits2_pos m) <= prec /\ (emin < e -> Zpos (digits2_pos m) = prec).
Proof.
  unfold bounded, canonical_mantissa. intros H.
  apply andb_prop in H. destruct H as [H _]. apply Z.eqb_eq in H.
  unfold SpecFloat.fexp in H. fold (SpecFloat.emin prec emax) in H. fold emin in H. lia.
Qed.

Lemma aligned_lt mx ex my ey :
  bounded prec emax mx ex = true -> bounded prec emax my ey = true ->
  ex < ey -> Zpos mx < Zpos my * 2 ^ (ey - ex).
Proof.
  intros Hx Hy Hlt.
  destruct (canonical_facts _ _ Hx) as (Hx1 & Hx2 & _).
  destruct (canonical_facts _ _ Hy) as (_ & _ & Hy3).
  pose proof (digits_upper mx) as Hu. pose proof (digits_lower my) as Hl.
  rewrite Hy3 in Hl by lia.
  assert (H1 : 2 ^ Zpos (digits2_pos mx) <= 2 ^ prec) by (apply Z.pow_le_mono_r; lia).
  assert (H2 : 2 ^ 1 <= 2 ^ (ey - ex)) by (apply Z.pow_le_mono_r; lia).
  assert (H3 : 2 ^ prec = 2 ^ (prec - 1) * 2 ^ 1).
  { rewrite <- Z.pow_add_r by lia. f_equal. lia. }
  assert (H4 : 0 < 2 ^ (prec - 1)) by (apply Z.pow_pos_nonneg; lia).
  nia.
Qed.

Lemma aligned_compare mx ex my ey :
  bounded prec emax mx ex = true -> bounded prec emax my ey = true ->
  (Zpos (fst (shl_align mx ex (Z.min ex ey))) ?= Zpos (fst (shl_align my ey (Z.min ex ey)))) =
  match ex ?= ey with
  | Lt => Lt
  | Gt => Gt
  | Eq => Pos.compare_cont Eq mx my
  end.
Proof.
  intros Hx Hy.
  rewrite !shl_align_m by lia.
  destruct (Z.compare_spec ex ey) as [E|L|G].
  - subst ey. rewrite Z.min_id, Z.sub_diag, Z.pow_0_r, !Z.mul_1_r. reflexivity.
  - rewrite Z.min_l by lia. rewrite Z.sub_diag, Z.pow_0_r, Z.mul_1_r.
    apply Z.compare_lt_iff. apply aligned_lt; assumption.
  - rewrite Z.min_r by lia. rewrite Z.sub_diag, Z.pow_0_r, Z.mul_1_r.
    apply Z.compare_gt_iff. apply aligned_lt; assumption || lia.
Qed.

Lemma SFcompare_finite sx mx ex sy my ey :
  bounded prec emax mx ex = true -> bounded prec emax my ey = true ->
  SFcompare (S754_finite sx mx ex) (S754_finite sy my ey) =
  Some (cond_Zopp sx (Zpos (fst (shl_align mx ex (Z.min ex ey)))) ?=
        cond_Zopp sy (Zpos (fst (shl_align my ey (Z.min ex ey))))).
Proof.
  intros Hx Hy. pose proof (aligned_compare mx ex my ey Hx Hy) as Hc.
  unfold SFcompare. f_equal.
  set (ax := Zpos (fst (shl_align mx ex (Z.min ex ey)))) in *.
  set (ay := Zpos (fst (shl_align my ey (Z.min ex ey)))) in *.
  destruct sx, sy; unfold cond_Zopp.
  - rewrite Z.compare_opp, (Z.compare_antisym ax ay), Hc.
    destruct (ex ?= ey); reflexivity.
  - reflexivity.
  - reflexivity.
  - rewrite Hc. reflexivity.
Qed.

Lemma binary_normalize_sign d e szero :
  emin <= e ->
  SFltb (S754_zero false) (binary_normalize prec emax d e szero) = (0 <? d).
Proof.
  intros He. unfold binary_normalize.
  destruct d as [|p|p].
  - reflexivity.
  - pose proof (binary_round_sign false p e He) as H.
    destruct (binary_round prec emax false p e) as [s|s| |s m' e']; simpl in H; try contradiction;
      subst s; reflexivity.
  - pose proof (binary_round_sign true p e He) as H.
    destruct (binary_round prec emax true p e) as [s|s| |s m' e']; simpl in H; try contradiction;
      subst s; reflexivity.
Qed.

(** The sign of a rounded difference is the sign of the exact difference:
    [0 < y - x] holds exactly when [x < y]. *)
Lemma SFsub_pos_ltb X Y :
  SpecFloat.valid_binary prec emax X = true -> SpecFloat.valid_binary prec emax Y = true ->
  X <> S754_nan -> Y <> S754_nan ->
  SFltb (S754_zero false) (SFsub prec emax Y X) = SFltb X Y.
Proof.
  intros VX VY NX NY.
  destruct X as [sx|sx| |sx mx ex]; try congruence;
  destruct Y as [sy|sy| |sy my ey]; try congruence;
  try (destruct sx; destruct sy; reflexivity).
  simpl in VX, VY.
  unfold SFltb at 2. rewrite SFcompare_finite by assumption.
  unfold SFsub.
  destruct (canonical_facts _ _ VX) as (Hx & _).
  destruct (canonical_facts _ _ VY) as (Hy & _).
  rewrite binary_normalize_sign by lia.
  rewrite (Z.min_comm ey ex).
  set (vx := cond_Zopp sx _). set (vy := cond_Zopp sy _).
  destruct (Z.compare_spec vx vy); destruct (Z.ltb_spec 0 (vy - vx)); try reflexivity; lia.
Qed.

End Rounding.

Lemma SFcompare_lexcmp X Y :
  X <> S754_nan -> Y <> S754_nan ->
  SFcompare X Y = Some (lexcmp (fkey X) (fkey Y)).
Proof.
  intros NX NY.
  destruct X as [sx|sx| |sx mx ex]; try congruence;
  destruct Y as [sy|sy| |sy my ey]; try congruence;
  try (destruct sx; destruct sy; reflexivity).
  destruct sx, sy; simpl; try reflexivity.
  rewrite !Z.compare_opp, (Z.compare_antisym ex ey).
  change (Z.pos mx ?= Z.pos my) with (Pos.compare mx my).
  unfold Pos.compare.
  destruct (ex ?= ey); simpl; try reflexivity.
Qed.

Lemma ltb_lexcmp x y : notnan x -> notnan y ->
  (x <? y)%float = match lexcmp (key x) (key y) with Lt => true | _ => false end.
Proof.
  intros Hx Hy. rewrite ltb_spec. unfold SFltb. rewrite SFcompare_lexcmp by assumption. reflexivity.
Qed.

Lemma leb_lexcmp x y : notnan x -> notnan y ->
  (x <=? y)%float = match lexcmp (key x) (key y) with Gt => false | _ => true end.
Proof.
  intros Hx Hy. rewrite leb_spec. unfold SFleb. rewrite SFcompare_lexcmp by assumption.
  unfold key. destruct (lexcmp _ _); reflexivity.
Qed.

Lemma eqb_lexcmp x y : notnan x -> notnan y ->
  (x =? y)%float = match lexcmp (key x) (key y) with Eq => true | _ => false end.
Proof.
  intros Hx Hy. rewrite FloatAxioms.eqb_spec. unfold SFeqb. rewrite SFcompare_lexcmp by assumption.
  reflexivity.
Qed.

Lemma leb_notnan x y : (x <=? y)%float = true -> notnan x /\ notnan y.
Proof.
  rewrite leb_spec. unfold notnan.
  destruct (Prim2SF x), (Prim2SF y); simpl; intros H; try discriminate; split; discriminate.
Qed.

Lemma sub_pos_ltb x y : notnan x -> notnan y ->
  (0 <? y - x)%float = (x <? y)%float.
Proof.
  intros Hx Hy. rewrite !ltb_spec, sub_spec.
  change (Prim2SF 0%float) with (S754_zero false).
  apply SFsub_pos_ltb; try assumption; try apply Prim2SF_valid. reflexivity.
Qed.

(** *** The order of the numbers other than NaN *)

Lemma lexcmp_refl k : lexcmp k k = Eq.
Proof.
  destruct k as [[a b] c]. unfold lexcmp. rewrite !Z.compare_refl. reflexivity.
Qed.

Lemma lexcmp_antisym k1 k2 : lexcmp k2 k1 = CompOpp (lexcmp k1 k2).
Proof.
  destruct k1 as [[a1 b1] c1], k2 as [[a2 b2] c2]. unfold lexcmp.
  rewrite (Z.compare_antisym a1 a2), (Z.compare_antisym b1 b2), (Z.compare_antisym c1 c2).
  destruct (a1 ?= a2), (b1 ?= b2), (c1 ?= c2); reflexivity.
Qed.

Lemma lexcmp_eq k1 k2 : lexcmp k1 k2 = Eq <-> k1 = k2.
Proof.
  destruct k1 as [[a1 b1] c1], k2 as [[a2 b2] c2]. unfold lexcmp. split.
  - destruct (Z.compare_spec a1 a2); try discriminate.
    destruct (Z.compare_spec b1 b2); try discriminate.
    destruct (Z.compare_spec c1 c2); try discriminate.
    intros _. congruence.
  - intros E. inversion E. rewrite !Z.compare_refl. reflexivity.
Qed.

Lemma lexcmp_le_trans k1 k2 k3 :
  lexcmp k1 k2 <> Gt -> lexcmp k2 k3 <> Gt -> lexcmp k1 k3 <> Gt.
Proof.
  destruct k1 as [[a1 b1] c1], k2 as [[a2 b2] c2], k3 as [[a3 b3] c3]. unfold lexcmp.
  destruct (Z.compare_spec a1 a2), (Z.compare_spec a2 a3), (Z.compare_spec a1 a3);
    try lia; try congruence;
  destruct (Z.compare_spec b1 b2), (Z.compare_spec b2 b3), (Z.compare_spec b1 b3);
    try lia; try congruence;
  destruct (Z.compare_spec c1 c2), (Z.compare_spec c2 c3), (Z.compare_spec c1 c3);
    try lia; congruence.
Qed.

Lemma lexcmp_lt_le_trans k1 k2 k3 :
  lexcmp k1 k2 = Lt -> lexcmp k2 k3 <> Gt -> lexcmp k1 k3 = Lt.
Proof.
  destruct k1 as [[a1 b1] c1], k2 as [[a2 b2] c2], k3 as [[a3 b3] c3]. unfold lexcmp.
  destruct (Z.compare_spec a1 a2), (Z.compare_spec a2 a3), (Z.compare_spec a1 a3);
    try lia; try congruence;
  destruct (Z.compare_spec b1 b2), (Z.compare_spec b2 b3), (Z.compare_spec b1 b3);
    try lia; try congruence;
  destruct (Z.compare_spec c1 c2), (Z.compare_spec c2 c3), (Z.compare_spec c1 c3);
    try lia; congruence.
Qed.


Lemma ltb_notnan x y : (x <? y)%float = true -> notnan x /\ notnan y.
Proof.
  rewrite ltb_spec. unfold notnan.
  destruct (Prim2SF x), (Prim2SF y); simpl; intros H; try discriminate; split; discriminate.
Qed.

Lemma eqb_notnan x y : (x =? y)%float = true -> notnan x /\ notnan y.
Proof.
  rewrite FloatAxioms.eqb_spec. unfold notnan.
  destruct (Prim2SF x), (Prim2SF y); simpl; intros H; try discriminate; split; discriminate.
Qed.

(** The order is total on the numbers other than NaN. *)
Lemma ltb_false_leb x y : notnan x -> notnan y ->
  (x <? y)%float = false -> (y <=? x)%float = true.
Proof.
  intros Hx Hy. rewrite ltb_lexcmp, leb_lexcmp by assumption.
  rewrite (lexcmp_antisym (key x) (key y)).
  destruct (lexcmp (key x) (key y)); simpl; congruence.
Qed.

Lemma ltb_true_leb x y : (x <? y)%float = true -> (x <=? y)%float = true.
Proof.
  intros H. destruct (ltb_notnan _ _ H) as [Hx Hy].
  rewrite ltb_lexcmp in H by assumption. rewrite leb_lexcmp by assumption.
  destruct (lexcmp (key x) (key y)); simpl; congruence.
Qed.

Lemma leb_refl x : notnan x -> (x <=? x)%float = true.
Proof.
  intros Hx. rewrite leb_lexcmp by assumption. rewrite lexcmp_refl. reflexivity.
Qed.

Lemma leb_trans x y z :
  (x <=? y)%float = true -> (y <=? z)%float = true -> (x <=? z)%float = true.
Proof.
  intros H1 H2.
  destruct (leb_notnan _ _ H1) as [Hx Hy]. destruct (leb_notnan _ _ H2) as [_ Hz].
  rewrite leb_lexcmp in * by assumption.
  pose proof (lexcmp_le_trans (key x) (key y) (key z)) as T.
  destruct (lexcmp (key x) (key y)), (lexcmp (key y) (key z)), (lexcmp (key x) (key z));
    try reflexivity; try discriminate; exfalso; apply T; congruence.
Qed.

(** A number strictly below another is not equal to what the other equals. *)
Lemma ltb_eqb_false x y v :
  (x <? y)%float = true -> (x =? v)%float = true -> (y =? v)%float = false.
Proof.
  intros H1 H2.
  destruct (ltb_notnan _ _ H1) as [Hx Hy]. destruct (eqb_notnan _ _ H2) as [_ Hv].
  rewrite ltb_lexcmp in H1 by assumption.
  rewrite eqb_lexcmp in H2 by assumption. rewrite eqb_lexcmp by assumption.
  destruct (lexcmp (key x) (key v)) eqn:E2; try discriminate.
  apply lexcmp_eq in E2. rewrite <- E2.
  rewrite (lexcmp_antisym (key x) (key y)).
  destruct (lexcmp (key x) (key y)); simpl; congruence.
Qed.

Lemma eqb_leb x y : (x =? y)%float = true -> (x <=? y)%float = true.
Proof.
  intros H. destruct (eqb_notnan _ _ H) as [Hx Hy].
  rewrite eqb_lexcmp in H by assumption. rewrite leb_lexcmp by assumption.
  destruct (lexcmp (key x) (key y)); simpl; congruence.
Qed.

Lemma leb_antisym x y :
  (x <=? y)%float = true -> (y <=? x)%float = true -> (x =? y)%float = true.
Proof.
  intros H1 H2. destruct (leb_notnan _ _ H1) as [Hx Hy].
  rewrite leb_lexcmp in H1, H2 by assumption. rewrite eqb_lexcmp by assumption.
  rewrite (lexcmp_antisym (key x) (key y)) in H2.
  destruct (lexcmp (key x) (key y)); simpl in *; congruence.
Qed.

Lemma eqb_sym x y : (x =? y)%float = true -> (y =? x)%float = true.
Proof.
  intros H. destruct (eqb_notnan _ _ H) as [Hx Hy].
  rewrite eqb_lexcmp in * by assumption.
  destruct (lexcmp (key x) (key y)) eqn:E; try discriminate.
  apply lexcmp_eq in E. rewrite E, lexcmp_refl. reflexivity.
Qed.

Lemma eqb_refl x : notnan x -> (x =? x)%float = true.
Proof.
  intros Hx. rewrite eqb_lexcmp by assumption. rewrite lexcmp_refl. reflexivity.
Qed.

(** The two zeros are the numbers equal to zero. *)
Lemma eqb_zero x : (x =? 0)%float = true -> x = 0%float \/ x = (-0)%float.
Proof.
  rewrite FloatAxioms.eqb_spec. intros H.
  rewrite <- (SF2Prim_Prim2SF x).
  change (Prim2SF 0%float) with (S754_zero false) in H.
  destruct (Prim2SF x) as [s|s| |s m e]; simpl in H; try discriminate.
  - destruct s; [right|left]; reflexivity.
  - destruct s; discriminate.
  - destruct s; discriminate.
Qed.

End FloatOrder.

(** ** [Array.prototype.slice] *)

Module SliceFacts.
Import JS.

Lemma slice_prefix {A} (k : Z) (l : list A) :
  0 <= k -> slice 0 (Some k) l = firstn (Z.to_nat k) l.
Proof.
  intros Hk. unfold slice, relIndex.
  change (0 <? 0) with false. destruct (Z.ltb_spec k 0); [lia|].
  cbv iota. rewrite (Z.min_l 0) by lia. change (Z.to_nat 0) with 0%nat. rewrite skipn_O.
  rewrite Z.sub_0_r.
  destruct (Z.le_gt_cases k (Z.of_nat (length l))) as [Hle|Hgt].
  - rewrite Z.min_l by lia. reflexivity.
  - rewrite Z.min_r by lia. rewrite Nat2Z.id.
    rewrite firstn_all. symmetry. apply firstn_all2. lia.
Qed.

Lemma slice_suffix {A} (n : Z) (l : list A) :
  0 < n -> slice (- n) None l = skipn (length l - Z.to_nat n) l.
Proof.
  intros Hn. unfold slice, relIndex.
  destruct (Z.ltb_spec (- n) 0); [|lia].
  set (len := Z.of_nat (length l)).
  assert (Hk : Z.to_nat (Z.max (len + - n) 0) = (length l - Z.to_nat n)%nat) by lia.
  rewrite Hk.
  apply firstn_all2. rewrite length_skipn. lia.
Qed.

Lemma slice_without_suffix {A} (n : Z) (l : list A) :
  0 < n -> slice 0 (Some (- n)) l = firstn (length l - Z.to_nat n) l.
Proof.
  intros Hn. unfold slice, relIndex.
  change (0 <? 0) with false. destruct (Z.ltb_spec (- n) 0); [|lia].
  cbv iota. rewrite (Z.min_l 0) by lia. change (Z.to_nat 0) with 0%nat. rewrite skipn_O. f_equal. lia.
Qed.

Lemma slice_nil {A} (start : Z) (end_ : option Z) : slice start end_ (@nil A) = [].
Proof. unfold slice. rewrite skipn_nil. apply firstn_nil. Qed.

(** [slice(-0)] is [slice(0)]: the whole array. *)
Lemma slice_minus_zero {A} (l : list A) : slice (- 0) None l = l.
Proof.
  unfold slice, relIndex. change (- 0 <? 0) with false. cbv iota.
  rewrite Z.min_l by lia. change (Z.to_nat 0) with 0%nat. rewrite skipn_O. rewrite Z.sub_0_r, Nat2Z.id. apply firstn_all.
Qed.

Lemma slice_to_minus_zero {A} (l : list A) : slice 0 (Some (- 0)) l = [].
Proof.
  change (- 0) with 0. rewrite slice_prefix by lia. reflexivity.
Qed.

End SliceFacts.

(** ** [Array.prototype.sort] with a descending comparator *)

Module SortFacts.
Import JS Binary64 Order FloatOrder.

Section Descending.
Context {A : Type} (score : A -> float).

Lemma after_descending x y :
  notnan (score x) -> notnan (score y) ->
  after (descending score x y) = (score x <? score y)%float.
Proof. intros Hx Hy. unfold after, descending. apply sub_pos_ltb; assumption. Qed.

Lemma insert_perm (cmp : A -> A -> float) x l : Permutation (insert cmp x l) (x :: l).
Proof.
  induction l as [|y l IH]; simpl.
  - reflexivity.
  - destruct (after (cmp x y)).
    + rewrite IH. apply perm_swap.
    + reflexivity.
Qed.

Lemma sort_perm (cmp : A -> A -> float) l : Permutation (sort cmp l) l.
Proof.
  induction l as [|x l IH]; simpl.
  - reflexivity.
  - unfold sort in IH. rewrite insert_perm. apply perm_skip. exact IH.
Qed.

Lemma sort_numbers l : numbers score l -> numbers score (sort (descending score) l).
Proof.
  intros H. unfold numbers. eapply Permutation_Forall; [|exact H].
  symmetry. apply sort_perm.
Qed.

Lemma insert_sorted x l :
  notnan (score x) -> numbers score l ->
  StronglySorted (notBelow score) l -> StronglySorted (notBelow score) (insert (descending score) x l).
Proof.
  intros Hx Hl Hs. induction Hs as [|y l Hs IH Hy]; simpl.
  - constructor; constructor.
  - inversion Hl as [|? ? Hny Hnl]; subst.
    rewrite after_descending by assumption.
    destruct (score x <? score y)%float eqn:E.
    + constructor; [apply IH; assumption|].
      eapply Permutation_Forall; [symmetry; apply insert_perm|].
      constructor; [|assumption].
      unfold notBelow. apply ltb_true_leb. exact E.
    + assert (Hxy : notBelow score x y) by (apply ltb_false_leb; assumption).
      constructor; [constructor; assumption|].
      constructor; [assumption|].
      eapply List.Forall_impl; [|exact Hy].
      intros z Hz. unfold notBelow in *. eapply leb_trans; eassumption.
Qed.

Lemma sort_sorted l : numbers score l -> StronglySorted (notBelow score) (sort (descending score) l).
Proof.
  induction l as [|x l IH]; intros H; simpl.
  - constructor.
  - inversion H; subst. apply insert_sorted; try assumption.
    + apply sort_numbers. assumption.
    + apply IH. assumption.
Qed.

Lemma insert_stable v x l :
  notnan (score x) -> numbers score l ->
  List.filter (sameScore score v) (insert (descending score) x l) = List.filter (sameScore score v) (x :: l).
Proof.
  intros Hx Hl. induction Hl as [|y l Hy Hl IH]; [reflexivity|].
  simpl insert. rewrite after_descending by assumption.
  destruct (score x <? score y)%float eqn:E; [|reflexivity].
  simpl List.filter in *. rewrite IH.
  destruct (sameScore score v x) eqn:Ex; [|reflexivity].
  unfold sameScore in *. rewrite (ltb_eqb_false _ _ _ E Ex). reflexivity.
Qed.

Lemma sort_stable v l :
  numbers score l ->
  List.filter (sameScore score v) (sort (descending score) l) =
  List.filter (sameScore score v) l.
Proof.
  induction l as [|x l IH]; intros H; [reflexivity|].
  inversion H; subst.
  change (sort (descending score) (x :: l)) with (insert (descending score) x (sort (descending score) l)).
  rewrite insert_stable by (try apply sort_numbers; assumption).
  simpl List.filter. rewrite IH by assumption. reflexivity.
Qed.

(** The three properties fix the list: whatever stable sorting algorithm
    the engine runs, it returns what [sort] returns. *)
Lemma sorted_stable_eq r1 : forall r2,
  numbers score r1 -> numbers score r2 ->
  StronglySorted (notBelow score) r1 -> StronglySorted (notBelow score) r2 ->
  (forall v, List.filter (sameScore score v) r1 = List.filter (sameScore score v) r2) ->
  r1 = r2.
Proof.
  assert (Hself : forall z, notnan (score z) -> sameScore score (score z) z = true).
  { intros z Hz. apply eqb_refl. exact Hz. }
  induction r1 as [|x r1 IH]; intros r2 N1 N2 S1 S2 Hf.
  - destruct r2 as [|y r2]; [reflexivity|]. exfalso.
    inversion N2 as [|? ? Hy _]; subst.
    specialize (Hf (score y)). simpl in Hf. rewrite (Hself y Hy) in Hf. discriminate.
  - inversion N1 as [|? ? Hx N1']; subst.
    destruct r2 as [|y r2].
    + exfalso. specialize (Hf (score x)). simpl in Hf. rewrite (Hself x Hx) in Hf.
      discriminate.
    + inversion N2 as [|? ? Hy N2']; subst.
      inversion S1 as [|? ? S1' Fx]; subst. inversion S2 as [|? ? S2' Fy]; subst.
      rewrite List.Forall_forall in Fx, Fy.
      assert (Exy : x = y).
      { pose proof (Hf (score x)) as Hvx. simpl in Hvx. rewrite (Hself x Hx) in Hvx.
        destruct (sameScore score (score x) y) eqn:Ey; [congruence|].
        exfalso.
        assert (Hin : List.In x r2).
        { eapply proj1. apply List.filter_In. rewrite <- Hvx. left. reflexivity. }
        pose proof (Fy x Hin) as L2. unfold notBelow in L2.
        assert (Ex : sameScore score (score y) x = false).
        { unfold sameScore in Ey |- *.
          destruct (score x =? score y)%float eqn:E; [|reflexivity].
          rewrite (eqb_sym _ _ E) in Ey. discriminate. }
        pose proof (Hf (score y)) as Hvy. simpl in Hvy.
        rewrite (Hself y Hy), Ex in Hvy.
        assert (Hin' : List.In y r1).
        { eapply proj1. apply List.filter_In. rewrite Hvy. left. reflexivity. }
        pose proof (Fx y Hin') as L1. unfold notBelow in L1.
        unfold sameScore in Ey. rewrite (leb_antisym _ _ L1 L2) in Ey. discriminate. }
      subst y. f_equal. apply IH; try assumption.
      intros v. specialize (Hf v). simpl in Hf.
      destruct (sameScore score v x); congruence.
Qed.

Lemma sort_unique l r :
  numbers score l -> Permutation r l ->
  StronglySorted (notBelow score) r ->
  (forall v, List.filter (sameScore score v) r = List.filter (sameScore score v) l) ->
  r = sort (descending score) l.
Proof.
  intros Hn Hp Hs Hf. apply sorted_stable_eq.
  - unfold numbers. eapply Permutation_Forall; [symmetry; exact Hp|exact Hn].
  - apply sort_numbers. exact Hn.
  - exact Hs.
  - apply sort_sorted. exact Hn.
  - intros v. rewrite Hf. symmetry. apply sort_stable. exact Hn.
Qed.

End Descending.

End SortFacts.

(** ** Differences in binary64

    The sign given to a rounding only reaches the sign of its result, so
    [x - y] and [y - x] have the same magnitude, and a finite number minus
    itself is [+0]. *)

Module FloatDifference.
Import DistanceSpec.

Lemma binary_round_aux_abs prec emax s m e l :
  SFabs (binary_round_aux prec emax s m e l) = SFabs (binary_round_aux prec emax false m e l).
Proof.
  unfold binary_round_aux.
  destruct (shr_fexp prec emax m e l) as [mrs' e'].
  destruct (shr_fexp prec emax _ e' loc_Exact) as [mrs'' e''].
  destruct (shr_m mrs''); try reflexivity.
  destruct (e'' <=? emax - prec); reflexivity.
Qed.

Lemma binary_round_abs prec emax s m e :
  SFabs (binary_round prec emax s m e) = SFabs (binary_round prec emax false m e).
Proof.
  unfold binary_round.
  destruct (shl_align m e _) as [mz ez].
  apply binary_round_aux_abs.
Qed.

Lemma binary_normalize_abs prec emax d e :
  SFabs (binary_normalize prec emax (- d) e false) = SFabs (binary_normalize prec emax d e false).
Proof.
  destruct d as [|p|p]; simpl.
  - reflexivity.
  - apply binary_round_abs.
  - symmetry. apply binary_round_abs.
Qed.

Lemma SFsub_abs prec emax X Y :
  SFabs (SFsub prec emax X Y) = SFabs (SFsub prec emax Y X).
Proof.
  destruct X as [sx|sx| |sx mx ex]; destruct Y as [sy|sy| |sy my ey];
    try (destruct sx; destruct sy; reflexivity); try reflexivity.
  unfold SFsub.
  rewrite (Z.min_comm ey ex).
  set (vx := cond_Zopp sx _). set (vy := cond_Zopp sy _).
  replace (vy - vx) with (- (vx - vy)) by lia.
  symmetry. apply binary_normalize_abs.
Qed.

Lemma SFmul_abs prec emax X :
  SFmul prec emax X X = SFmul prec emax (SFabs X) (SFabs X).
Proof. destruct X as [s|s| |s m e]; try destruct s; reflexivity. Qed.

Lemma SFmul_square prec emax X Y :
  SFabs X = SFabs Y -> SFmul prec emax X X = SFmul prec emax Y Y.
Proof. intros H. rewrite (SFmul_abs _ _ X), (SFmul_abs _ _ Y), H. reflexivity. Qed.

(** [Math.abs(x - y) = Math.abs(y - x)] *)
Lemma abs_sub_sym x y : abs (x - y) = abs (y - x).
Proof.
  apply Prim2SF_inj. rewrite !abs_spec, !sub_spec. apply SFsub_abs.
Qed.

(** [(x - y) * (x - y) = (y - x) * (y - x)] *)
Lemma square_sub_sym x y : ((x - y) * (x - y) = (y - x) * (y - x))%float.
Proof.
  apply Prim2SF_inj. rewrite !mul_spec. apply SFmul_square.
  rewrite !sub_spec. apply SFsub_abs.
Qed.

(** [x - x = 0] for a finite [x]. *)
Lemma sub_diag x : isFinite x = true -> (x - x)%float = 0%float.
Proof.
  unfold isFinite. intros H.
  apply Prim2SF_inj. rewrite sub_spec.
  destruct (Prim2SF x) as [s|s| |s m e]; try discriminate.
  - destruct s; reflexivity.
  - unfold SF64sub, SFsub. rewrite Z.sub_diag. reflexivity.
Qed.

End FloatDifference.

(* ===================================================================== *)
(** * Part IV: the stated properties                                      *)
(* ===================================================================== *)

(* --------------------------------------------------------------------- *)
(** ** Vector math                                                        *)
(* --------------------------------------------------------------------- *)

Module VectorMath.
Import JS VectorUtils Binary64 Order FloatOrder SortFacts SliceFacts VectorSpec.

(** *** cosineSimilarity *)

Lemma dotLoop_fold a : forall b acc,
  dotLoop a b acc =
  fold_left (fun acc p => (acc + fst p * snd p)%float) (combine a b) acc.
Proof.
  induction a as [|x a IH]; intros [|y b] acc; simpl; try reflexivity. apply IH.
Qed.

Lemma magnitudeLoop_fold a : forall b ma mb,
  length a = length b ->
  magnitudeLoop a b ma mb =
  (fold_left (fun acc p => (acc + fst p * snd p)%float) (combine a a) ma,
   fold_left (fun acc p => (acc + fst p * snd p)%float) (combine b b) mb).
Proof.
  induction a as [|x a IH]; intros [|y b] ma mb Hlen; simpl in *; try discriminate.
  - reflexivity.
  - apply IH. congruence.
Qed.

Lemma cosineSimilarity_unfold a b :
  length a = length b -> length a <> 0%nat ->
  cosineSimilarity a b =
  if ((norm a =? 0) || (norm b =? 0))%float then Ok 0%float
  else Ok (dot a b / (norm a * norm b))%float.
Proof.
  intros Hlen Hne. unfold cosineSimilarity.
  rewrite Hlen, Nat.eqb_refl. simpl negb. cbv iota.
  rewrite <- Hlen. destruct (Nat.eqb_spec (length a) 0); [contradiction|].
  rewrite magnitudeLoop_fold by assumption. rewrite dotLoop_fold. reflexivity.
Qed.

Lemma zero_sum a acc :
  zeroVector a -> acc = 0%float ->
  fold_left (fun acc p => (acc + fst p * snd p)%float) (combine a a) acc = 0%float.
Proof.
  intros Hz. revert acc. induction Hz as [|x a Hx Hz IH]; intros acc Hacc; simpl.
  - exact Hacc.
  - apply IH. subst acc. destruct (eqb_zero x Hx) as [-> | ->]; reflexivity.
Qed.

Lemma zeroVector_norm a : zeroVector a -> (norm a =? 0)%float = true.
Proof.
  intros Hz. unfold norm, dot. rewrite zero_sum by (assumption || reflexivity). reflexivity.
Qed.

(** C5.  For vectors of the same non-zero length, [cosineSimilarity]
    returns exactly [0], which is not NaN, when the norm of either vector
    is zero (in particular when either vector consists of zeros, whatever
    the other one holds), and the dot product divided by the product of the
    norms otherwise.  It fails with the dimension error when the lengths
    differ and with the empty-vector error when both lengths are 0. *)
Theorem cosineSimilarity_contract (a b : list float) :
  (length a <> length b ->
   cosineSimilarity a b = Throw "Vectors must have the same dimensions") /\
  (length a = length b -> length a = 0%nat ->
   cosineSimilarity a b = Throw "Vectors cannot be empty") /\
  (length a = length b -> length a <> 0%nat ->
   ((norm a =? 0)%float = true \/ (norm b =? 0)%float = true ->
    cosineSimilarity a b = Ok 0%float) /\
   (zeroVector a \/ zeroVector b -> cosineSimilarity a b = Ok 0%float) /\
   ((norm a =? 0)%float = false -> (norm b =? 0)%float = false ->
    cosineSimilarity a b = Ok (dot a b / (norm a * norm b))%float)) /\
  is_nan 0%float = false.
Proof.
  repeat split.
  - intros Hne. unfold cosineSimilarity.
    destruct (Nat.eqb_spec (length a) (length b)); [contradiction|reflexivity].
  - intros Hlen H0. unfold cosineSimilarity.
    rewrite Hlen, Nat.eqb_refl. rewrite <- Hlen, H0. reflexivity.
  - intros [Ha|Hb]; rewrite cosineSimilarity_unfold by assumption.
    + rewrite Ha. reflexivity.
    + rewrite Hb, orb_true_r. reflexivity.
  - intros [Ha|Hb]; rewrite cosineSimilarity_unfold by assumption.
    + rewrite (zeroVector_norm a Ha). reflexivity.
    + rewrite (zeroVector_norm b Hb), orb_true_r. reflexivity.
  - intros Ha Hb. rewrite cosineSimilarity_unfold by assumption.
    rewrite Ha, Hb. reflexivity.
Qed.

Lemma cosineSimilarity_contract_witness :
  cosineSimilarity [0; -0]%float [3; 4]%float = Ok 0%float /\
  cosineSimilarity [3; 4]%float [4; 3]%float = Ok (24 / (5 * 5))%float /\
  cosineSimilarity [1]%float [1; 2]%float = Throw "Vectors must have the same dimensions" /\
  cosineSimilarity [] [] = Throw "Vectors cannot be empty".
Proof.
  destruct (cosineSimilarity_contract [0; -0]%float [3; 4]%float) as (_ & _ & H1 & _).
  destruct (H1 eq_refl ltac:(discriminate)) as (_ & Hz & _).
  destruct (cosineSimilarity_contract [3; 4]%float [4; 3]%float) as (_ & _ & H2 & _).
  destruct (H2 eq_refl ltac:(discriminate)) as (_ & _ & Hd).
  destruct (cosineSimilarity_contract [1]%float [1; 2]%float) as (H3 & _).
  destruct (cosineSimilarity_contract [] []) as (_ & H4 & _).
  split; [|split; [|split]].
  - apply Hz. left. repeat constructor.
  - apply (Hd eq_refl eq_refl).
  - apply H3. discriminate.
  - apply (H4 eq_refl eq_refl).
Defined.

(** *** findSimilarChunks *)

Lemma similarityLoop_scored q min chunks :
  map scored (fst (similarityLoop q min chunks)) = qualifying q min chunks.
Proof.
  induction chunks as [|c chunks IH]; [reflexivity|].
  simpl. destruct (similarityLoop q min chunks) as [sims console]. simpl in IH.
  destruct (cosineSimilarity q (values (embedding c))) as [s|m].
  - destruct (min <=? s)%float; simpl; rewrite IH; reflexivity.
  - simpl. exact IH.
Qed.

Lemma similarityLoop_numbers q min chunks :
  numbers similarity_score (fst (similarityLoop q min chunks)).
Proof.
  induction chunks as [|c chunks IH]; [constructor|].
  simpl. destruct (similarityLoop q min chunks) as [sims console]. simpl in IH.
  destruct (cosineSimilarity q (values (embedding c))) as [s|m]; [|exact IH].
  destruct (min <=? s)%float eqn:E; [|exact IH].
  constructor; [|exact IH]. simpl. apply (leb_notnan _ _ E).
Qed.

(** The console receives one line for each candidate whose similarity
    could not be computed, in candidate order. *)
Lemma similarityLoop_console q min chunks :
  snd (similarityLoop q min chunks) =
  map consoleLine
    (List.filter (fun c => negb (isOk (cosineSimilarity q (values (embedding c))))) chunks).
Proof.
  induction chunks as [|c chunks IH]; [reflexivity|].
  simpl. destruct (similarityLoop q min chunks) as [sims console]. simpl in IH.
  destruct (cosineSimilarity q (values (embedding c))) as [s|m]; simpl.
  - destruct (min <=? s)%float; exact IH.
  - rewrite IH. reflexivity.
Qed.

Lemma setRanks_scored l : forall i, map scored (setRanks i l) = map scored l.
Proof.
  induction l as [|r l IH]; intros i; simpl; [reflexivity|]. rewrite IH. reflexivity.
Qed.

Lemma setRanks_rank l : forall i n r,
  nth_error (setRanks i l) n = Some r -> rank r = i + Z.of_nat n + 1.
Proof.
  induction l as [|x l IH]; intros i n r H.
  - destruct n; discriminate.
  - destruct n as [|n]; simpl in H.
    + inversion H; subst. simpl. lia.
    + apply IH in H. lia.
Qed.

Lemma findSimilarChunks_unfold q chunks k min :
  q <> [] -> chunks <> [] -> 0 < k ->
  findSimilarChunks q chunks k min =
  (Ok (setRanks 0 (firstn (Z.to_nat k)
                     (sort byScoreDescending (fst (similarityLoop q min chunks))))),
   snd (similarityLoop q min chunks)).
Proof.
  intros Hq Hc Hk. unfold findSimilarChunks.
  destruct q as [|x q]; [contradiction|]. destruct chunks as [|c chunks]; [contradiction|].
  simpl (length _ =? 0)%nat. cbv iota.
  destruct (Z.leb_spec k 0); [lia|].
  destruct (similarityLoop (x :: q) min (c :: chunks)) as [sims console].
  rewrite slice_prefix by lia. reflexivity.
Qed.

Lemma StronglySorted_map {A B} (f : A -> B) (R : B -> B -> Prop) l :
  StronglySorted (fun x y => R (f x) (f y)) l -> StronglySorted R (map f l).
Proof.
  induction 1 as [|x l Hs IH Hx]; simpl; constructor; [assumption|].
  apply List.Forall_map. exact Hx.
Qed.

Lemma filter_map_scored (p : float -> bool) l :
  List.filter (fun x => p (snd x)) (map scored l) =
  map scored (List.filter (fun r => p (similarity_score r)) l).
Proof.
  induction l as [|r l IH]; simpl; [reflexivity|].
  destruct (p (similarity_score r)); simpl; rewrite IH; reflexivity.
Qed.

(** C4 (amended).  For every non-empty query vector: an empty candidate
    list gives the empty result; a non-empty one with [k <= 0] gives the
    [topK] error; and a non-empty one with [k > 0] gives the candidates
    whose cosine similarity is at least [min_score] (bound included),
    ordered by descending score, candidates of equal score in candidate
    order, cut to the first [k], with ranks 1, 2, ... in output order. *)
Theorem findSimilarChunks_ranking (query : list float) (candidates : list EmbeddedChunk)
    (k : Z) (min_score : float) :
  query <> [] ->
  (candidates = [] -> findSimilarChunks query candidates k min_score = (Ok [], [])) /\
  (candidates <> [] -> k <= 0 ->
   fst (findSimilarChunks query candidates k min_score) = Throw "topK must be greater than 0") /\
  (candidates <> [] -> 0 < k ->
   exists results ranked,
     fst (findSimilarChunks query candidates k min_score) = Ok results /\
     Permutation ranked (qualifying query min_score candidates) /\
     StronglySorted (fun x y => (snd y <=? snd x)%float = true) ranked /\
     (forall v, List.filter (fun x => (snd x =? v)%float) ranked =
                List.filter (fun x => (snd x =? v)%float) (qualifying query min_score candidates)) /\
     map scored results = firstn (Z.to_nat k) ranked /\
     (forall i r, nth_error results i = Some r -> rank r = Z.of_nat i + 1)).
Proof.
  intros Hq. split; [|split].
  - intros ->. unfold findSimilarChunks. destruct query; [contradiction|reflexivity].
  - intros Hc Hk. unfold findSimilarChunks.
    destruct query; [contradiction|]. destruct candidates; [contradiction|].
    simpl. destruct (Z.leb_spec k 0); [reflexivity|lia].
  - intros Hc Hk. rewrite findSimilarChunks_unfold by assumption.
    set (sims := fst (similarityLoop query min_score candidates)).
    pose proof (similarityLoop_numbers query min_score candidates) as Hn. fold sims in Hn.
    pose proof (similarityLoop_scored query min_score candidates) as Hs. fold sims in Hs.
    exists (setRanks 0 (firstn (Z.to_nat k) (sort byScoreDescending sims))),
           (map scored (sort byScoreDescending sims)).
    split; [reflexivity|]. split; [|split; [|split; [|split]]].
    + rewrite <- Hs. apply Permutation_map. apply sort_perm.
    + apply StronglySorted_map. apply (sort_sorted similarity_score). exact Hn.
    + intros v. rewrite <- Hs.
      rewrite (filter_map_scored (fun s => (s =? v)%float)).
      rewrite (filter_map_scored (fun s => (s =? v)%float)).
      f_equal. apply (sort_stable similarity_score v). exact Hn.
    + rewrite setRanks_scored. rewrite firstn_map. reflexivity.
    + intros i r H. apply setRanks_rank in H. lia.
Qed.

Lemma findSimilarChunks_ranking_witness :
  fst (findSimilarChunks [1; 0]%float
         [chunkOf "a" [0; 1]%float; chunkOf "b" [1; 0]%float; chunkOf "c" [2; 0]%float]
         2 0x1p-1%float)
  = Ok [ {| chunk := chunkOf "b" [1; 0]%float; similarity_score := 1; rank := 1 |};
         {| chunk := chunkOf "c" [2; 0]%float; similarity_score := 1; rank := 2 |} ].
Proof.
  destruct (findSimilarChunks_ranking [1; 0]%float
              [chunkOf "a" [0; 1]%float; chunkOf "b" [1; 0]%float; chunkOf "c" [2; 0]%float]
              2 0x1p-1%float ltac:(discriminate)) as (_ & _ & H).
  destruct (H ltac:(discriminate) ltac:(lia)) as (results & ranked & E & _).
  rewrite E. vm_compute in E. injection E as <-. reflexivity.
Defined.

(** The claim C4 as stated covers every query vector, the empty one too;
    there the search throws, for a non-empty and for an empty candidate
    list alike. *)
Lemma findSimilarChunks_empty_query_throws :
  fst (findSimilarChunks [] [chunkOf "a" [1]%float] 1 0%float)
    = Throw "Query vector cannot be empty" /\
  fst (findSimilarChunks [] [] 1 0%float) = Throw "Query vector cannot be empty" /\
  fst (findSimilarChunks [] [] 1 0%float) <> Ok [].
Proof. repeat split; try reflexivity. discriminate. Qed.

(** C10 (amended).  For a non-empty query vector and an empty candidate
    list the search returns the empty result for every [k], [k <= 0]
    included; the [topK] error arises only for a non-empty candidate list
    (and a [k <= 0]). *)
Theorem findSimilarChunks_no_candidates (query : list float) (k : Z) (min_score : float) :
  query <> [] ->
  findSimilarChunks query [] k min_score = (Ok [], []) /\
  (forall candidates,
     fst (findSimilarChunks query candidates k min_score) = Throw "topK must be greater than 0" ->
     candidates <> [] /\ k <= 0).
Proof.
  intros Hq. destruct query as [|x query]; [contradiction|]. split; [reflexivity|].
  intros candidates. unfold findSimilarChunks. simpl (length (x :: query) =? 0)%nat. cbv iota.
  destruct candidates as [|c candidates]; [discriminate|].
  simpl (length (c :: candidates) =? 0)%nat. cbv iota.
  destruct (Z.leb_spec k 0) as [Hk|Hk].
  - intros _. split; [discriminate|assumption].
  - destruct (similarityLoop (x :: query) min_score (c :: candidates)). discriminate.
Qed.

Lemma findSimilarChunks_no_candidates_witness :
  findSimilarChunks [1; 0]%float [] (-3) 0%float = (Ok [], []) /\
  findSimilarChunks [1; 0]%float [] 0 0%float = (Ok [], []).
Proof.
  split.
  - apply (findSimilarChunks_no_candidates [1; 0]%float (-3) 0%float). discriminate.
  - apply (findSimilarChunks_no_candidates [1; 0]%float 0 0%float). discriminate.
Defined.

(** The claim C10 as stated asks for the empty result for every call with
    an empty candidate list; with an empty query vector the call throws. *)
Lemma findSimilarChunks_no_candidates_empty_query :
  findSimilarChunks [] [] 0 0%float = (Throw "Query vector cannot be empty", []) /\
  fst (findSimilarChunks [] [] 0 0%float) <> Ok [].
Proof. split; [reflexivity|discriminate]. Qed.

(** *** Candidates of another dimension *)

Lemma cosineSimilarity_isOk q v :
  q <> [] -> isOk (cosineSimilarity q v) = (length v =? length q)%nat.
Proof.
  intros Hq. unfold cosineSimilarity.
  rewrite (Nat.eqb_sym (length v)).
  destruct (length q =? length v)%nat; [|reflexivity]. simpl negb. cbv iota.
  destruct q; [contradiction|]. simpl (length _ =? 0)%nat. cbv iota.
  destruct (magnitudeLoop _ _ _ _). destruct (_ || _); reflexivity.
Qed.

Lemma similarityLoop_sameDimension q min chunks :
  q <> [] ->
  fst (similarityLoop q min (List.filter (sameDimension q) chunks)) =
  fst (similarityLoop q min chunks).
Proof.
  intros Hq. induction chunks as [|c chunks IH]; [reflexivity|].
  simpl. pose proof (cosineSimilarity_isOk q (values (embedding c)) Hq) as Hok.
  unfold sameDimension at 1. rewrite <- Hok.
  destruct (cosineSimilarity q (values (embedding c))) as [s|m] eqn:E; simpl.
  - rewrite E.
    destruct (similarityLoop q min (List.filter (sameDimension q) chunks)).
    destruct (similarityLoop q min chunks). simpl in IH. subst.
    destruct (min <=? s)%float; reflexivity.
  - destruct (similarityLoop q min chunks). exact IH.
Qed.

(** C2 (amended).  For a non-empty query vector and [k > 0] the search
    never fails on a dimension mismatch: every stored chunk whose vector
    has another length than the query is reported on the console and
    skipped, and the result is the one computed from the remaining
    chunks. *)
Theorem findSimilarChunks_skips_mismatch (query : list float) (chunks : list EmbeddedChunk)
    (k : Z) (min_score : float) :
  query <> [] -> 0 < k ->
  exists results,
    findSimilarChunks query chunks k min_score =
      (Ok results,
       map consoleLine (List.filter (fun c => negb (sameDimension query c)) chunks)) /\
    fst (findSimilarChunks query (List.filter (sameDimension query) chunks) k min_score)
      = Ok results.
Proof.
  intros Hq Hk.
  assert (Hcons : forall cs,
    snd (similarityLoop query min_score cs) =
    map consoleLine (List.filter (fun c => negb (sameDimension query c)) cs)).
  { intros cs. rewrite similarityLoop_console. f_equal.
    apply List.filter_ext. intros c. rewrite cosineSimilarity_isOk by assumption. reflexivity. }
  destruct chunks as [|c chunks].
  - exists []. destruct query; [contradiction|]. split; reflexivity.
  - rewrite findSimilarChunks_unfold by (assumption || discriminate).
    eexists. split.
    + rewrite Hcons. reflexivity.
    + destruct (List.filter (sameDimension query) (c :: chunks)) as [|c' rest] eqn:Ef.
      * assert (E : fst (similarityLoop query min_score (c :: chunks)) = []).
        { rewrite <- similarityLoop_sameDimension by assumption. rewrite Ef. reflexivity. }
        rewrite E. simpl sort. rewrite firstn_nil.
        destruct query; [contradiction|]. reflexivity.
      * rewrite findSimilarChunks_unfold by (assumption || discriminate).
        cbn [fst]. rewrite <- Ef. rewrite similarityLoop_sameDimension by assumption.
        reflexivity.
Qed.

Lemma findSimilarChunks_skips_mismatch_witness :
  findSimilarChunks [1; 0]%float
    [chunkOf "three" [1; 0; 0]%float; chunkOf "two" [1; 0]%float] 5 0%float
  = (Ok [ {| chunk := chunkOf "two" [1; 0]%float; similarity_score := 1; rank := 1 |} ],
     ["Error calculating similarity for chunk three:"%string]).
Proof.
  destruct (findSimilarChunks_skips_mismatch [1; 0]%float
              [chunkOf "three" [1; 0; 0]%float; chunkOf "two" [1; 0]%float] 5 0%float
              ltac:(discriminate) ltac:(lia)) as (results & E & _).
  rewrite E. vm_compute in E. injection E as <-. reflexivity.
Defined.

(** The claim C2 as stated has the query fail as a whole when its
    dimension differs from the stored vectors.  It does not: a query of two
    components against a store holding a vector of three and one of two
    returns the result computed from the latter, and against a store
    holding only vectors of three it returns the empty result. *)
Lemma findSimilarChunks_mismatch_not_fatal :
  fst (findSimilarChunks [1; 0]%float
         [chunkOf "three" [1; 0; 0]%float; chunkOf "two" [1; 0]%float] 5 0%float)
  = Ok [ {| chunk := chunkOf "two" [1; 0]%float; similarity_score := 1; rank := 1 |} ] /\
  fst (findSimilarChunks [1; 0]%float
         [chunkOf "three" [1; 0; 0]%float; chunkOf "more" [0; 1; 0]%float] 5 0%float)
  = Ok [].
Proof. split; reflexivity. Qed.

End VectorMath.

(* --------------------------------------------------------------------- *)
(** ** Retrieval index                                                    *)
(* --------------------------------------------------------------------- *)

Module Retrieval.
Import JS VectorUtils RAG IndexSpec.

(** *** Ingestion *)

Lemma pushLoop_ok name now chunks : forall embeddings acc r,
  pushLoop name now chunks embeddings acc = (r, Ok tt) ->
  r = acc ++ embedAll name now chunks embeddings /\ (length chunks <= length embeddings)%nat.
Proof.
  induction chunks as [|c chunks IH]; intros embeddings acc r H; simpl in H.
  - inversion H; subst. unfold embedAll. simpl. rewrite app_nil_r. split; [reflexivity|lia].
  - destruct embeddings as [|e embeddings]; [discriminate|].
    apply IH in H. destruct H as [-> Hlen]. split.
    + unfold embedAll. simpl. rewrite <- app_assoc. reflexivity.
    + simpl. lia.
Qed.

Lemma embedAll_length name now chunks embeddings :
  (length chunks <= length embeddings)%nat ->
  length (embedAll name now chunks embeddings) = length chunks.
Proof.
  intros H. unfold embedAll. rewrite length_map, length_combine. lia.
Qed.

Lemma chunksOf_embedAll name now chunks embeddings :
  chunksOf name (embedAll name now chunks embeddings) = embedAll name now chunks embeddings.
Proof.
  unfold chunksOf, embedAll.
  induction (combine chunks embeddings) as [|p l IH]; simpl; [reflexivity|].
  rewrite String.eqb_refl. rewrite IH. reflexivity.
Qed.

Lemma processDocument_ok env name content metadata s s' :
  processDocument env name content metadata s = (s', Ok tt) ->
  config s' = config s /\
  length (chunksOf name (embeddedChunks s')) =
    (length (chunksOf name (embeddedChunks s)) + produced env name content s)%nat /\
  exists doc, documentsIndex s' !! name = Some doc /\
              chunk_count doc = Z.of_nat (produced env name content s).
Proof.
  unfold processDocument, produced. simpl.
  destruct (chunkText _ _ _ _) as [chunks|m]; [|discriminate].
  destruct (generateEmbeddings _ _) as [embeddings|m]; [|discriminate].
  simpl. destruct (pushLoop _ _ _ _ _) as [pushed [[]|m]] eqn:Ep; [|discriminate].
  intros H. inversion H; subst; clear H. simpl.
  apply pushLoop_ok in Ep. destruct Ep as [-> Hlen].
  split; [reflexivity|]. split.
  - unfold chunksOf at 1. rewrite List.filter_app. fold (chunksOf name (embeddedChunks s)).
    fold (chunksOf name (embedAll name (now env) chunks embeddings)).
    rewrite chunksOf_embedAll, length_app, embedAll_length by assumption. reflexivity.
  - eexists. split; [apply lookup_insert_eq|]. reflexivity.
Qed.

(** C1 (the code departs from it).  Ingesting a document and then
    ingesting a document of the same file name again leaves the chunk list
    holding the chunks of both ingestions under that name (the count is
    the sum of the old and the new), while the document record, which is
    replaced, reports the new count alone. *)
Theorem reingestion_accumulates (env1 env2 : Env) (name content1 content2 : string)
    (metadata1 metadata2 : list (string * string)) (s s1 s2 : RAGService) :
  processDocument env1 name content1 metadata1 s = (s1, Ok tt) ->
  processDocument env2 name content2 metadata2 s1 = (s2, Ok tt) ->
  length (chunksOf name (embeddedChunks s2)) =
    (length (chunksOf name (embeddedChunks s))
     + produced env1 name content1 s + produced env2 name content2 s1)%nat /\
  exists doc, documentsIndex s2 !! name = Some doc /\
              chunk_count doc = Z.of_nat (produced env2 name content2 s1).
Proof.
  intros H1 H2.
  apply processDocument_ok in H1. destruct H1 as (_ & L1 & _).
  apply processDocument_ok in H2. destruct H2 as (_ & L2 & D2).
  split; [lia|exact D2].
Qed.

Lemma reingestion_accumulates_witness :
  length (chunksOf "faq" (embeddedChunks ingestedTwice)) = 4%nat /\
  map id (embeddedChunks ingestedTwice) =
    ["faq_chunk_0000"; "faq_chunk_0001"; "faq_chunk_0000"; "faq_chunk_0001"]%string /\
  map text (embeddedChunks ingestedTwice) =
    ["first text"; "first text"; "second text"; "second text"]%string /\
  exists doc, documentsIndex ingestedTwice !! "faq"%string = Some doc /\ chunk_count doc = 2.
Proof.
  destruct (reingestion_accumulates plainEnv plainEnv "faq" "first text" "second text" [] []
              (create emptyDirectory plainConfig) ingestedOnce ingestedTwice eq_refl eq_refl) as [L D].
  split; [exact L|]. split; [reflexivity|]. split; [reflexivity|exact D].
Defined.

(** *** Loading the cache at startup *)




Lemma loadChunks_log cache s e :
  List.In e (log s) -> List.In e (log (loadChunks cache s)).
Proof.
  intros H. unfold loadChunks. destruct (existsSync cache _); [|exact H].
  destruct (readChunks cache _); simpl; apply in_or_app; left; exact H.
Qed.





(** The constructor makes the data directory when it is missing, and
    logs that it did. *)
Example create_makes_the_data_directory :
  log (create KnowledgeSpec.emptyCache plainConfig) =
    [info "Created data directory: ./data"; info "RAG Service initialized"] /\
  log (create emptyDirectory plainConfig) = [info "RAG Service initialized"].
Proof. split; reflexivity. Qed.


(** *** Queries *)

Lemma generateQueryEmbedding_result env text s1 s2 :
  snd (generateQueryEmbedding env text s1) = snd (generateQueryEmbedding env text s2).
Proof. unfold generateQueryEmbedding. destruct (bind _ _); reflexivity. Qed.

Lemma retrieveContent_ok env context s s' result :
  retrieveContent env context s = (s', Ok result) ->
  exists queryEmbedding top,
    snd (generateQueryEmbedding env (query context) s) = Ok queryEmbedding /\
    fst (findSimilarChunks queryEmbedding (embeddedChunks s)
           (top_k (search_params context))
           (orDefault (min_similarity_score (search_params context))
              (minSimilarityScore (config s)))) = Ok top /\
    retrieved_chunks result = applyFilters top (filters (search_params context)).
Proof.
  unfold retrieveContent. destruct (isInitialized s); simpl; [|discriminate].
  destruct (generateQueryEmbedding env (query context) _) as [s1 [q|m]] eqn:Eq;
    [|discriminate].
  assert (Hs1 : embeddedChunks s1 = embeddedChunks s /\ config s1 = config s).
  { unfold generateQueryEmbedding in Eq.
    destruct (bind _ _); inversion Eq; subst; split; reflexivity. }
  destruct Hs1 as [Hc Hcfg]. rewrite Hc, Hcfg.
  destruct (findSimilarChunks q (embeddedChunks s) _ _) as [[top|m] lines] eqn:Ef;
    [|discriminate].
  intros H. inversion H; subst; clear H. simpl.
  exists q, top. rewrite Ef. split; [|split; reflexivity].
  rewrite (generateQueryEmbedding_result env (query context) s
             (logged (debug "Retrieving content for query") s)), Eq. reflexivity.
Qed.

Lemma passes_onlyFilenames names r :
  names <> [] -> passes (onlyFilenames names) r = named names r.
Proof.
  intros Hn. unfold passes, onlyFilenames, named. simpl.
  destruct names; [contradiction|]. simpl (0 <? _)%nat. cbv iota.
  rewrite !andb_true_r. reflexivity.
Qed.

Lemma includes_In names x : includes names x = true <-> List.In x names.
Proof.
  unfold includes. rewrite existsb_exists. split.
  - intros (y & Hy & E). apply String.eqb_eq in E. subst. exact Hy.
  - intros H. exists x. split; [exact H|apply String.eqb_refl].
Qed.

(** The predicate of [applyFilters] keeps exactly the results that satisfy
    the filters. *)
Lemma passes_satisfies f r : passes f r = true <-> satisfies f r.
Proof.
  unfold passes, satisfies. rewrite !andb_true_iff.
  assert (H1 : match filenames f with
               | Some names =>
                   if (0 <? length names)%nat
                   then includes names (filename (source (chunk r))) else true
               | None => true
               end = true <->
               (forall names, filenames f = Some names -> names <> [] ->
                  List.In (filename (source (chunk r))) names)).
  { destruct (filenames f) as [names|].
    - destruct names as [|n names]; cbn [length Nat.ltb Nat.leb].
      + split; [intros _ names [= <-] Hn; contradiction|reflexivity].
      + rewrite includes_In. split.
        * intros H names' [= <-] _. exact H.
        * intros H. apply (H _ eq_refl). discriminate.
    - split; [intros _ names; discriminate|reflexivity]. }
  assert (H2 : match sections f with
               | Some names =>
                   if (0 <? length names)%nat
                   then match truthySection (section (source (chunk r))) with
                        | Some sec => includes names sec
                        | None => false
                        end
                   else true
               | None => true
               end = true <->
               (forall names, sections f = Some names -> names <> [] ->
                  exists name, section (source (chunk r)) = Some name /\
                               name <> EmptyString /\ List.In name names)).
  { destruct (sections f) as [names|].
    - destruct names as [|n names]; cbn [length Nat.ltb Nat.leb].
      + split; [intros _ names [= <-] Hn; contradiction|reflexivity].
      + unfold truthySection. destruct (section (source (chunk r))) as [sec|].
        * destruct (String.eqb_spec sec "") as [->|Hne].
          -- split; [discriminate|].
             intros H. destruct (H _ eq_refl ltac:(discriminate)) as (name & [= <-] & Hn & _).
             contradiction.
          -- rewrite includes_In. split.
             ++ intros H names' [= <-] _. exists sec. auto.
             ++ intros H. destruct (H _ eq_refl ltac:(discriminate)) as (name & [= <-] & _ & Hin).
                exact Hin.
        * split; [discriminate|].
          intros H. destruct (H _ eq_refl ltac:(discriminate)) as (name & Hs & _). discriminate.
    - split; [intros _ names; discriminate|reflexivity]. }
  assert (H3 : match date_range f with
               | Some range =>
                   match range_start range with
                   | Some d => negb (created_at (chunk r) <? d)
                   | None => true
                   end &&
                   match range_end range with
                   | Some d => negb (d <? created_at (chunk r))
                   | None => true
                   end
               | None => true
               end = true <->
               (forall range, date_range f = Some range ->
                  (forall d, range_start range = Some d -> d <= created_at (chunk r)) /\
                  (forall d, range_end range = Some d -> created_at (chunk r) <= d))).
  { destruct (date_range f) as [range|].
    - rewrite andb_true_iff. split.
      + intros [Ha Hb] range' [= <-]. split; intros d Hd; rewrite Hd in *;
          apply negb_true_iff, Z.ltb_ge in Ha || apply negb_true_iff, Z.ltb_ge in Hb;
          assumption.
      + intros H. destruct (H _ eq_refl) as [Ha Hb]. split.
        * destruct (range_start range) as [d|]; [|reflexivity].
          apply negb_true_iff, Z.ltb_ge. apply Ha. reflexivity.
        * destruct (range_end range) as [d|]; [|reflexivity].
          apply negb_true_iff, Z.ltb_ge. apply Hb. reflexivity.
    - split; [intros _ range; discriminate|reflexivity]. }
  rewrite H1, H2, H3. tauto.
Qed.

(** C6.  Whenever a query returns, its result is the post-filter applied
    to the ranked list that the top-k search over the whole store returned:
    the filters never reach the chunks beyond the cut.  Of the ranked list
    the result keeps, in their order, exactly the entries that satisfy the
    filters on file names, sections and dates, and all of them when there
    are no filters.  With a file-name filter the result has as many entries
    as the ranked list has chunks of the named files: exactly one when
    exactly one of them matches, however many chunks of the store would
    match. *)
Theorem filters_apply_to_ranked_list (env : Env) (context : RAGContext)
    (s s' : RAGService) (result : RAGResult) :
  retrieveContent env context s = (s', Ok result) ->
  exists queryEmbedding top,
    snd (generateQueryEmbedding env (query context) s) = Ok queryEmbedding /\
    fst (findSimilarChunks queryEmbedding (embeddedChunks s)
           (top_k (search_params context))
           (orDefault (min_similarity_score (search_params context))
              (minSimilarityScore (config s)))) = Ok top /\
    retrieved_chunks result = applyFilters top (filters (search_params context)) /\
    (length (retrieved_chunks result) <= length top)%nat /\
    (forall names,
       names <> [] ->
       filters (search_params context) = Some (onlyFilenames names) ->
       retrieved_chunks result = List.filter (named names) top /\
       (length (List.filter (named names) top) = 1%nat ->
        length (retrieved_chunks result) = 1%nat)) /\
    (filters (search_params context) = None -> retrieved_chunks result = top) /\
    (forall f,
       filters (search_params context) = Some f ->
       exists keep,
         (forall r, keep r = true <-> satisfies f r) /\
         retrieved_chunks result = List.filter keep top).
Proof.
  intros H. destruct (retrieveContent_ok _ _ _ _ _ H) as (q & top & Eq & Ef & Er).
  exists q, top. split; [exact Eq|]. split; [exact Ef|]. split; [exact Er|].
  split; [|split; [|split]].
  - rewrite Er. unfold applyFilters. destruct (filters _); [apply List.filter_length_le|lia].
  - intros names Hn Hf. rewrite Er, Hf. simpl.
    assert (E : List.filter (passes (onlyFilenames names)) top = List.filter (named names) top).
    { apply List.filter_ext. intros r. apply passes_onlyFilenames. exact Hn. }
    rewrite E. split; [reflexivity|]. intros H1. exact H1.
  - intros Hf. rewrite Er, Hf. reflexivity.
  - intros f Hf. exists (passes f). split; [intros r; apply passes_satisfies|].
    rewrite Er, Hf. reflexivity.
Qed.

Lemma filters_apply_to_ranked_list_witness :
  map (fun r => (id (chunk r), rank r)) (retrieved_chunks answer) = [("b.md2"%string, 3)] /\
  length (chunksOf "b.md" store) = 11%nat /\
  exists top,
    map (fun r => id (chunk r)) top = ["a.md0"; "a.md1"; "b.md2"; "a.md3"; "a.md4"]%string /\
    retrieved_chunks answer = List.filter (named ["b.md"%string]) top.
Proof.
  assert (E : retrieveContent plainEnv filteredQuery loaded =
              (fst (retrieveContent plainEnv filteredQuery loaded), Ok answer))
    by (vm_compute; reflexivity).
  destruct (filters_apply_to_ranked_list _ _ _ _ _ E) as (q & top & Eq & Ef & _ & _ & Hn & _).
  destruct (Hn ["b.md"%string] ltac:(discriminate) eq_refl) as [Hr _].
  split; [vm_compute; reflexivity|]. split; [vm_compute; reflexivity|].
  exists top. split; [|exact Hr].
  vm_compute in Eq. injection Eq as <-.
  vm_compute in Ef. injection Ef as <-. reflexivity.
Defined.

(** The filters on dates and on sections act on the ranked five too.  Every
    chunk of the store was created at time 0: a range of dates that holds
    0 keeps the five, a range that starts later keeps none.  No chunk of
    the store has a section, so a set of sections keeps none. *)
Example dates_and_sections_on_ranked_list :
  let ask f :=
    {| query := "what is in b?"; session_id := "s1";
       search_params := {| top_k := 5; min_similarity_score := None; filters := Some f |} |} in
  let ids f :=
    match snd (retrieveContent plainEnv (ask f) loaded) with
    | Ok r => Some (map (fun r => id (chunk r)) (retrieved_chunks r))
    | Throw _ => None
    end in
  ids (KnowledgeSpec.onlyDates 0 5) = Some ["a.md0"; "a.md1"; "b.md2"; "a.md3"; "a.md4"]%string /\
  ids (KnowledgeSpec.onlyDates 1 5) = Some [] /\
  ids (KnowledgeSpec.onlySections ["Setup"%string]) = Some [].
Proof. vm_compute. repeat split; reflexivity. Qed.

End Retrieval.

(* --------------------------------------------------------------------- *)
(** ** Session memory                                                     *)
(* --------------------------------------------------------------------- *)

Module SessionMemory.
Import JS Memory SliceFacts MemorySpec.

(** *** The invariant *)

Lemma consistent_create cfg : consistent (create cfg).
Proof. intros key session H. simpl in H. rewrite lookup_empty in H. discriminate. Qed.

Lemma consistent_insert m key session :
  consistent m -> session_id session = key ->
  consistent (withSessions (<[key := session]> (sessions m)) m).
Proof.
  intros Hc Hk key' session' H. simpl in H.
  destruct (decide (key = key')) as [->|Hne].
  - rewrite lookup_insert_eq in H. congruence.
  - rewrite lookup_insert_ne in H by assumption. apply Hc. exact H.
Qed.

Lemma updateSessionSummary_sessions sessionId summary topics m :
  sessions (updateSessionSummary sessionId summary topics m) = sessions m /\
  config (updateSessionSummary sessionId summary topics m) = config m.
Proof.
  unfold updateSessionSummary. destruct (sessions m !! sessionId); split; reflexivity.
Qed.

Lemma manageSessionSize_consistent ref m :
  consistent m -> consistent (manageSessionSize ref m).
Proof.
  intros Hc. unfold manageSessionSize.
  destruct (sessions m !! ref) as [session|] eqn:E; [|exact Hc].
  destruct (_ <? _); [|exact Hc].
  intros key session' H. simpl in H.
  destruct (updateSessionSummary_sessions (session_id session)
              (createSimpleSummary (slice 0 (Some (- summaryThreshold (config m))) (messages session)))
              (extractTopics (slice 0 (Some (- summaryThreshold (config m))) (messages session)))
              m) as [Hs _].
  rewrite Hs in H.
  destruct (decide (ref = key)) as [->|Hne].
  - rewrite lookup_insert_eq in H. inversion H; subst. simpl. apply Hc. exact E.
  - rewrite lookup_insert_ne in H by assumption. apply Hc. exact H.
Qed.

Lemma addMessage_consistent messageId now sessionId role content metadata m :
  consistent m ->
  consistent (fst (addMessage messageId now sessionId role content metadata m)).
Proof.
  intros Hc. unfold addMessage.
  destruct (sessions m !! sessionId) as [session|] eqn:E; simpl.
  - intros key s' H. simpl in H. revert key s' H.
    apply manageSessionSize_consistent. apply consistent_insert; [exact Hc|].
    simpl. apply Hc. exact E.
  - intros key s' H. simpl in H. revert key s' H.
    apply manageSessionSize_consistent.
    apply (consistent_insert (logged _ (withSessions _ m))); [|reflexivity].
    apply (consistent_insert m); [exact Hc|reflexivity].
Qed.

(** *** Compaction *)

Lemma skipn_length_app {A} (a b : list A) : skipn (length a) (a ++ b) = b.
Proof. induction a as [|x a IH]; simpl; [reflexivity|exact IH]. Qed.

(** What [manageSessionSize] does to a session above the limit. *)
Lemma manageSessionSize_over ref m session :
  sessions m !! ref = Some session ->
  session_id session = ref ->
  maxMessagesPerSession (config m) < Z.of_nat (length (messages session)) ->
  let threshold := summaryThreshold (config m) in
  let removed := slice 0 (Some (- threshold)) (messages session) in
  let kept := slice (- threshold) None (messages session) in
  let m' := manageSessionSize ref m in
  sessions m' !! ref = Some (withMessages kept (updated_at session) session) /\
  sessionSummaries m' !! ref =
    Some {| summary_session_id := ref;
            summary := createSimpleSummary removed;
            message_count := Z.of_nat (length (messages session));
            topics := extractTopics removed;
            last_message_at := updated_at session |} /\
  log m' = log m ++ [debug (String.append "Updated summary for session " ref); trimmed ref].
Proof.
  intros E Hid Hover threshold removed kept m'.
  unfold m', manageSessionSize. rewrite E.
  destruct (Z.ltb_spec (maxMessagesPerSession (config m)) (Z.of_nat (length (messages session))));
    [|lia].
  rewrite Hid. unfold updateSessionSummary. rewrite E. simpl.
  split; [apply lookup_insert_eq|]. split; [apply lookup_insert_eq|].
  rewrite <- app_assoc. reflexivity.
Qed.

(** The state [addMessage] hands to [manageSessionSize]. *)
Lemma addMessage_steps messageId now sessionId role content metadata m :
  let added := {| id := messageId; role := role; content := content;
                  timestamp := now; metadata := metadata |} in
  exists m1 session1 extra,
    fst (addMessage messageId now sessionId role content metadata m) =
      logged (debug (String.append "Added message to session " sessionId))
        (manageSessionSize sessionId m1) /\
    sessions m1 !! sessionId = Some session1 /\
    messages session1 = live sessionId m ++ [added] /\
    (consistent m -> session_id session1 = sessionId) /\
    config m1 = config m /\
    sessionSummaries m1 = sessionSummaries m /\
    log m1 = log m ++ extra /\
    compactions sessionId extra = 0%nat.
Proof.
  intros added. unfold addMessage, live.
  destruct (sessions m !! sessionId) as [session|] eqn:E.
  - eexists _, _, []. split; [reflexivity|]. split; [apply lookup_insert_eq|].
    split; [reflexivity|]. split; [intros Hc; simpl; apply (Hc _ _ E)|].
    split; [reflexivity|]. split; [reflexivity|].
    split; [symmetry; apply app_nil_r|reflexivity].
  - eexists _, _, [_]. split; [reflexivity|]. split; [apply lookup_insert_eq|].
    split; [reflexivity|]. split; [intros _; reflexivity|].
    split; [reflexivity|]. split; [reflexivity|]. split; reflexivity.
Qed.

(** Below the limit nothing is compacted: the message is appended. *)
Lemma addMessage_within_limit (messageId : string) (now : Z) (sessionId : string)
    (role : Role) (content : string) (metadata : list (string * string))
    (m : MemoryService) :
  let added := {| id := messageId; role := role; content := content;
                  timestamp := now; metadata := metadata |} in
  let all := live sessionId m ++ [added] in
  let m' := fst (addMessage messageId now sessionId role content metadata m) in
  Z.of_nat (length all) <= maxMessagesPerSession (config m) ->
  live sessionId m' = all /\
  compactions sessionId (written m m') = 0%nat /\
  sessionSummaries m' = sessionSummaries m.
Proof.
  intros added all m' Hle.
  destruct (addMessage_steps messageId now sessionId role content metadata m)
    as (m1 & session1 & extra & Hm' & Hlook & Hall & _ & Hcfg & Hsum & Hlog & Hextra).
  fold added in Hall. fold all in Hall. fold m' in Hm'.
  assert (Hsame : manageSessionSize sessionId m1 = m1).
  { unfold manageSessionSize. rewrite Hlook, Hcfg, Hall.
    destruct (Z.ltb_spec (maxMessagesPerSession (config m)) (Z.of_nat (length all)));
      [lia|reflexivity]. }
  rewrite Hsame in Hm'. rewrite Hm'. split; [|split].
  - unfold live. simpl. rewrite Hlook. exact Hall.
  - unfold written. change (log (logged ?e ?x)) with (log x ++ [e]).
    rewrite Hlog, <- app_assoc, skipn_length_app.
    unfold compactions in *. rewrite List.filter_app, length_app, Hextra. reflexivity.
  - exact Hsum.
Qed.

(** C7 (amended).  When [0 < summaryThreshold <= maxMessagesPerSession],
    the [addMessage] that takes a session above [maxMessagesPerSession]
    compacts it exactly once: afterwards the live messages are the last
    [summaryThreshold] of the messages so far, a summary record of the
    session exists (counting all messages so far and describing the removed
    ones), and the removed messages, of which there is at least one, are in
    no list the service reads from. *)
Theorem addMessage_compaction (messageId : string) (now : Z) (sessionId : string)
    (role : Role) (content : string) (metadata : list (string * string))
    (m : MemoryService) :
  let added := {| id := messageId; role := role; content := content;
                    timestamp := now; metadata := metadata |} in
  let all := live sessionId m ++ [added] in
  let threshold := summaryThreshold (config m) in
  let removed := firstn (length all - Z.to_nat threshold) all in
  let m' := fst (addMessage messageId now sessionId role content metadata m) in
  consistent m ->
  maxMessagesPerSession (config m) < Z.of_nat (length all) ->
  0 < threshold <= maxMessagesPerSession (config m) ->
  compactions sessionId (written m m') = 1%nat /\
  live sessionId m' = skipn (length all - Z.to_nat threshold) all /\
  Z.of_nat (length (live sessionId m')) = threshold /\
  (exists record,
     sessionSummaries m' !! sessionId = Some record /\
     summary_session_id record = sessionId /\
     message_count record = Z.of_nat (length all) /\
     summary record = createSimpleSummary removed) /\
  all = removed ++ live sessionId m' /\
  removed <> [] /\
  getConversationHistory sessionId None m' = live sessionId m' /\
  (forall n, recentMessages (getRecentContext sessionId n m') =
             slice (- n) None (live sessionId m')).
Proof.
  intros added all threshold removed m' Hc Hover Hthr.
  destruct (addMessage_steps messageId now sessionId role content metadata m)
    as (m1 & session1 & extra & Hm' & Hlook & Hall & Hid & Hcfg & _ & Hlog1 & Hextra).
  fold added in Hall. fold all in Hall. fold m' in Hm'. specialize (Hid Hc).
  assert (Hover1 : maxMessagesPerSession (config m1) < Z.of_nat (length (messages session1))).
  { rewrite Hcfg, Hall. exact Hover. }
  destruct (manageSessionSize_over sessionId m1 session1 Hlook Hid Hover1) as (Hs & Hsum & Hlog).
  rewrite Hcfg, Hall in Hs, Hsum. fold threshold in Hs, Hsum.
  rewrite slice_suffix in Hs by lia.
  rewrite slice_without_suffix in Hsum by lia. fold removed in Hsum.
  assert (Hlive : live sessionId m' = skipn (length all - Z.to_nat threshold) all).
  { unfold live. rewrite Hm'. simpl. rewrite Hs. reflexivity. }
  split; [|split; [|split; [|split; [|split; [|split; [|split]]]]]].
  - unfold written. rewrite Hm'. change (log (logged ?e ?x)) with (log x ++ [e]).
    rewrite Hlog, Hlog1, <- !app_assoc, skipn_length_app.
    unfold compactions in *. rewrite List.filter_app, length_app, Hextra.
    simpl. rewrite String.eqb_refl. reflexivity.
  - exact Hlive.
  - rewrite Hlive, length_skipn. lia.
  - eexists. split; [rewrite Hm'; simpl; exact Hsum|]. repeat split.
  - rewrite Hlive. unfold removed. symmetry. apply firstn_skipn.
  - unfold removed. intros Hnil. apply (f_equal (@length _)) in Hnil.
    rewrite length_firstn in Hnil. simpl in Hnil. lia.
  - unfold getConversationHistory, live. destruct (sessions m' !! sessionId); reflexivity.
  - intros n. unfold getRecentContext, live.
    destruct (sessions m' !! sessionId); [reflexivity|].
    simpl. symmetry. apply slice_nil.
Qed.

Lemma chat_consistent n m : consistent m -> consistent (chat n m).
Proof.
  intros Hc. induction n as [|n IH]; simpl; [exact Hc|].
  apply addMessage_consistent. exact IH.
Qed.

Lemma addMessage_compaction_witness :
  map content (live "s" (chat 4 (create smallConfig))) =
    ["question number 3"; "question number 4"]%string /\
  compactions "s" (written (chat 3 (create smallConfig)) (chat 4 (create smallConfig))) = 1%nat /\
  exists record,
    sessionSummaries (chat 4 (create smallConfig)) !! "s"%string = Some record /\
    message_count record = 4.
Proof.
  destruct (addMessage_compaction "msg_4" 4 "s" user "question number 4" []
              (chat 3 (create smallConfig)))
    as (Hone & Hlive & _ & (record & Hrec & _ & Hcount & _) & _).
  - apply chat_consistent. apply consistent_create.
  - vm_compute. reflexivity.
  - split; vm_compute; [reflexivity|discriminate].
  - split; [|split].
    + change (chat 4 (create smallConfig))
        with (fst (addMessage "msg_4" 4 "s" user "question number 4" []
                     (chat 3 (create smallConfig)))).
      rewrite Hlive. vm_compute. reflexivity.
    + exact Hone.
    + exists record. split; [exact Hrec|]. rewrite Hcount. vm_compute. reflexivity.
Defined.

(** The claim C7 as stated holds for no configuration whose
    [summaryThreshold] is above the number of messages at the compaction:
    with a limit of 2 and a threshold of 5 the third message triggers a
    compaction that keeps all three messages, not five. *)
Lemma compaction_keeps_fewer_than_threshold :
  compactions "s" (written (chat 2 (create wideConfig)) (chat 3 (create wideConfig))) = 1%nat /\
  length (live "s" (chat 3 (create wideConfig))) = 3%nat /\
  Z.of_nat (length (live "s" (chat 3 (create wideConfig))))
    <> summaryThreshold (config (chat 3 (create wideConfig))).
Proof. vm_compute. repeat split; discriminate. Qed.

(** [fromConfig] with a history length of 1 sets the threshold to
    [Math.floor(0.7) = 0]; [slice(-0)] then keeps every message, so the
    session is compacted at every message from the second on and never
    shrinks. *)
Lemma zero_threshold_keeps_everything :
  summaryThreshold (config (fromConfig 1)) = 0 /\
  length (live "s" (chat 2 (fromConfig 1))) = 2%nat /\
  length (live "s" (chat 5 (fromConfig 1))) = 5%nat /\
  compactions "s" (written (fromConfig 1) (chat 5 (fromConfig 1))) = 4%nat.
Proof. vm_compute. repeat split. Qed.

End SessionMemory.

(* --------------------------------------------------------------------- *)
(** ** Plugin dispatcher                                                  *)
(* --------------------------------------------------------------------- *)

Module Dispatcher.
Import JS Plugins Binary64 Order FloatOrder SortFacts SliceFacts DispatchSpec.

(** *** Selection *)

Lemma activationLoop_activated input context ps :
  fst (activationLoop input context ps) =
  List.filter (fun p => enabled p && activates input context p) ps.
Proof.
  induction ps as [|p ps IH]; [reflexivity|].
  simpl. destruct (activationLoop input context ps) as [act entries]. simpl in IH.
  unfold activates. destruct (enabled p); simpl; [|exact IH].
  destruct (shouldActivate p input context) as [[|]|m]; simpl; rewrite IH; reflexivity.
Qed.

Lemma findActivatedPlugins_unfold input context s :
  fst (findActivatedPlugins input context s) =
  slice 0 (Some (max_plugins_per_request (config s)))
    (sort byPriorityDescending (activated input context s)).
Proof.
  unfold findActivatedPlugins, activated.
  rewrite <- activationLoop_activated.
  destruct (activationLoop input context (map snd (plugins s))). reflexivity.
Qed.

Lemma executeOne_id timeout input context p :
  plugin_id (fst (fst (executeOne timeout input context p))) = name p.
Proof.
  unfold executeOne. destruct (race _ _ _) as [[r|m] waited]; reflexivity.
Qed.

Lemma parallelTurns_ids timeout ps input context : forall started,
  map (fun turn => plugin_id (fst (fst turn))) (parallelTurns timeout started ps input context)
    = map name ps.
Proof.
  induction ps as [|p ps IH]; intros started; simpl; [reflexivity|].
  pose proof (executeOne_id timeout input context p) as H1.
  destruct (executeOne timeout input context p) as [[r e] w]. simpl in *.
  rewrite IH. congruence.
Qed.

Lemma executePlugins_ids s ps input context :
  map plugin_id (fst (fst (executePlugins s ps input context))) = map name ps.
Proof.
  unfold executePlugins. destruct (execution_mode (config s)).
  - unfold executePluginsParallel. cbn [fst]. rewrite map_map. apply parallelTurns_ids.
  - induction ps as [|p ps IH]; simpl; try reflexivity.
    pose proof (executeOne_id (plugin_timeout_ms (config s)) input context p) as H1.
    destruct (executeOne _ _ _ p) as [[r e] w].
    destruct (executePluginsSequential _ ps _ _) as [[rs es] ws]. simpl in *. congruence.
Qed.

Lemma processInput_executed input context s :
  config_enabled (config s) = true ->
  map plugin_id (plugins_executed (snd (processInput input context s))) =
  map name (fst (findActivatedPlugins input context s)).
Proof.
  intros He. unfold processInput. rewrite He. simpl negb. cbv iota.
  destruct (findActivatedPlugins input context s) as [act entries]. simpl fst.
  destruct act as [|p act]; [reflexivity|].
  simpl (length _ =? 0)%nat. cbv iota.
  set (s1 := {| plugins := plugins s; config := config s; log := log s ++ entries |}).
  pose proof (executePlugins_ids s1 (p :: act) input context) as H.
  destruct (executePlugins s1 (p :: act) input context) as [[rs es] w]. exact H.
Qed.




(** *** Timeouts *)






















(** Work that [execute] does before it returns its promise is not timed:
    a plugin that computes for a minute under a time-out of 30 seconds is
    recorded with its own result, nothing is logged, and the dispatch takes
    the minute, in either mode. *)
Example synchronous_work_is_not_timed_out :
  executePlugins service [heavy] "hello" {| session_id := "s" |} =
    ([ {| plugin_id := "heavy"; result_ := carrying "done" |} ], [], 60000) /\
  executePlugins (inMode parallel service) [heavy] "hello" {| session_id := "s" |} =
    executePlugins service [heavy] "hello" {| session_id := "s" |}.
Proof. vm_compute. split; reflexivity. Qed.

(** In parallel mode the results come in the order of the plugins, but the
    errors are logged as the plugins settle: the plugin that throws at once
    is logged before the one that times out, and the dispatch takes the
    30 seconds once. *)
Example parallel_mode_logs_as_plugins_settle :
  let run :=
    executePlugins (inMode parallel service) [slow; broken] "hello" {| session_id := "s" |} in
  map plugin_id (fst (fst run)) = ["slow"; "broken"]%string /\
  map error_data (snd (fst run)) =
    [Some "boom"; Some "Plugin slow execution timed out after 30000ms"]%string /\
  snd run = 30000.
Proof. vm_compute. repeat split; reflexivity. Qed.

End Dispatcher.

(* --------------------------------------------------------------------- *)
(** ** Session housekeeping                                            *)
(* --------------------------------------------------------------------- *)

Module History.
Import JS Memory Sessions SliceFacts MemorySpec HistorySpec SessionMemory.

Lemma slice_from {A} (k : Z) (l : list A) :
  0 <= k -> slice k None l = skipn (Z.to_nat k) l.
Proof.
  intros Hk. unfold slice, relIndex.
  destruct (Z.ltb_spec k 0); [lia|].
  rewrite firstn_all2 by (rewrite length_skipn; lia).
  destruct (Z.le_gt_cases k (Z.of_nat (length l))).
  - rewrite Z.min_l by lia. reflexivity.
  - rewrite Z.min_r by lia. rewrite Nat2Z.id.
    rewrite skipn_all. symmetry. apply skipn_all2. lia.
Qed.

Lemma slice_last {A} (n : Z) (l : list A) :
  0 < n -> slice (- n) None l = lastN (Z.to_nat n) l.
Proof. intros Hn. apply slice_suffix. exact Hn. Qed.

(** *** Reading with a limit *)

(** X1.  [getConversationHistory] returns the whole stored history of a
    session when the limit is missing, zero or negative, and its last
    [limit] messages otherwise.  [getRecentContext] returns the last
    [maxMessages] messages for a positive [maxMessages], the whole history
    for 0, the history without its first [- maxMessages] messages for a
    negative value, and always reports the full length as [totalMessages]. *)
Theorem history_limits (sessionId : string) (m : MemoryService) :
  let history := live sessionId m in
  (forall limit, getConversationHistory sessionId limit m =
     match limit with
     | Some n => if 0 <? n then lastN (Z.to_nat n) history else history
     | None => history
     end) /\
  (forall maxMessages, recentMessages (getRecentContext sessionId maxMessages m) =
     if 0 <? maxMessages then lastN (Z.to_nat maxMessages) history
     else skipn (Z.to_nat (- maxMessages)) history) /\
  recentMessages (getRecentContext sessionId 0 m) = history /\
  (forall maxMessages,
     Memory.totalMessages (getRecentContext sessionId maxMessages m) =
     Z.of_nat (length history)).
Proof.
  intros history. unfold history, live, getConversationHistory, getRecentContext.
  destruct (sessions m !! sessionId) as [session|]; simpl.
  - split; [|split; [|split]].
    + intros [n|]; [|reflexivity]. destruct (Z.ltb_spec 0 n); [|reflexivity].
      apply slice_last. assumption.
    + intros n. destruct (Z.ltb_spec 0 n).
      * apply slice_last. assumption.
      * apply slice_from. lia.
    + apply slice_minus_zero.
    + reflexivity.
  - split; [|split; [|split]].
    + intros [n|]; [|reflexivity]. destruct (0 <? n); reflexivity.
    + intros n. destruct (0 <? n); [reflexivity|]. symmetry. apply skipn_nil.
    + reflexivity.
    + reflexivity.
Qed.

(** *** What one [addMessage] changes *)

Lemma manageSessionSize_sessions ref m :
  sessions (manageSessionSize ref m) =
    match sessions m !! ref with
    | Some session =>
        if maxMessagesPerSession (config m) <? Z.of_nat (length (messages session))
        then <[ref := withMessages (slice (- summaryThreshold (config m)) None (messages session))
                        (updated_at session) session]> (sessions m)
        else sessions m
    | None => sessions m
    end /\
  config (manageSessionSize ref m) = config m.
Proof.
  unfold manageSessionSize. destruct (sessions m !! ref) as [session|] eqn:E; [|split; reflexivity].
  destruct (_ <? _); [|split; reflexivity].
  destruct (updateSessionSummary_sessions (session_id session)
              (createSimpleSummary (slice 0 (Some (- summaryThreshold (config m))) (messages session)))
              (extractTopics (slice 0 (Some (- summaryThreshold (config m))) (messages session)))
              m) as [Hs Hc].
  simpl. rewrite Hs, Hc. split; reflexivity.
Qed.

Lemma manageSessionSize_summaries ref m session :
  sessions m !! ref = Some session -> session_id session = ref ->
  forall other, other <> ref ->
  sessionSummaries (manageSessionSize ref m) !! other = sessionSummaries m !! other.
Proof.
  intros E Hid other Hne. unfold manageSessionSize. rewrite E.
  destruct (_ <? _); [|reflexivity].
  rewrite Hid. unfold updateSessionSummary. rewrite E. simpl.
  apply lookup_insert_ne. congruence.
Qed.

(** The live messages after [addMessage], in terms of those before. *)
Lemma addMessage_live messageId now sessionId role content metadata m :
  let added := {| id := messageId; role := role; content := content;
                  timestamp := now; metadata := metadata |} in
  let all := live sessionId m ++ [added] in
  let m' := fst (addMessage messageId now sessionId role content metadata m) in
  live sessionId m' =
    (if maxMessagesPerSession (config m) <? Z.of_nat (length all)
     then slice (- summaryThreshold (config m)) None all else all) /\
  (forall other, other <> sessionId -> sessions m' !! other = sessions m !! other) /\
  config m' = config m.
Proof.
  intros added all m'. unfold m', all, live, addMessage.
  destruct (sessions m !! sessionId) as [session|] eqn:E; cbv zeta.
  - match goal with |- context [manageSessionSize sessionId ?x] => set (m1 := x) end.
    destruct (manageSessionSize_sessions sessionId m1) as [Hs Hc].
    unfold m1 in Hs at 2 3 4 5 6. simpl in Hs. rewrite lookup_insert_eq in Hs. simpl in Hs.
    simpl. rewrite Hs, Hc. fold added.
    split; [|split; [|reflexivity]].
    + destruct (_ <? _); rewrite lookup_insert_eq; reflexivity.
    + intros other Hne. destruct (_ <? _); rewrite !lookup_insert_ne by congruence; reflexivity.
  - match goal with |- context [manageSessionSize sessionId ?x] => set (m1 := x) end.
    destruct (manageSessionSize_sessions sessionId m1) as [Hs Hc].
    unfold m1 in Hs at 2 3 4 5 6. simpl in Hs. rewrite lookup_insert_eq in Hs. simpl in Hs.
    simpl. rewrite Hs, Hc. fold added.
    split; [|split; [|reflexivity]].
    + destruct (_ <? _); rewrite lookup_insert_eq; reflexivity.
    + intros other Hne. destruct (_ <? _); rewrite !lookup_insert_ne by congruence; reflexivity.
Qed.


Lemma slice_tail_suffix {A} (k : Z) (l : list A) :
  exists dropped, l = dropped ++ slice k None l.
Proof.
  unfold slice. set (n := Z.to_nat (relIndex _ k)).
  rewrite firstn_all2 by (rewrite length_skipn; lia).
  exists (firstn n l). symmetry. apply firstn_skipn.
Qed.

Lemma last_slice_snoc {A} (t : Z) (l : list A) (x : A) :
  0 <= t -> last (slice (- t) None (l ++ [x])) = Some x.
Proof.
  intros Ht. destruct (Z.eq_dec t 0) as [->|Hne].
  - rewrite slice_minus_zero. apply last_snoc.
  - rewrite slice_suffix by lia. rewrite length_app. simpl length.
    rewrite skipn_app.
    replace (length l + 1 - Z.to_nat t - length l)%nat with 0%nat by lia.
    simpl. apply last_snoc.
Qed.

Lemma addMessage_summaries messageId now sessionId role content metadata m :
  consistent m ->
  forall other, other <> sessionId ->
  sessionSummaries (fst (addMessage messageId now sessionId role content metadata m)) !! other =
  sessionSummaries m !! other.
Proof.
  intros Hc other Hne.
  destruct (addMessage_steps messageId now sessionId role content metadata m)
    as (m1 & session1 & extra & Hm' & Hlook & _ & Hid & _ & Hsum & _ & _).
  rewrite Hm'. simpl.
  rewrite (manageSessionSize_summaries sessionId m1 session1 Hlook (Hid Hc) other Hne).
  rewrite Hsum. reflexivity.
Qed.

(** X2.  When every session is stored under its own id and the threshold
    is not negative, [addMessage] returns the message it built; that message
    is the last one of the session afterwards; the history afterwards is a
    suffix of the old history followed by the new message; the histories and
    summaries of all other sessions are unchanged. *)
Theorem addMessage_appends (messageId : string) (now : Z) (sessionId : string)
    (role : Role) (content : string) (metadata : list (string * string))
    (m : MemoryService) :
  let added := {| id := messageId; role := role; content := content;
                  timestamp := now; metadata := metadata |} in
  let m' := fst (addMessage messageId now sessionId role content metadata m) in
  consistent m ->
  0 <= summaryThreshold (config m) ->
  snd (addMessage messageId now sessionId role content metadata m) = added /\
  last (live sessionId m') = Some added /\
  (exists dropped, live sessionId m ++ [added] = dropped ++ live sessionId m') /\
  (forall other, other <> sessionId ->
     live other m' = live other m /\ summaryOf other m' = summaryOf other m).
Proof.
  intros added m' Hc Ht.
  destruct (addMessage_live messageId now sessionId role content metadata m)
    as (Hlive & Hother & _).
  fold added in Hlive. fold m' in Hlive, Hother.
  split; [|split; [|split]].
  - unfold addMessage. destruct (sessions m !! sessionId); reflexivity.
  - rewrite Hlive. destruct (_ <? _).
    + apply last_slice_snoc. exact Ht.
    + apply last_snoc.
  - rewrite Hlive. destruct (_ <? _).
    + apply slice_tail_suffix.
    + exists []. reflexivity.
  - intros other Hne. split.
    + unfold live. rewrite (Hother other Hne). reflexivity.
    + unfold summaryOf. apply addMessage_summaries; assumption.
Qed.

Lemma addMessage_appends_witness :
  map content (live "s" (fst (addMessage "msg_4" 4 "s" user "question number 4" [] twoSessions)))
    = ["question number 3"; "question number 4"]%string /\
  map content (live "t" (fst (addMessage "msg_4" 4 "s" user "question number 4" [] twoSessions)))
    = ["another topic"]%string.
Proof.
  assert (Hc : consistent twoSessions).
  { apply addMessage_consistent. apply chat_consistent. apply consistent_create. }
  destruct (addMessage_appends "msg_4" 4 "s" user "question number 4" [] twoSessions Hc)
    as (_ & _ & _ & Hother).
  - vm_compute. discriminate.
  - split.
    + vm_compute. reflexivity.
    + rewrite (proj1 (Hother "t"%string ltac:(discriminate))). vm_compute. reflexivity.
Defined.

(** *** The size limit as an invariant *)

Lemma serve_config m r : config (serve m r) = config m.
Proof.
  destruct r; simpl.
  - apply addMessage_live.
  - unfold clearSession. destruct (bool_decide _); reflexivity.
  - reflexivity.
  - unfold cleanupExpiredSessions. destruct (_ <? _)%nat; reflexivity.
Qed.

Lemma live_cleanup now m sessionId :
  live sessionId (cleanupExpiredSessions now m) =
    match sessions m !! sessionId with
    | Some session =>
        if expiredAt (now - sessionTTL (config m)) session then [] else messages session
    | None => []
    end.
Proof.
  unfold live.
  assert (Hs : sessions (cleanupExpiredSessions now m) =
               fold_right delete (sessions m) (expiredSessions (now - sessionTTL (config m)) m)).
  { unfold cleanupExpiredSessions. destruct (_ <? _)%nat; reflexivity. }
  rewrite Hs. clear Hs.
  set (cutoff := now - sessionTTL (config m)).
  destruct (sessions m !! sessionId) as [session|] eqn:E.
  - destruct (expiredAt cutoff session) eqn:Ex.
    + rewrite lookup_foldr_delete; [reflexivity|].
      apply list_elem_of_In. unfold expiredSessions. apply in_map_iff.
      exists (sessionId, session). split; [reflexivity|].
      apply filter_In. split; [|exact Ex].
      apply list_elem_of_In. apply elem_of_map_to_list. exact E.
    + rewrite lookup_foldr_delete_not_elem_of; [rewrite E; reflexivity|].
      intros Hin. apply list_elem_of_In in Hin. unfold expiredSessions in Hin.
      apply in_map_iff in Hin. destruct Hin as ([k s'] & Hk & Hin). simpl in Hk. subst k.
      apply filter_In in Hin. destruct Hin as [Hin Hex].
      apply list_elem_of_In, elem_of_map_to_list in Hin.
      rewrite E in Hin. inversion Hin; subst. simpl in Hex. unfold expiredAt in Ex. congruence.
  - destruct (fold_right delete (sessions m) (expiredSessions cutoff m) !! sessionId) eqn:F;
      [|reflexivity].
    apply lookup_foldr_delete_Some in F. destruct F as [_ F]. congruence.
Qed.

Lemma serve_bounded m r :
  0 < summaryThreshold (config m) <= maxMessagesPerSession (config m) ->
  bounded (maxMessagesPerSession (config m)) m ->
  bounded (maxMessagesPerSession (config m)) (serve m r).
Proof.
  intros Ht Hb sessionId. destruct r as [messageId now target role content| target | | now]; simpl.
  - destruct (addMessage_live messageId now target role content [] m) as (Hlive & Hother & _).
    destruct (decide (sessionId = target)) as [->|Hne].
    + rewrite Hlive. destruct (Z.ltb_spec (maxMessagesPerSession (config m))
                                 (Z.of_nat (length (live target m ++ [ {| id := messageId; role := role; content := content; timestamp := now; metadata := [] |} ])))).
      * rewrite slice_suffix by lia. rewrite length_skipn. lia.
      * lia.
    + unfold live. rewrite (Hother sessionId Hne). apply Hb.
  - unfold live, clearSession.
    assert (Hs : sessions (if bool_decide (is_Some (sessions m !! target))
                   then logged (info (String.append "Cleared session: " target))
                          (withSummaries (delete target (sessionSummaries m))
                             (withSessions (delete target (sessions m)) m))
                   else withSummaries (delete target (sessionSummaries m))
                          (withSessions (delete target (sessions m)) m))
                 = delete target (sessions m)).
    { destruct (bool_decide _); reflexivity. }
    simpl. rewrite Hs. destruct (decide (target = sessionId)) as [->|Hne].
    + rewrite lookup_delete_eq. simpl. lia.
    + rewrite lookup_delete_ne by assumption. apply Hb.
  - unfold live. simpl. rewrite lookup_empty. simpl. lia.
  - rewrite live_cleanup. specialize (Hb sessionId). unfold live in Hb.
    destruct (sessions m !! sessionId) as [session|]; [|simpl; lia].
    destruct (expiredAt _ _); [simpl; lia|exact Hb].
Qed.

(** X3.  With [0 < summaryThreshold <= maxMessagesPerSession], no sequence
    of [addMessage], [clearSession], [clearAllSessions] and
    [cleanupExpiredSessions] calls makes a session hold more than
    [maxMessagesPerSession] messages if none did before, and the
    configuration never changes. *)
Theorem sessions_stay_bounded (requests : list Request) (m : MemoryService) :
  0 < summaryThreshold (config m) <= maxMessagesPerSession (config m) ->
  bounded (maxMessagesPerSession (config m)) m ->
  bounded (maxMessagesPerSession (config m)) (served requests m) /\
  config (served requests m) = config m.
Proof.
  revert m. induction requests as [|r requests IH]; intros m Ht Hb; [split; [exact Hb|reflexivity]|].
  simpl. pose proof (serve_config m r) as Hc.
  destruct (IH (serve m r)) as [Hb' Hc'].
  - rewrite Hc. exact Ht.
  - rewrite Hc. apply serve_bounded; assumption.
  - rewrite Hc in Hb'. split; [exact Hb'|]. rewrite Hc'. exact Hc.
Qed.

Lemma sessions_stay_bounded_witness :
  bounded 3 (served [Add "a" 1 "s" user "one"; Add "b" 2 "s" assistant "two";
                     Add "c" 3 "t" user "three"; Sweep 500; Add "d" 4 "s" user "four";
                     Add "e" 5 "s" user "five"; Clear "t"; Add "f" 6 "s" user "six"]
               (create smallConfig)) /\
  map content (live "s"
    (served [Add "a" 1 "s" user "one"; Add "b" 2 "s" assistant "two";
             Add "c" 3 "t" user "three"; Sweep 500; Add "d" 4 "s" user "four";
             Add "e" 5 "s" user "five"; Clear "t"; Add "f" 6 "s" user "six"]
       (create smallConfig))) = ["four"; "five"; "six"]%string.
Proof.
  split.
  - apply (sessions_stay_bounded
             [Add "a" 1 "s" user "one"; Add "b" 2 "s" assistant "two";
              Add "c" 3 "t" user "three"; Sweep 500; Add "d" 4 "s" user "four";
              Add "e" 5 "s" user "five"; Clear "t"; Add "f" 6 "s" user "six"]
             (create smallConfig)).
    + vm_compute. split; [reflexivity|discriminate].
    + intros sessionId. unfold live. simpl. rewrite lookup_empty. simpl. lia.
  - vm_compute. reflexivity.
Defined.

(** *** Forgetting sessions *)

Lemma clearSession_maps sessionId m :
  sessions (fst (clearSession sessionId m)) = delete sessionId (sessions m) /\
  sessionSummaries (fst (clearSession sessionId m)) = delete sessionId (sessionSummaries m).
Proof. unfold clearSession. simpl. destruct (bool_decide _); split; reflexivity. Qed.

(** X4.  After [clearSession] the session has no history, no recent context
    and no summary, a second [clearSession] of it returns [false], and every
    other session keeps its history and its summary. *)
Theorem clearSession_forgets (sessionId : string) (m : MemoryService) :
  let m' := fst (clearSession sessionId m) in
  (forall limit, getConversationHistory sessionId limit m' = []) /\
  (forall n, getRecentContext sessionId n m' =
             {| recentMessages := []; recentSummary := None; Memory.totalMessages := 0 |}) /\
  summaryOf sessionId m' = None /\
  snd (clearSession sessionId m') = false /\
  (forall other, other <> sessionId ->
     live other m' = live other m /\ summaryOf other m' = summaryOf other m).
Proof.
  intros m'. destruct (clearSession_maps sessionId m) as [Hs Hsum]. fold m' in Hs, Hsum.
  assert (Hnone : sessions m' !! sessionId = None) by (rewrite Hs; apply lookup_delete_eq).
  split; [|split; [|split; [|split]]].
  - intros limit. unfold getConversationHistory. rewrite Hnone. reflexivity.
  - intros n. unfold getRecentContext. rewrite Hnone. reflexivity.
  - unfold summaryOf. rewrite Hsum. apply lookup_delete_eq.
  - unfold clearSession. simpl. rewrite Hnone. apply bool_decide_eq_false.
    intros [x Hx]. discriminate.
  - intros other Hne. unfold live, summaryOf. rewrite Hs, Hsum.
    rewrite !lookup_delete_ne by congruence. split; reflexivity.
Qed.

Lemma cleanup_maps now m :
  sessions (cleanupExpiredSessions now m) =
    fold_right delete (sessions m) (expiredSessions (now - sessionTTL (config m)) m) /\
  sessionSummaries (cleanupExpiredSessions now m) =
    fold_right delete (sessionSummaries m) (expiredSessions (now - sessionTTL (config m)) m) /\
  config (cleanupExpiredSessions now m) = config m.
Proof. unfold cleanupExpiredSessions. destruct (_ <? _)%nat; repeat split; reflexivity. Qed.

Lemma expiredSessions_In cutoff m sessionId :
  In sessionId (expiredSessions cutoff m) <->
  exists session, sessions m !! sessionId = Some session /\ expiredAt cutoff session = true.
Proof.
  unfold expiredSessions. rewrite in_map_iff. split.
  - intros ([k s] & Hk & Hin). simpl in Hk. subst k.
    apply filter_In in Hin. destruct Hin as [Hin Hex].
    apply list_elem_of_In, elem_of_map_to_list in Hin. exists s. split; assumption.
  - intros (s & E & Hex). exists (sessionId, s). split; [reflexivity|].
    apply filter_In. split; [|exact Hex].
    apply list_elem_of_In, elem_of_map_to_list. exact E.
Qed.

Lemma getActiveSessions_In now m sessionId :
  In sessionId (getActiveSessions now m) <->
  exists session, sessions m !! sessionId = Some session /\
                  activeAt (now - sessionTTL (config m)) session = true.
Proof.
  unfold getActiveSessions. rewrite in_map_iff. split.
  - intros ([k s] & Hk & Hin). simpl in Hk. subst k.
    apply filter_In in Hin. destruct Hin as [Hin Hex].
    apply list_elem_of_In, elem_of_map_to_list in Hin. exists s. split; assumption.
  - intros (s & E & Hex). exists (sessionId, s). split; [reflexivity|].
    apply filter_In. split; [|exact Hex].
    apply list_elem_of_In, elem_of_map_to_list. exact E.
Qed.

(** X5.  [cleanupExpiredSessions] deletes exactly the sessions last updated
    before [now - sessionTTL], with their summaries; [getActiveSessions]
    lists exactly the sessions updated after that time, so the sweep removes
    no active session.  A session updated exactly at the cutoff is kept by
    the sweep and yet is not listed as active. *)
Theorem cleanup_keeps_active (now : Z) (m : MemoryService) :
  let cutoff := now - sessionTTL (config m) in
  let m' := cleanupExpiredSessions now m in
  (forall sessionId,
     sessions m' !! sessionId =
       match sessions m !! sessionId with
       | Some session => if expiredAt cutoff session then None else Some session
       | None => None
       end) /\
  (forall sessionId session,
     sessions m !! sessionId = Some session ->
     summaryOf sessionId m' =
       if expiredAt cutoff session then None else summaryOf sessionId m) /\
  (forall sessionId,
     In sessionId (getActiveSessions now m) <->
     exists session, sessions m !! sessionId = Some session /\ activeAt cutoff session = true) /\
  (forall sessionId,
     In sessionId (getActiveSessions now m') <-> In sessionId (getActiveSessions now m)) /\
  (forall sessionId session,
     sessions m !! sessionId = Some session -> updated_at session = cutoff ->
     sessions m' !! sessionId = Some session /\ ~ In sessionId (getActiveSessions now m)).
Proof.
  intros cutoff m'. destruct (cleanup_maps now m) as (Hs & Hsum & Hcfg).
  fold cutoff in Hs, Hsum. fold m' in Hs, Hsum, Hcfg.
  assert (Hlook : forall sessionId,
     sessions m' !! sessionId =
       match sessions m !! sessionId with
       | Some session => if expiredAt cutoff session then None else Some session
       | None => None
       end).
  { intros sessionId. rewrite Hs.
    destruct (sessions m !! sessionId) as [session|] eqn:E.
    - destruct (expiredAt cutoff session) eqn:Ex.
      + apply lookup_foldr_delete. apply list_elem_of_In, expiredSessions_In. eauto.
      + rewrite lookup_foldr_delete_not_elem_of; [exact E|].
        intros Hin. apply list_elem_of_In, expiredSessions_In in Hin.
        destruct Hin as (s & E' & Hex). congruence.
    - destruct (fold_right delete (sessions m) (expiredSessions cutoff m) !! sessionId) eqn:F;
        [|reflexivity].
      apply lookup_foldr_delete_Some in F. destruct F as [_ F]. congruence. }
  split; [exact Hlook|]. split; [|split; [|split]].
  - intros sessionId session E. unfold summaryOf. rewrite Hsum.
    destruct (expiredAt cutoff session) eqn:Ex.
    + apply lookup_foldr_delete. apply list_elem_of_In, expiredSessions_In. eauto.
    + apply lookup_foldr_delete_not_elem_of.
      intros Hin. apply list_elem_of_In, expiredSessions_In in Hin.
      destruct Hin as (s & E' & Hex). congruence.
  - intros sessionId. apply getActiveSessions_In.
  - intros sessionId. rewrite !getActiveSessions_In. rewrite Hcfg. fold cutoff.
    rewrite Hlook. split.
    + intros (s & E & Ha). destruct (sessions m !! sessionId) as [session|]; [|discriminate].
      destruct (expiredAt cutoff session); [discriminate|]. inversion E; subst. eauto.
    + intros (s & E & Ha). rewrite E. exists s.
      assert (Hex : expiredAt cutoff s = false).
      { unfold expiredAt, activeAt in *. apply Z.ltb_lt in Ha. apply Z.ltb_ge. lia. }
      rewrite Hex. split; [reflexivity|exact Ha].
  - intros sessionId session E Heq. split.
    + rewrite Hlook, E. unfold expiredAt. rewrite Heq, Z.ltb_irrefl. reflexivity.
    + rewrite getActiveSessions_In. fold cutoff. intros (s & E' & Ha).
      rewrite E in E'. inversion E'; subst s. unfold activeAt in Ha.
      rewrite Heq, Z.ltb_irrefl in Ha. discriminate.
Qed.

(** *** Importing a session *)

(** X6.  [importSession] of data with a non-empty [session_id] succeeds and
    replaces the stored session of that id by the imported one, while a
    summary filed earlier for that id stays as it was; the other sessions
    are untouched and sessions remain stored under their own ids. *)
Theorem importSession_replaces (sessionData : ConversationSession) (m : MemoryService) :
  let m' := fst (importSession sessionData m) in
  session_id sessionData <> EmptyString ->
  snd (importSession sessionData m) = Ok tt /\
  live (session_id sessionData) m' = messages sessionData /\
  summaryOf (session_id sessionData) m' = summaryOf (session_id sessionData) m /\
  (forall other, other <> session_id sessionData ->
     live other m' = live other m /\ summaryOf other m' = summaryOf other m) /\
  (consistent m -> consistent m').
Proof.
  intros m' Hne. unfold m', importSession.
  destruct (String.eqb_spec (session_id sessionData) EmptyString) as [Heq|_]; [contradiction|].
  simpl. split; [reflexivity|]. split; [|split; [|split]].
  - unfold live. simpl. rewrite lookup_insert_eq. reflexivity.
  - reflexivity.
  - intros other Ho. unfold live, summaryOf. simpl.
    rewrite lookup_insert_ne by congruence. split; reflexivity.
  - intros Hc key session H. simpl in H.
    destruct (decide (session_id sessionData = key)) as [Hk|Hk].
    + rewrite Hk in H. rewrite lookup_insert_eq in H. congruence.
    + rewrite lookup_insert_ne in H by assumption. apply Hc. exact H.
Qed.

Lemma importSession_replaces_witness :
  length (live "s" (fst (importSession archived (chat 4 (create smallConfig))))) = 4%nat /\
  maxMessagesPerSession (config (fst (importSession archived (chat 4 (create smallConfig))))) = 3 /\
  option_map message_count
    (summaryOf "s" (fst (importSession archived (chat 4 (create smallConfig))))) = Some 4 /\
  fst (importSession (createNewSession EmptyString 0) (create smallConfig)) = create smallConfig /\
  snd (importSession (createNewSession EmptyString 0) (create smallConfig))
    = Throw "Invalid session data".
Proof.
  destruct (importSession_replaces archived (chat 4 (create smallConfig)))
    as (_ & Hlive & Hsum & _).
  - discriminate.
  - split; [|split; [|split; [|split]]].
    + change (session_id archived) with "s"%string in Hlive. rewrite Hlive. reflexivity.
    + reflexivity.
    + change (session_id archived) with "s"%string in Hsum. rewrite Hsum.
      vm_compute. reflexivity.
    + reflexivity.
    + reflexivity.
Defined.

(** *** The threshold of [fromConfig] *)

Lemma sevenTenths_checked : forallb sevenTenths (seq 0 (Z.to_nat 5001)) = true.
Proof. vm_compute. reflexivity. Qed.

(** X7.  For a [max_conversation_history] between 0 and 5000, the threshold
    [Math.floor(max * 0.7)] that [fromConfig] computes in binary64 is the
    integer part of seven tenths of [max] or one less; it lies strictly
    between 0 and [max] when [max >= 2] and is 0 when [max < 2]. *)
Theorem fromConfig_threshold (max_conversation_history : Z) :
  let threshold := summaryThreshold (config (fromConfig max_conversation_history)) in
  0 <= max_conversation_history <= 5000 ->
  7 * max_conversation_history / 10 - 1 <= threshold <= 7 * max_conversation_history / 10 /\
  (2 <= max_conversation_history -> 0 < threshold < max_conversation_history) /\
  (max_conversation_history < 2 -> threshold = 0).
Proof.
  intros threshold Hrange.
  pose proof sevenTenths_checked as H. rewrite forallb_forall in H.
  specialize (H (Z.to_nat max_conversation_history)).
  assert (Hin : In (Z.to_nat max_conversation_history) (seq 0 (Z.to_nat 5001))).
  { apply in_seq. lia. }
  specialize (H Hin). unfold sevenTenths in H.
  rewrite Z2Nat.id in H by lia. fold threshold in H.
  apply andb_prop in H. destruct H as [H H3]. apply andb_prop in H. destruct H as [H1 H2].
  apply Z.leb_le in H1, H2.
  assert (Hdiv : 7 * max_conversation_history / 10 < max_conversation_history \/
                 max_conversation_history = 0).
  { destruct (Z.eq_dec max_conversation_history 0); [right; assumption|left].
    apply Z.div_lt_upper_bound; lia. }
  split; [lia|]. split.
  - intros Hge. apply orb_prop in H3. destruct H3 as [H3|H3].
    + apply Nat.ltb_lt in H3. lia.
    + apply Z.ltb_lt in H3. lia.
  - intros Hlt. assert (7 * max_conversation_history / 10 = 0).
    { apply Z.div_small. lia. }
    assert (Hcases : max_conversation_history = 0 \/ max_conversation_history = 1) by lia.
    destruct Hcases as [E|E]; unfold threshold; rewrite E; vm_compute; reflexivity.
Qed.

Lemma fromConfig_threshold_witness :
  summaryThreshold (config (fromConfig 90)) = 62 /\
  0 < summaryThreshold (config (fromConfig 90)) < 90.
Proof.
  destruct (fromConfig_threshold 90) as (_ & H & _); [lia|].
  split; [vm_compute; reflexivity|]. apply H. lia.
Defined.

(** *** Topics *)

Lemma add_NoDup word topics : NoDup topics -> NoDup (add word topics).
Proof.
  intros Hn. unfold add. destruct (existsb (String.eqb word) topics) eqn:E; [exact Hn|].
  apply NoDup_app. split; [exact Hn|]. split; [|apply NoDup_singleton].
  intros x Hx Hin. apply list_elem_of_In in Hx, Hin. destruct Hin as [<-|[]].
  assert (Ht : existsb (String.eqb word) topics = true).
  { apply existsb_exists. exists word. split; [exact Hx|apply String.eqb_refl]. }
  congruence.
Qed.

Lemma add_In word topics w : In w (add word topics) -> In w topics \/ w = word.
Proof.
  unfold add. destruct (existsb _ _); [left; assumption|].
  intros H. apply in_app_or in H. destruct H as [H|[H|[]]]; [left; exact H|right; auto].
Qed.

Lemma addAll_NoDup words : forall topics,
  NoDup topics -> NoDup (fold_left (fun t w => add w t) words topics).
Proof.
  induction words as [|word words IH]; intros topics Hn; simpl; [exact Hn|].
  apply IH. apply add_NoDup. exact Hn.
Qed.

Lemma addAll_In words w : forall topics,
  In w (fold_left (fun t w => add w t) words topics) -> In w topics \/ In w words.
Proof.
  induction words as [|word words IH]; intros topics H; simpl in *; [left; exact H|].
  destruct (IH _ H) as [H'|H']; [|right; right; exact H'].
  destruct (add_In _ _ _ H') as [H''|H'']; [left; exact H''|right; left; auto].
Qed.

Lemma wordsOf_long m w : In w (wordsOf m) -> (3 < String.length w)%nat.
Proof.
  unfold wordsOf. intros H. apply filter_In in H. destruct H as [_ H].
  apply Nat.ltb_lt in H. exact H.
Qed.

(** X8.  [extractTopics] returns at most five topics, without repetition,
    each a word of more than three characters of a message of the user. *)
Theorem extractTopics_contract (messages : list ConversationMessage) :
  let topics := extractTopics messages in
  (length topics <= 5)%nat /\
  NoDup topics /\
  Forall (fun word =>
            (3 < String.length word)%nat /\
            exists m, In m messages /\ role m = user /\ In word (wordsOf m)) topics.
Proof.
  intros topics. unfold topics, extractTopics.
  set (step := fun (topics : list string) (m : ConversationMessage) =>
                 if isUser (role m) then fold_left (fun t w => add w t) (wordsOf m) topics
                 else topics).
  assert (Hinv : forall ms acc,
            NoDup acc ->
            NoDup (fold_left step ms acc) /\
            forall w, In w (fold_left step ms acc) ->
                      In w acc \/ exists m, In m ms /\ role m = user /\ In w (wordsOf m)).
  { induction ms as [|m ms IH]; intros acc Hn; simpl.
    - split; [exact Hn|]. intros w H. left. exact H.
    - assert (Hn' : NoDup (step acc m)).
      { unfold step. destruct (isUser (role m)); [apply addAll_NoDup|]; exact Hn. }
      destruct (IH _ Hn') as [H1 H2]. split; [exact H1|].
      intros w Hw. destruct (H2 w Hw) as [H|(m' & Hm' & Hr & Hin)].
      + unfold step in H. destruct (role m) eqn:Er; simpl in H; try (left; exact H).
        destruct (addAll_In _ _ _ H) as [H'|H']; [left; exact H'|].
        right. exists m. split; [left; reflexivity|]. split; assumption.
      + right. exists m'. split; [right; exact Hm'|]. split; assumption. }
  destruct (Hinv messages [] (NoDup_nil_2)) as [Hn Hin].
  rewrite slice_prefix by lia. change (Z.to_nat 5) with 5%nat.
  split; [apply firstn_le_length|]. split.
  - eapply sublist_NoDup; [exact Hn|apply sublist_take].
  - apply List.Forall_forall. intros w Hw.
    assert (Hw' : In w (fold_left step messages [])).
    { rewrite <- (firstn_skipn 5). apply in_or_app. left. exact Hw. }
    clear Hw. rename Hw' into Hw.
    destruct (Hin w Hw) as [[]|(m & Hm & Hr & Hwm)].
    split; [eapply wordsOf_long; exact Hwm|]. exists m. auto.
Qed.

(** *** A threshold of zero *)

(** X9.  With a threshold of 0, an [addMessage] that brings a session over
    [maxMessagesPerSession] removes nothing, since [slice(-0)] keeps every
    message: the session stays over the limit, although one compaction is
    logged and a summary counting all its messages is filed, with the text
    for no previous conversation. *)
Theorem zero_threshold_never_trims (messageId : string) (now : Z) (sessionId : string)
    (role : Role) (content : string) (metadata : list (string * string))
    (m : MemoryService) :
  let added := {| id := messageId; role := role; content := content;
                  timestamp := now; metadata := metadata |} in
  let all := live sessionId m ++ [added] in
  let m' := fst (addMessage messageId now sessionId role content metadata m) in
  consistent m ->
  summaryThreshold (config m) = 0 ->
  maxMessagesPerSession (config m) < Z.of_nat (length all) ->
  live sessionId m' = all /\
  compactions sessionId (written m m') = 1%nat /\
  maxMessagesPerSession (config m') < Z.of_nat (length (live sessionId m')) /\
  exists record,
    summaryOf sessionId m' = Some record /\
    summary record = "No previous conversation."%string /\
    topics record = [] /\
    message_count record = Z.of_nat (length all).
Proof.
  intros added all m' Hc Hzero Hover.
  destruct (addMessage_steps messageId now sessionId role content metadata m)
    as (m1 & session1 & extra & Hm' & Hlook & Hall & Hid & Hcfg & _ & Hlog1 & Hextra).
  fold added in Hall. fold all in Hall. fold m' in Hm'. specialize (Hid Hc).
  assert (Hover1 : maxMessagesPerSession (config m1) < Z.of_nat (length (messages session1))).
  { rewrite Hcfg, Hall. exact Hover. }
  destruct (manageSessionSize_over sessionId m1 session1 Hlook Hid Hover1) as (Hs & Hsum & Hlog).
  rewrite Hcfg, Hall, Hzero in Hs, Hsum.
  rewrite slice_minus_zero in Hs. rewrite slice_to_minus_zero in Hsum.
  assert (Hlive : live sessionId m' = all).
  { unfold live. rewrite Hm'. simpl. rewrite Hs. reflexivity. }
  split; [exact Hlive|]. split; [|split].
  - unfold written. rewrite Hm'. change (log (logged ?e ?x)) with (log x ++ [e]).
    rewrite Hlog, Hlog1, <- !app_assoc, skipn_length_app.
    unfold compactions in *. rewrite List.filter_app, length_app, Hextra.
    simpl. rewrite String.eqb_refl. reflexivity.
  - rewrite Hlive. replace (config m') with (config m); [exact Hover|].
    symmetry. apply addMessage_live.
  - eexists. split; [unfold summaryOf; rewrite Hm'; simpl; exact Hsum|].
    repeat split.
Qed.

Lemma zero_threshold_never_trims_witness :
  length (live "s" (chat 3 (fromConfig 1))) = 3%nat /\
  compactions "s" (written (chat 2 (fromConfig 1)) (chat 3 (fromConfig 1))) = 1%nat.
Proof.
  destruct (zero_threshold_never_trims "msg_3" 3 "s" user "question number 3" []
              (chat 2 (fromConfig 1))) as (Hlive & Hone & _).
  - apply chat_consistent. apply consistent_create.
  - vm_compute. reflexivity.
  - vm_compute. reflexivity.
  - split; [|exact Hone].
    change (chat 3 (fromConfig 1))
      with (fst (addMessage "msg_3" 3 "s" user "question number 3" [] (chat 2 (fromConfig 1)))).
    rewrite Hlive. vm_compute. reflexivity.
Defined.

End History.

(* --------------------------------------------------------------------- *)
(** ** Plugin registry                                                 *)
(* --------------------------------------------------------------------- *)

Module RegistryFacts.
Import JS Plugins Registry DispatchSpec RegistrySpec Dispatcher.

Lemma has_getPlugin pluginId s :
  has pluginId (plugins s) = bool_decide (is_Some (getPlugin pluginId s)).
Proof.
  unfold has, getPlugin. induction (plugins s) as [|[k p] l IH]; simpl.
  - reflexivity.
  - destruct (String.eqb k pluginId); simpl.
    + reflexivity.
    + exact IH.
Qed.

Lemma find_app_key (l1 l2 : list (string * BasePlugin)) pluginId :
  List.find (fun entry => String.eqb (fst entry) pluginId) (l1 ++ l2) =
  match List.find (fun entry => String.eqb (fst entry) pluginId) l1 with
  | Some e => Some e
  | None => List.find (fun entry => String.eqb (fst entry) pluginId) l2
  end.
Proof.
  induction l1 as [|e l1 IH]; simpl; [reflexivity|].
  destruct (String.eqb (fst e) pluginId); [reflexivity|exact IH].
Qed.

Lemma NoDup_keys_filter {A B} (f : A * B -> bool) (l : list (A * B)) :
  NoDup (map fst l) -> NoDup (map fst (List.filter f l)).
Proof.
  induction l as [|e l IH]; simpl; intros Hn; [exact Hn|].
  apply NoDup_cons in Hn. destruct Hn as [Hnot Hn].
  destruct (f e); simpl; [|apply IH; exact Hn].
  apply NoDup_cons. split; [|apply IH; exact Hn].
  intros Hin. apply Hnot. apply list_elem_of_In in Hin. apply list_elem_of_In.
  apply in_map_iff in Hin. destruct Hin as (x & Hx & Hin).
  apply filter_In in Hin. apply in_map_iff. exists x. split; [exact Hx|apply Hin].
Qed.

(** The three operations keep the registry keyed by name. *)
Lemma keyedByName_kept (s : PluginService) :
  keyedByName s ->
  (forall plugin, keyedByName (registerPlugin plugin s)) /\
  (forall target, keyedByName (fst (unregisterPlugin target s))) /\
  (forall target b, keyedByName (fst (setPluginEnabled target b s))).
Proof.
  intros [Hn Hk]. split; [|split].
  + intros plugin. unfold registerPlugin, keyedByName.
    destruct (has (name plugin) (plugins s)) eqn:Eh; simpl; [split; assumption|].
    rewrite map_app. simpl. split.
    * apply NoDup_app. split; [exact Hn|]. split; [|apply NoDup_singleton].
      intros x Hx Hin. apply list_elem_of_In in Hx, Hin. destruct Hin as [<-|[]].
      apply in_map_iff in Hx. destruct Hx as (e & He & Hin).
      assert (Ht : has (name plugin) (plugins s) = true).
      { unfold has. apply existsb_exists. exists e. split; [exact Hin|].
        rewrite He. apply String.eqb_refl. }
      congruence.
    * apply Forall_app. split; [exact Hk|]. constructor; [reflexivity|constructor].
  + intros target. unfold unregisterPlugin, keyedByName. simpl. split.
    * apply NoDup_keys_filter. exact Hn.
    * apply List.Forall_forall. intros e He. apply filter_In in He.
      rewrite List.Forall_forall in Hk. apply Hk. apply He.
  + intros target b. unfold setPluginEnabled, keyedByName.
    destruct (has target (plugins s)); [|split; assumption]. simpl. split.
    * rewrite map_map.
      replace (map (fun x => fst (if String.eqb (fst x) target
                                  then (fst x, withEnabled b (snd x)) else x)) (plugins s))
        with (map fst (plugins s)); [exact Hn|].
      apply map_ext. intros e. destruct (String.eqb (fst e) target); reflexivity.
    * apply List.Forall_forall. intros e He. apply in_map_iff in He.
      destruct He as (e0 & <- & Hin). rewrite List.Forall_forall in Hk.
      specialize (Hk e0 Hin). destruct (String.eqb (fst e0) target); simpl; exact Hk.
Qed.

(** X10.  Lookup after a change of the registry.  [registerPlugin] adds the
    plugin under its name unless the name is taken, in which case the
    registered plugin stays; [unregisterPlugin] removes only its target;
    [setPluginEnabled] changes only the [enabled] flag of its target; the
    latter two return whether the target was registered.  All three keep
    every plugin stored under its own name, and no name twice. *)
Theorem registry_lookup (s : PluginService) :
  (forall plugin pluginId,
     getPlugin pluginId (registerPlugin plugin s) =
       match getPlugin pluginId s with
       | Some registered => Some registered
       | None => if String.eqb (name plugin) pluginId then Some plugin else None
       end) /\
  (forall target pluginId,
     getPlugin pluginId (fst (unregisterPlugin target s)) =
       (if String.eqb target pluginId then None else getPlugin pluginId s) /\
     snd (unregisterPlugin target s) = bool_decide (is_Some (getPlugin target s))) /\
  (forall target b pluginId,
     getPlugin pluginId (fst (setPluginEnabled target b s)) =
       (if String.eqb target pluginId then option_map (withEnabled b) (getPlugin pluginId s)
        else getPlugin pluginId s) /\
     snd (setPluginEnabled target b s) = bool_decide (is_Some (getPlugin target s))) /\
  (keyedByName s ->
   (forall plugin, keyedByName (registerPlugin plugin s)) /\
   (forall target, keyedByName (fst (unregisterPlugin target s))) /\
   (forall target b, keyedByName (fst (setPluginEnabled target b s)))).
Proof.
  split; [|split; [|split]].
  - intros plugin pluginId. unfold registerPlugin.
    rewrite has_getPlugin.
    destruct (getPlugin (name plugin) s) as [p|] eqn:E; simpl.
    + destruct (getPlugin pluginId s) as [q|] eqn:F; unfold getPlugin in *; simpl; rewrite F;
        [reflexivity|].
      destruct (String.eqb_spec (name plugin) pluginId) as [Heq|_]; [|reflexivity].
      rewrite Heq in E. congruence.
    + unfold getPlugin in *. simpl. rewrite find_app_key.
      destruct (List.find (fun entry => String.eqb (fst entry) pluginId) (plugins s)) as [e|];
        [reflexivity|].
      simpl. destruct (String.eqb (name plugin) pluginId); reflexivity.
  - intros target pluginId. split.
    + unfold unregisterPlugin, getPlugin. simpl.
      induction (plugins s) as [|[k p] l IH]; simpl.
      * destruct (String.eqb target pluginId); reflexivity.
      * destruct (String.eqb_spec k target) as [->|Hk]; simpl.
        -- rewrite IH. destruct (String.eqb target pluginId); reflexivity.
        -- destruct (String.eqb_spec k pluginId) as [->|Hp]; simpl.
           ++ destruct (String.eqb_spec target pluginId); [congruence|reflexivity].
           ++ exact IH.
    + unfold unregisterPlugin. simpl. apply has_getPlugin.
  - intros target b pluginId. unfold setPluginEnabled. rewrite has_getPlugin.
    destruct (getPlugin target s) as [p|] eqn:E; simpl.
    + split; [|reflexivity]. unfold getPlugin. simpl.
      clear E. induction (plugins s) as [|[k q] l IH]; simpl.
      * destruct (String.eqb target pluginId); reflexivity.
      * destruct (String.eqb_spec k target) as [->|Hk]; simpl.
        -- destruct (String.eqb target pluginId); [reflexivity|exact IH].
        -- destruct (String.eqb_spec k pluginId) as [->|Hp]; simpl.
           ++ destruct (String.eqb_spec target pluginId); [congruence|reflexivity].
           ++ exact IH.
    + split; [|reflexivity].
      destruct (String.eqb_spec target pluginId) as [->|_]; [|reflexivity].
      rewrite E. reflexivity.
  - apply keyedByName_kept.
Qed.

(** *** Who can be executed *)

Lemma slice_In {A} (a : Z) (b : option Z) (l : list A) (x : A) :
  In x (slice a b l) -> In x l.
Proof.
  unfold slice. intros H.
  match type of H with In x (firstn ?n (skipn ?k l)) =>
    assert (H1 : In x (skipn k l))
      by (rewrite <- (firstn_skipn n (skipn k l)); apply in_or_app; left; exact H);
    rewrite <- (firstn_skipn k l); apply in_or_app; right; exact H1
  end.
Qed.

Lemma selected_activated input context s p :
  In p (fst (findActivatedPlugins input context s)) -> In p (activated input context s).
Proof.
  rewrite findActivatedPlugins_unfold. intros H. apply slice_In in H.
  eapply Permutation_in; [apply SortFacts.sort_perm|exact H].
Qed.

Lemma executedIds_selected input context s pluginId :
  In pluginId (executedIds input context s) ->
  exists p, In p (activated input context s) /\ name p = pluginId.
Proof.
  unfold executedIds. destruct (config_enabled (config s)) eqn:E.
  - rewrite processInput_executed by exact E. intros H. apply in_map_iff in H.
    destruct H as (p & Hp & Hin). exists p. split; [|exact Hp].
    apply selected_activated. exact Hin.
  - unfold processInput. rewrite E. simpl. intros [].
Qed.

(** X11.  In a registry keyed by name, a plugin that has been disabled with
    [setPluginEnabled] or removed with [unregisterPlugin] is never among the
    plugins [processInput] executes, whatever the input. *)
Theorem removed_or_disabled_never_runs (target : string) (s : PluginService)
    (input : string) (context : PluginContext) :
  keyedByName s ->
  ~ In target (executedIds input context (fst (setPluginEnabled target false s))) /\
  ~ In target (executedIds input context (fst (unregisterPlugin target s))).
Proof.
  intros Hk.
  destruct (keyedByName_kept s Hk) as (_ & Hu & Hd).
  split.
  - intros H. apply executedIds_selected in H. destruct H as (p & Hact & Hname).
    unfold activated in Hact. apply filter_In in Hact. destruct Hact as [Hin Hen].
    apply andb_prop in Hen. destruct Hen as [Hen _].
    apply in_map_iff in Hin. destruct Hin as ([k q] & Hq & Hin). simpl in Hq. subst q.
    destruct (Hd target false) as [_ Hkey]. rewrite List.Forall_forall in Hkey.
    pose proof (Hkey _ Hin) as Hkp. simpl in Hkp.
    unfold setPluginEnabled in Hin. destruct (has target (plugins s)) eqn:Eh; simpl in Hin.
    + apply in_map_iff in Hin. destruct Hin as ([k0 p0] & Heq & Hin0). simpl in Heq.
      destruct (String.eqb_spec k0 target) as [->|Hne].
      * inversion Heq; subst. simpl in Hen. discriminate.
      * inversion Heq; subst. congruence.
    + assert (Ht : has target (plugins s) = true).
      { unfold has. apply existsb_exists. exists (k, p). split; [exact Hin|].
        simpl. rewrite Hkp, Hname. apply String.eqb_refl. }
      congruence.
  - intros H. apply executedIds_selected in H. destruct H as (p & Hact & Hname).
    unfold activated in Hact. apply filter_In in Hact. destruct Hact as [Hin _].
    apply in_map_iff in Hin. destruct Hin as ([k q] & Hq & Hin). simpl in Hq. subst q.
    destruct (Hu target) as [_ Hkey]. rewrite List.Forall_forall in Hkey.
    pose proof (Hkey _ Hin) as Hkp. simpl in Hkp.
    unfold unregisterPlugin in Hin. simpl in Hin. apply filter_In in Hin.
    destruct Hin as [_ Hne]. simpl in Hne.
    rewrite Hkp, Hname, String.eqb_refl in Hne. discriminate.
Qed.

Lemma service_keyedByName : keyedByName service.
Proof.
  unfold service.
  assert (H0 : keyedByName {| plugins := [];
                config := {| config_enabled := true; max_plugins_per_request := 2;
                             plugin_timeout_ms := 30000; execution_mode := sequential |};
                log := [] |}).
  { split; constructor. }
  repeat match goal with
         | |- keyedByName (registerPlugin ?p ?s) =>
             let H := fresh in
             assert (H : keyedByName s); [|exact (proj1 (keyedByName_kept s H) p)]
         end.
  exact H0.
Qed.

Lemma removed_or_disabled_never_runs_witness :
  keyedByName service /\
  executedIds "what is 2 + 2?" {| session_id := "s1" |} service = ["math"; "weather"]%string /\
  ~ In "math"%string
      (executedIds "what is 2 + 2?" {| session_id := "s1" |}
         (fst (setPluginEnabled "math" false service))) /\
  executedIds "what is 2 + 2?" {| session_id := "s1" |}
    (fst (setPluginEnabled "math" false service)) = ["weather"; "echo"]%string.
Proof.
  split; [exact service_keyedByName|].
  split; [vm_compute; reflexivity|]. split.
  - apply (removed_or_disabled_never_runs "math" service). exact service_keyedByName.
  - vm_compute. reflexivity.
Defined.

(** *** The execution summary *)

(** X12.  The execution summary of [processInput] agrees with its list of
    executions: [total_plugins_activated] is the number of executions,
    [successful_executions] and [failed_executions] count those with and
    without success and add up to the total.  [processInput] changes
    neither the registry nor the configuration. *)
Theorem processInput_summary (input : string) (context : PluginContext) (s : PluginService) :
  let processed := snd (processInput input context s) in
  let summary := execution_summary processed in
  let executed := plugins_executed processed in
  total_plugins_activated summary = Z.of_nat (length executed) /\
  successful_executions summary =
    Z.of_nat (length (List.filter (fun r => success (result_ r)) executed)) /\
  failed_executions summary =
    Z.of_nat (length (List.filter (fun r => negb (success (result_ r))) executed)) /\
  successful_executions summary + failed_executions summary = total_plugins_activated summary /\
  plugins (fst (processInput input context s)) = plugins s /\
  config (fst (processInput input context s)) = config s.
Proof.
  assert (Hsplit : forall (l : list Executed),
            Z.of_nat (length l) - Z.of_nat (length (List.filter (fun r => success (result_ r)) l))
            = Z.of_nat (length (List.filter (fun r => negb (success (result_ r))) l))).
  { induction l as [|r l IH]; [reflexivity|]. simpl. destruct (success (result_ r)); simpl; lia. }
  unfold processInput. destruct (config_enabled (config s)); simpl; [|repeat split].
  destruct (findActivatedPlugins input context s) as [act entries].
  destruct act as [|p act]; [repeat split|].
  simpl (length _ =? 0)%nat. cbv iota.
  set (s1 := {| plugins := plugins s; config := config s; log := log s ++ entries |}).
  pose proof (executePlugins_ids s1 (p :: act) input context) as Hids.
  destruct (executePlugins s1 (p :: act) input context) as [[rs es] w].
  apply (f_equal (@length _)) in Hids. rewrite !length_map in Hids.
  specialize (Hsplit rs). cbn [snd fst plugins_executed execution_summary
    total_plugins_activated successful_executions failed_executions plugins config].
  cbn [fst] in Hids.
  split; [rewrite Hids; reflexivity|]. split; [reflexivity|]. split; [exact Hsplit|].
  split; [|split; reflexivity]. rewrite <- Hids. lia.
Qed.

End RegistryFacts.

(* --------------------------------------------------------------------- *)
(** ** Chunking                                                        *)
(* --------------------------------------------------------------------- *)

Module Chunking.
Import JS RAG Text TextSpec.

(** *** Chunk ids *)

Lemma length_chars s : List.length (JSString.chars s) = String.length s.
Proof. induction s as [|c s IH]; simpl; [reflexivity|]. f_equal. exact IH. Qed.

Lemma length_text l : String.length (JSString.text l) = List.length l.
Proof. induction l as [|c l IH]; simpl; [reflexivity|]. f_equal. exact IH. Qed.

Lemma text_inj l1 l2 : JSString.text l1 = JSString.text l2 -> l1 = l2.
Proof.
  intros H. apply (f_equal list_ascii_of_string) in H. unfold JSString.text in H.
  rewrite !list_ascii_of_string_of_list_ascii in H. exact H.
Qed.

Lemma append_inj_l a x y : String.append a x = String.append a y -> x = y.
Proof. induction a as [|c a IH]; simpl; intros H; [exact H|]. inversion H. auto. Qed.

Lemma pretty_N_go_head (x : N) :
  (0 < x)%N -> forall s, exists c rest, pretty_N_go x s = String c rest /\ c <> "0"%char.
Proof.
  induction x as [x IH] using (well_founded_induction N.lt_wf_0). intros Hx s.
  rewrite pretty_N_go_step by exact Hx.
  destruct (N.eq_dec (N.div x 10) 0%N) as [E|E].
  - rewrite E, pretty_N_go_0. eexists _, _. split; [reflexivity|].
    assert (Hlt : (x < 10)%N).
    { destruct (N.lt_ge_cases x 10) as [H|H]; [exact H|].
      apply (N.Div0.div_le_mono _ _ 10) in H. rewrite N.div_same in H by discriminate. lia. }
    rewrite N.mod_small by exact Hlt. intros Hc.
    change "0"%char with (pretty_N_char 0) in Hc.
    apply pretty_N_char_inj in Hc; [|exact Hlt|reflexivity]. clear -Hx Hc. lia.
  - apply IH; [|apply N.neq_0_lt_0; exact E]. apply N.div_lt; [exact Hx|reflexivity].
Qed.

Lemma pretty_nat_head (n : nat) :
  (n = 0%nat /\ pretty n = "0"%string) \/
  (exists c rest, pretty n = String c rest /\ c <> "0"%char).
Proof.
  unfold pretty, pretty_nat, pretty, pretty_N.
  destruct (decide (N.of_nat n = 0%N)) as [E|E].
  - left. split; [lia|reflexivity].
  - right. apply pretty_N_go_head. lia.
Qed.

Lemma repeat_zero_head k (a b : list ascii) :
  (0 < k)%nat -> repeat "0"%char k ++ a = b -> exists rest, b = "0"%char :: rest.
Proof. destruct k; [lia|]. simpl. intros _ <-. eauto. Qed.

Lemma padded_length_lt (i j : nat) k :
  (0 < k)%nat ->
  repeat "0"%char k ++ JSString.chars (pretty i) = JSString.chars (pretty j) -> False.
Proof.
  intros Hk H. pose proof (f_equal (@List.length _) H) as Hlen.
  rewrite length_app, repeat_length, !length_chars in Hlen.
  destruct (repeat_zero_head _ _ _ Hk H) as [rest Hrest].
  destruct (pretty_nat_head j) as [[-> Hj]|(c & r & Hj & Hc)].
  - destruct (pretty_nat_head i) as [[-> Hi]|(c & r & Hi & Hc)].
    + rewrite Hi in Hlen. simpl in Hlen. lia.
    + rewrite Hi, Hj in Hlen. simpl in Hlen. lia.
  - rewrite Hj in Hrest. simpl in Hrest. inversion Hrest. congruence.
Qed.

Lemma padStart_inj (i j : nat) :
  JSString.padStart 4 (pretty i) = JSString.padStart 4 (pretty j) -> i = j.
Proof.
  unfold JSString.padStart. intros H. apply text_inj in H.
  set (a := JSString.chars (pretty i)) in *. set (b := JSString.chars (pretty j)) in *.
  set (ka := (4 - String.length (pretty i))%nat) in *.
  set (kb := (4 - String.length (pretty j))%nat) in *.
  assert (Hsame : a = b -> i = j).
  { intros Hab. apply (f_equal JSString.text) in Hab. unfold a, b, JSString.text, JSString.chars in Hab.
    rewrite !string_of_list_ascii_of_string in Hab. apply (inj pretty) in Hab. exact Hab. }
  destruct (lt_eq_lt_dec ka kb) as [[Hlt|Heq]|Hgt].
  - exfalso. replace kb with (ka + (kb - ka))%nat in H by lia.
    rewrite repeat_app, <- app_assoc in H. apply app_inv_head in H.
    symmetry in H. eapply (padded_length_lt j i); [|exact H]. lia.
  - rewrite Heq in H. apply app_inv_head in H. auto.
  - exfalso. replace ka with (kb + (ka - kb))%nat in H by lia.
    rewrite repeat_app, <- app_assoc in H. apply app_inv_head in H.
    eapply (padded_length_lt i j); [|exact H]. lia.
Qed.

Lemma removeExtension_app (l : list ascii) (c : ascii) (ext : list ascii) :
  forallb (fun d => negb (Ascii.eqb d "."%char || Ascii.eqb d "/"%char)) (c :: ext) = true ->
  forallb (fun d => negb (Ascii.eqb d "."%char)) l = true ->
  removeExtension (l ++ "."%char :: c :: ext) = l.
Proof.
  intros Hext.
  assert (E : extensionAt ("."%char :: c :: ext) = true).
  { unfold extensionAt. rewrite Hext. reflexivity. }
  induction l as [|d l IH]; intros Hl.
  - change (removeExtension ([] ++ "."%char :: c :: ext))
      with (if extensionAt ("."%char :: c :: ext) then []
            else "."%char :: removeExtension (c :: ext)).
    rewrite E. reflexivity.
  - simpl in Hl. apply andb_prop in Hl. destruct Hl as [Hd Hl].
    apply negb_true_iff in Hd.
    change (removeExtension ((d :: l) ++ "."%char :: c :: ext))
      with (if extensionAt (d :: l ++ "."%char :: c :: ext) then []
            else d :: removeExtension (l ++ "."%char :: c :: ext)).
    unfold extensionAt at 1. rewrite Hd. simpl andb. cbv iota.
    rewrite IH by exact Hl. reflexivity.
Qed.

(** X15.  For one source filename [generateChunkId] gives different ids to
    different indexes, so the ids of the chunks of one document are
    pairwise distinct; two filenames with the same base name without a dot
    and different extensions give the same ids. *)
Theorem generateChunkId_unique_per_name (sourceFilename : string) :
  (forall i j, generateChunkId sourceFilename i = generateChunkId sourceFilename j -> i = j) /\
  (forall n, NoDup (map (generateChunkId sourceFilename) (seq 0 n))) /\
  (forall base c ext1 d ext2 index,
     forallb (fun x => negb (Ascii.eqb x "."%char)) (JSString.chars base) = true ->
     forallb (fun x => negb (Ascii.eqb x "."%char || Ascii.eqb x "/"%char)) (c :: ext1) = true ->
     forallb (fun x => negb (Ascii.eqb x "."%char || Ascii.eqb x "/"%char)) (d :: ext2) = true ->
     generateChunkId (JSString.text (JSString.chars base ++ "."%char :: c :: ext1)) index =
     generateChunkId (JSString.text (JSString.chars base ++ "."%char :: d :: ext2)) index).
Proof.
  assert (Hinj : forall i j,
            generateChunkId sourceFilename i = generateChunkId sourceFilename j -> i = j).
  { intros i j H. unfold generateChunkId in H.
    apply append_inj_l in H. apply append_inj_l in H. apply padStart_inj. exact H. }
  split; [exact Hinj|]. split.
  - intros n. apply NoDup_fmap_2; [|apply NoDup_ListNoDup, seq_NoDup].
    intros i j. apply Hinj.
  - intros base c ext1 d ext2 index Hb H1 H2. unfold generateChunkId, JSString.chars, JSString.text.
    rewrite !list_ascii_of_string_of_list_ascii.
    rewrite !removeExtension_app by assumption. reflexivity.
Qed.

Lemma fixedTurn_position text config sentences file st :
  let endPosition := Z.min (position st + max_chunk_size config) (JSString.length text) in
  position (fixedTurn text config sentences file st) =
    if endPosition - chunk_overlap config <=? 0 then endPosition
    else endPosition - chunk_overlap config.
Proof. reflexivity. Qed.

(** X14.  When [chunk_overlap] is positive and smaller than the length of
    the text, the loop of [chunkByFixedSize] never ends: after every turn
    the position is still before the end of the text, so no amount of fuel
    yields a result. *)
Theorem chunkByFixedSize_overlap_never_returns (text : string) (config : ChunkingConfig)
    (sentences : bool) (sourceFilename : string) :
  0 < chunk_overlap config < JSString.length text ->
  forall fuel, chunkByFixedSize fuel text config sentences sourceFilename = None.
Proof.
  intros Hov fuel. unfold chunkByFixedSize.
  assert (Hinv : forall st, position st < JSString.length text ->
                 fixedLoop fuel text config sentences sourceFilename st = None).
  { induction fuel as [|fuel IH]; intros st Hpos; simpl.
    - destruct (Z.ltb_spec (position st) (JSString.length text)); [reflexivity|lia].
    - destruct (Z.ltb_spec (position st) (JSString.length text)); [|lia].
      apply IH. rewrite fixedTurn_position.
      destruct (Z.leb_spec (Z.min (position st + max_chunk_size config) (JSString.length text)
                            - chunk_overlap config) 0); lia. }
  apply Hinv. simpl. lia.
Qed.

Lemma chunkByFixedSize_overlap_never_returns_witness :
  JSString.length sixty = 60 /\
  forall fuel, chunkByFixedSize fuel sixty agentChunking false "faq.md" = None.
Proof.
  split; [reflexivity|].
  apply (chunkByFixedSize_overlap_never_returns sixty agentChunking false "faq.md").
  vm_compute. split; reflexivity.
Defined.

(** *** Chunking that ends *)

Lemma length_slice (a b : Z) (s : string) :
  0 <= a <= b -> b <= JSString.length s ->
  JSString.length (JSString.slice a (Some b) s) = b - a.
Proof.
  intros Hab Hb. unfold JSString.length, JSString.slice in *.
  rewrite length_text. unfold JS.slice, relIndex.
  rewrite length_chars.
  destruct (Z.ltb_spec a 0); [lia|]. destruct (Z.ltb_spec b 0); [lia|].
  rewrite length_firstn, length_skipn, length_chars. lia.
Qed.

Lemma lastMatchFrom_bounds l : forall index lastMatch,
  lastMatch <= index ->
  lastMatch <= lastMatchFrom index lastMatch l <= index + Z.of_nat (List.length l).
Proof.
  induction l as [|c l IH]; intros index lastMatch H; simpl; [lia|].
  destruct (isSentenceEnder c).
  - specialize (IH (index + 1) (index + 1)). lia.
  - specialize (IH (index + 1) lastMatch). lia.
Qed.

Lemma findLastSentenceEnd_bounds s :
  -1 <= findLastSentenceEnd s <= JSString.length s.
Proof.
  unfold findLastSentenceEnd, JSString.length.
  pose proof (lastMatchFrom_bounds (JSString.chars s) 0 (-1)) as H.
  rewrite length_chars in H. lia.
Qed.

Lemma StronglySorted_snoc {A} (R : A -> A -> Prop) (l : list A) (x : A) :
  StronglySorted R l -> Forall (fun a => R a x) l -> StronglySorted R (l ++ [x]).
Proof.
  induction 1 as [|a l Hs IH Ha]; intros Hx; simpl.
  - constructor; constructor.
  - inversion Hx; subst. constructor; [apply IH; assumption|].
    apply Forall_app. split; [exact Ha|]. constructor; [assumption|constructor].
Qed.

Lemma fixedTurn_invariant text config sentences file st :
  0 < max_chunk_size config ->
  chunk_overlap config <= 0 \/ JSString.length text <= chunk_overlap config ->
  position st < JSString.length text ->
  fixedInvariant text config file st ->
  fixedInvariant text config file (fixedTurn text config sentences file st) /\
  position st < position (fixedTurn text config sentences file st).
Proof.
  intros Hmax Hov Hpos (H0 & Hidx & Hwf & Hlt & Hsorted & Hids).
  set (len := JSString.length text) in *.
  set (endPosition := Z.min (position st + max_chunk_size config) len).
  assert (Hend : position st < endPosition <= len) by (unfold endPosition; lia).
  assert (Hnext : position (fixedTurn text config sentences file st) >= endPosition).
  { rewrite fixedTurn_position. fold len endPosition.
    destruct (Z.leb_spec (endPosition - chunk_overlap config) 0); lia. }
  split; [|lia].
  unfold fixedInvariant. split; [lia|].
  unfold fixedTurn in *. fold len endPosition in Hnext |- *.
  set (raw := JSString.slice (position st) (Some endPosition) text) in *.
  assert (Hraw : JSString.length raw = endPosition - position st).
  { unfold raw. apply length_slice; fold len; lia. }
  set (cut := if (endPosition <? len) && sentences
              then if JSString.length raw <? 2 * findLastSentenceEnd raw
                   then JSString.slice 0 (Some (findLastSentenceEnd raw)) raw
                   else raw
              else raw) in *.
  assert (Hcut : 0 < JSString.length cut <= max_chunk_size config).
  { unfold cut. pose proof (findLastSentenceEnd_bounds raw) as Hb.
    destruct ((endPosition <? len) && sentences); [|unfold endPosition in *; lia].
    destruct (Z.ltb_spec (JSString.length raw) (2 * findLastSentenceEnd raw));
      [|unfold endPosition in *; lia].
    rewrite length_slice by lia. unfold endPosition in *. lia. }
  cbv zeta. simpl position in *. simpl chunkIndex. simpl chunks.
  destruct (Z.ltb_spec 0 (JSString.length (JSString.trim cut))) as [Hpush|Hskip].
  - rewrite length_app. simpl List.length. split; [lia|]. split; [|split; [|split]].
    + apply Forall_app. split; [exact Hwf|]. constructor; [|constructor].
      unfold wellFormed. simpl. fold len. repeat split; lia.
    + apply Forall_app. split.
      * eapply List.Forall_impl; [|exact Hlt]. simpl. intros c Hc. lia.
      * constructor; [simpl; lia|constructor].
    + apply StronglySorted_snoc; [exact Hsorted|simpl; exact Hlt].
    + rewrite map_app. simpl map. rewrite Hids, Hidx.
      replace (List.length (chunks st) + 1)%nat with (S (List.length (chunks st))) by lia.
      rewrite seq_S, map_app. reflexivity.
  - split; [exact Hidx|]. split; [exact Hwf|]. split; [|split; [exact Hsorted|exact Hids]].
    eapply List.Forall_impl; [|exact Hlt]. simpl. intros c Hc. lia.
Qed.

Lemma fixedLoop_returns text config sentences file :
  0 < max_chunk_size config ->
  chunk_overlap config <= 0 \/ JSString.length text <= chunk_overlap config ->
  forall fuel st,
    JSString.length text - position st <= Z.of_nat fuel ->
    fixedInvariant text config file st ->
    exists result,
      fixedLoop fuel text config sentences file st = Some result /\
      Forall (wellFormed text (max_chunk_size config)) result /\
      StronglySorted (fun a b => startPosition a < startPosition b) result /\
      map tc_id result = map (generateChunkId file) (seq 0 (List.length result)).
Proof.
  intros Hmax Hov. induction fuel as [|fuel IH]; intros st Hfuel Hinv; simpl.
  - destruct (Z.ltb_spec (position st) (JSString.length text)); [lia|].
    destruct Hinv as (_ & _ & Hwf & _ & Hs & Hids). eauto.
  - destruct (Z.ltb_spec (position st) (JSString.length text)) as [Hpos|Hdone].
    + destruct (fixedTurn_invariant text config sentences file st Hmax Hov Hpos Hinv)
        as [Hinv' Hprog].
      apply IH; [lia|exact Hinv'].
    + destruct Hinv as (_ & _ & Hwf & _ & Hs & Hids). eauto.
Qed.

Lemma fixedLoop_more_fuel text config sentences file result :
  forall fuel st,
    fixedLoop fuel text config sentences file st = Some result ->
    forall fuel', (fuel <= fuel')%nat ->
    fixedLoop fuel' text config sentences file st = Some result.
Proof.
  induction fuel as [|fuel IH]; intros st H fuel' Hle.
  - simpl in H. destruct fuel'; simpl;
      destruct (position st <? JSString.length text); congruence.
  - destruct fuel' as [|fuel']; [lia|]. simpl in *.
    destruct (position st <? JSString.length text); [|exact H].
    apply IH; [exact H|lia].
Qed.

(** X16.  With a positive [max_chunk_size] and a [chunk_overlap] that is
    zero, negative or at least the length of the text, [chunkByFixedSize]
    returns (a fuel of the length of the text suffices): its chunks start
    inside the text at strictly increasing positions, have a length between
    1 and [max_chunk_size], a non-empty text and no section, and carry the
    ids of the indexes 0, 1, 2, ..., which are pairwise distinct. *)
Theorem chunkByFixedSize_returns (text : string) (config : ChunkingConfig)
    (sentences : bool) (sourceFilename : string) :
  0 < max_chunk_size config ->
  chunk_overlap config <= 0 \/ JSString.length text <= chunk_overlap config ->
  exists result,
    (forall fuel, (String.length text <= fuel)%nat ->
       chunkByFixedSize fuel text config sentences sourceFilename = Some result) /\
    Forall (wellFormed text (max_chunk_size config)) result /\
    StronglySorted (fun a b => startPosition a < startPosition b) result /\
    map tc_id result = map (generateChunkId sourceFilename) (seq 0 (List.length result)) /\
    NoDup (map tc_id result).
Proof.
  intros Hmax Hov.
  destruct (fixedLoop_returns text config sentences sourceFilename Hmax Hov
              (String.length text) {| position := 0; chunkIndex := 0; chunks := [] |})
    as (result & Hres & Hwf & Hs & Hids).
  - simpl. unfold JSString.length. lia.
  - unfold fixedInvariant. simpl. repeat split; try constructor; lia.
  - exists result. split; [|split; [exact Hwf|split; [exact Hs|split; [exact Hids|]]]].
    + intros fuel Hfuel. unfold chunkByFixedSize.
      eapply fixedLoop_more_fuel; [exact Hres|exact Hfuel].
    + rewrite Hids. apply NoDup_fmap_2; [|apply NoDup_ListNoDup, seq_NoDup].
      intros i j H. unfold generateChunkId in H.
      apply append_inj_l in H. apply append_inj_l in H. apply padStart_inj. exact H.
Qed.

Lemma chunkByFixedSize_returns_witness :
  option_map (map tc_text) (chunkByFixedSize 60 sixty tens false "faq.md") =
    Some ["The quick"; "brown fox"; "jumps over"; "the lazy"; "dog and ru"; "ns far off"]%string /\
  option_map (map tc_id) (chunkByFixedSize 60 sixty tens false "faq.md") =
    Some ["faq_chunk_0000"; "faq_chunk_0001"; "faq_chunk_0002"; "faq_chunk_0003";
          "faq_chunk_0004"; "faq_chunk_0005"]%string.
Proof.
  destruct (chunkByFixedSize_returns sixty tens false "faq.md") as (result & Hres & _).
  - reflexivity.
  - left. discriminate.
  - rewrite (Hres 60%nat) by (vm_compute; lia).
    pose proof (Hres 60%nat ltac:(vm_compute; lia)) as H.
    vm_compute in H. inversion H; subst result. vm_compute. split; reflexivity.
Defined.

(** *** Chunking that loses nothing *)

Lemma dropWhile_nil (p : ascii -> bool) l :
  JSString.dropWhile p l = [] -> forallb p l = true.
Proof.
  induction l as [|c l IH]; simpl; [reflexivity|].
  destruct (p c); [exact IH|discriminate].
Qed.

Lemma trim_empty s :
  JSString.length (JSString.trim s) = 0 -> forallb JSString.isWhiteSpace (JSString.chars s) = true.
Proof.
  unfold JSString.length, JSString.trim. rewrite length_text, length_rev.
  intros H. apply dropWhile_nil.
  destruct (JSString.dropWhile JSString.isWhiteSpace (JSString.chars s)) as [|c l] eqn:E;
    [reflexivity|].
  exfalso.
  assert (Hc : JSString.isWhiteSpace c = false).
  { clear H. induction (JSString.chars s) as [|d cs IH]; simpl in E; [discriminate|].
    destruct (JSString.isWhiteSpace d) eqn:Ed; [apply IH; exact E|]. congruence. }
  assert (Hall : forallb JSString.isWhiteSpace (rev (c :: l)) = true).
  { apply dropWhile_nil.
    destruct (JSString.dropWhile JSString.isWhiteSpace (rev (c :: l))); [reflexivity|].
    simpl in H. lia. }
  rewrite forallb_forall in Hall. specialize (Hall c).
  rewrite Hall in Hc; [discriminate|]. apply in_rev. rewrite rev_involutive. left. reflexivity.
Qed.

Lemma charAt_slice text a b i :
  0 <= a <= i -> i < b -> b <= JSString.length text ->
  charAt (JSString.slice a (Some b) text) (i - a) = charAt text i.
Proof.
  intros Ha Hi Hb. unfold charAt, JSString.slice, JSString.chars, JSString.text, JSString.length in *.
  rewrite list_ascii_of_string_of_list_ascii.
  destruct (Z.ltb_spec (i - a) 0); [lia|]. destruct (Z.ltb_spec i 0); [lia|].
  pose proof (length_chars text) as Hlen. unfold JSString.chars in Hlen.
  unfold JS.slice, relIndex. rewrite Hlen.
  destruct (Z.ltb_spec a 0); [lia|]. destruct (Z.ltb_spec b 0); [lia|].
  rewrite nth_error_firstn.
  destruct (Nat.ltb_spec (Z.to_nat (i - a))
              (Z.to_nat (Z.min b (Z.of_nat (String.length text))
                         - Z.min a (Z.of_nat (String.length text))))); [|lia].
  rewrite nth_error_skipn. f_equal. lia.
Qed.

Lemma fixedTurn_covers text config file st :
  0 < max_chunk_size config ->
  chunk_overlap config = 0 \/ JSString.length text <= chunk_overlap config ->
  0 <= position st < JSString.length text ->
  coverInvariant text st ->
  coverInvariant text (fixedTurn text config false file st).
Proof.
  intros Hmax Hov Hpos (Hle & Hcov & Htext).
  set (len := JSString.length text) in *.
  set (endPosition := Z.min (position st + max_chunk_size config) len).
  assert (Hend : position st < endPosition <= len) by (unfold endPosition; lia).
  assert (Hnext : position (fixedTurn text config false file st) = endPosition).
  { rewrite fixedTurn_position. fold len endPosition.
    destruct (Z.leb_spec (endPosition - chunk_overlap config) 0); lia. }
  unfold coverInvariant. rewrite Hnext. fold len. split; [lia|].
  unfold fixedTurn. fold len endPosition. rewrite andb_false_r.
  set (raw := JSString.slice (position st) (Some endPosition) text).
  assert (Hraw : JSString.length raw = endPosition - position st).
  { unfold raw. apply length_slice; fold len; lia. }
  cbv zeta. simpl chunks.
  destruct (Z.ltb_spec 0 (JSString.length (JSString.trim raw))) as [Hpush|Hskip].
  - split.
    + intros i ch Hi Hch Hws. apply Exists_app.
      destruct (Z.lt_ge_cases i (position st)) as [Hold|Hnew].
      * left. eapply Hcov; eassumption.
      * right. constructor. unfold covers. simpl. lia.
    + apply Forall_app. split; [exact Htext|]. constructor; [|constructor].
      simpl. unfold piece. simpl. rewrite Hraw.
      replace (position st + (endPosition - position st)) with endPosition by lia. reflexivity.
  - split; [|exact Htext].
    intros i ch Hi Hch Hws.
    destruct (Z.lt_ge_cases i (position st)) as [Hold|Hnew]; [eapply Hcov; eassumption|].
    exfalso.
    assert (Hzero : JSString.length (JSString.trim raw) = 0).
    { unfold JSString.length in *. lia. }
    apply trim_empty in Hzero. rewrite forallb_forall in Hzero.
    assert (Hin : charAt raw (i - position st) = Some ch).
    { unfold raw. rewrite charAt_slice by (fold len; lia). exact Hch. }
    unfold charAt in Hin. destruct (i - position st <? 0); [discriminate|].
    apply nth_error_In in Hin. rewrite (Hzero ch Hin) in Hws. discriminate.
Qed.

Lemma fixedLoop_covers text config file :
  0 < max_chunk_size config ->
  chunk_overlap config = 0 \/ JSString.length text <= chunk_overlap config ->
  forall fuel st result,
    0 <= position st ->
    coverInvariant text st ->
    fixedLoop fuel text config false file st = Some result ->
    (forall i ch, charAt text i = Some ch -> JSString.isWhiteSpace ch = false ->
                  Exists (fun c => covers c i) result) /\
    Forall (fun c => tc_text c = JSString.trim (piece text c)) result.
Proof.
  intros Hmax Hov. induction fuel as [|fuel IH]; intros st result H0 Hinv Hres; simpl in Hres.
  - destruct (Z.ltb_spec (position st) (JSString.length text)); [discriminate|].
    inversion Hres; subst. destruct Hinv as (_ & Hcov & Htext). split; [|exact Htext].
    intros i ch Hch Hws. apply (Hcov i ch); [|exact Hch|exact Hws].
    unfold charAt in Hch. destruct (Z.ltb_spec i 0); [discriminate|].
    assert (Hlt : (Z.to_nat i < List.length (JSString.chars text))%nat).
    { apply nth_error_Some. congruence. }
    rewrite length_chars in Hlt. unfold JSString.length in *. lia.
  - destruct (Z.ltb_spec (position st) (JSString.length text)) as [Hpos|Hdone].
    + apply (IH (fixedTurn text config false file st)); [| |exact Hres].
      * rewrite fixedTurn_position.
        destruct (Z.leb_spec (Z.min (position st + max_chunk_size config) (JSString.length text)
                              - chunk_overlap config) 0); lia.
      * apply fixedTurn_covers; try assumption. lia.
    + inversion Hres; subst. destruct Hinv as (_ & Hcov & Htext). split; [|exact Htext].
      intros i ch Hch Hws. apply (Hcov i ch); [|exact Hch|exact Hws].
      unfold charAt in Hch. destruct (Z.ltb_spec i 0); [discriminate|].
      assert (Hlt : (Z.to_nat i < List.length (JSString.chars text))%nat).
      { apply nth_error_Some. congruence. }
      rewrite length_chars in Hlt. unfold JSString.length in *. lia.
Qed.

(** X17.  With a positive [max_chunk_size], without sentence boundaries and
    with an overlap of zero or of at least the length of the text, the
    chunks [chunkByFixedSize] returns lose
    no content: every character that is not white space lies in the stretch
    of some chunk, and the text of each chunk is its stretch of the text,
    trimmed. *)
Theorem chunkByFixedSize_loses_nothing (text : string) (config : ChunkingConfig)
    (sourceFilename : string) (fuel : nat) (result : list TextChunk) :
  0 < max_chunk_size config ->
  chunk_overlap config = 0 \/ JSString.length text <= chunk_overlap config ->
  chunkByFixedSize fuel text config false sourceFilename = Some result ->
  (forall i ch, charAt text i = Some ch -> JSString.isWhiteSpace ch = false ->
                Exists (fun c => covers c i) result) /\
  Forall (fun c => tc_text c = JSString.trim (piece text c)) result.
Proof.
  intros Hmax Hov Hres.
  eapply (fixedLoop_covers text config sourceFilename Hmax Hov fuel
            {| position := 0; chunkIndex := 0; chunks := [] |}); [simpl; lia| |exact Hres].
  unfold coverInvariant. simpl. split; [unfold JSString.length; lia|]. split; [|constructor].
  intros i ch Hi Hch. unfold charAt in Hch. destruct (Z.ltb_spec i 0); [discriminate|lia].
Qed.

Lemma chunkByFixedSize_loses_nothing_witness :
  charAt sixty 48 = Some "r"%char /\
  exists result,
    chunkByFixedSize 60 sixty tens false "faq.md" = Some result /\
    Exists (fun c => covers c 48) result.
Proof.
  split; [reflexivity|].
  destruct (chunkByFixedSize 60 sixty tens false "faq.md") as [result|] eqn:E;
    [|vm_compute in E; discriminate].
  exists result. split; [reflexivity|].
  destruct (chunkByFixedSize_loses_nothing sixty tens "faq.md" 60 result) as [Hcov _].
  - reflexivity.
  - left. reflexivity.
  - exact E.
  - apply (Hcov 48 "r"%char); reflexivity.
Defined.

End Chunking.

(* --------------------------------------------------------------------- *)
(** ** Language model client                                           *)
(* --------------------------------------------------------------------- *)

Module Completions.
Import JS LLM LLMSpec.

(** *** Embeddings *)

(** X18.  [generateGeminiEmbeddings] returns the vectors of the responses
    that carry one, in the order of the texts, and silently leaves out a
    text whose response has none: the result is never longer than the list
    of texts, and has one vector per text only if every response carried
    one.  It throws only what a request threw. *)
Theorem embeddings_may_be_fewer (embedContent : string -> result (option (list float)))
    (texts : list string) :
  match generateGeminiEmbeddings embedContent texts with
  | Ok embeddings =>
      embeddings = answered embedContent texts /\
      (length embeddings <= length texts)%nat /\
      (length embeddings = length texts <-> Forall (carriesVector embedContent) texts)
  | Throw m => exists text, In text texts /\ embedContent text = Throw m
  end.
Proof.
  induction texts as [|text texts IH]; simpl.
  - split; [reflexivity|]. split; [lia|]. split; [constructor|reflexivity].
  - unfold answered in *. simpl.
    destruct (embedContent text) as [values|m] eqn:E; simpl.
    + destruct (generateGeminiEmbeddings embedContent texts) as [embeddings|m]; simpl.
      * destruct IH as (Heq & Hle & Hiff). destruct values as [v|]; simpl.
        -- split; [f_equal; exact Heq|]. split; [lia|]. split.
           ++ intros H. constructor; [exists v; exact E|]. apply Hiff. lia.
           ++ intros H. inversion H; subst. f_equal. apply Hiff. assumption.
        -- split; [exact Heq|]. split; [lia|]. split.
           ++ intros H. lia.
           ++ intros H. inversion H as [|? ? [v Hv] _]; subst. congruence.
      * destruct IH as (t & Hin & Ht). exists t. split; [right; exact Hin|exact Ht].
    + exists text. split; [left; reflexivity|exact E].
Qed.

(** *** The request sent *)

Lemma orNumber_truthy x d :
  (d =? 0)%float = false -> is_nan d = false ->
  (orNumber x d =? 0)%float = false /\ is_nan (orNumber x d) = false.
Proof.
  intros Hd Hn. unfold orNumber. destruct x as [v|]; [|split; assumption].
  destruct (v =? 0)%float eqn:E0; simpl; [split; assumption|].
  destruct (is_nan v) eqn:En; [split; assumption|]. split; assumption.
Qed.

(** X19.  The temperature, [max_tokens] and [top_p] sent to Groq and the
    temperature sent to Gemini are never 0: the defaults are applied with
    [||], so a request for temperature 0 is sent with temperature 0.7. *)
Theorem zero_is_replaced_by_default (config : LLMProviderConfig) (request : LLMRequest) :
  (payload_temperature (groqPayload config request) =? 0)%float = false /\
  (generation_temperature (geminiPayload request) =? 0)%float = false /\
  (payload_max_tokens (groqPayload config request) =? 0)%float = false /\
  (payload_top_p (groqPayload config request) =? 0)%float = false /\
  (forall z, temperature request = Some z -> (z =? 0)%float = true ->
     payload_temperature (groqPayload config request) = 0x1.6666666666666p-1%float /\
     generation_temperature (geminiPayload request) = 0x1.6666666666666p-1%float).
Proof.
  unfold groqPayload, geminiPayload. simpl.
  repeat split; try (apply orNumber_truthy; reflexivity);
    rewrite H; unfold orNumber; rewrite H0; reflexivity.
Qed.

(** *** Retries *)




(** Two requests in a row to a fresh service with the default of three
    retries: the first succeeds at its third call, the second meets a
    provider that stays unavailable and is given one retry, not three. *)
Lemma retry_budget_is_shared_example :
  exists first second,
    generateCompletion 3 (unavailableFor 2 hello) 0 groqService = Some first /\
    outcome first = Ok hello /\ delays first = [1000; 2000] /\
    retryCount (service first) = 2 /\
    generateCompletion 3 (unavailableFor 9 hello) 0 (service first) = Some second /\
    calls second = 2%nat /\ delays second = [3000] /\
    retryCount (service second) = 0.
Proof. eexists _, _. vm_compute. repeat split. Qed.

End Completions.

Module Ingestion.
Import JS VectorUtils RAG IndexSpec LLMSpec.

Lemma pushLoop_short filename now : forall chunks embeddings acc,
  (length embeddings < length chunks)%nat ->
  pushLoop filename now chunks embeddings acc =
    (acc ++ embedAll filename now chunks embeddings,
     Throw "Cannot read properties of undefined (reading 'length')").
Proof.
  unfold embedAll.
  induction chunks as [|c chunks IH]; intros embeddings acc Hlt; simpl in Hlt; [lia|].
  destruct embeddings as [|e embeddings]; simpl.
  - rewrite app_nil_r. reflexivity.
  - rewrite IH by (simpl in Hlt; lia). rewrite <- app_assoc. reflexivity.
Qed.

(** X21.  If the embedding service returns fewer vectors than the document
    has chunks, [processDocument] throws the [TypeError] of reading [length]
    of [undefined], but only after it has pushed one embedded chunk per
    returned vector: [processDocuments] logs the failure, the document is
    missing from [documentsIndex], and its first chunks stay in
    [embeddedChunks]. *)
Theorem missing_embedding_leaves_orphans (env : Env) (filename content : string)
    (metadata : list (string * string)) (s : RAGService)
    (chunks : list TextChunk) (embeddings : list (list float)) :
  let failure := "Cannot read properties of undefined (reading 'length')"%string in
  let s' := fst (processDocuments env
                   [ {| in_filename := filename; in_content := content;
                        in_metadata := metadata |} ] s) in
  chunkText (textUtils env)
    (stripMarkdown (textUtils env) (cleanText (textUtils env) content))
    (chunkingConfig (config s)) filename = Ok chunks ->
  generateEmbeddings (llmService env) (map tc_text chunks) = Ok embeddings ->
  (length embeddings < length chunks)%nat ->
  snd (processDocument env filename content metadata s) = Throw failure /\
  embeddedChunks s' = embeddedChunks s ++ embedAll filename (now env) chunks embeddings /\
  documentsIndex s' = documentsIndex s /\
  In (JS.error (String.append "Failed to process document: " filename) failure) (log s').
Proof.
  intros failure s' Hchunks Hemb Hlt.
  assert (Hp : processDocument env filename content metadata
                 (logged (info "Processing documents for RAG") s) =
               processDocument env filename content metadata
                 (logged (info "Processing documents for RAG") s)) by reflexivity.
  unfold s', processDocuments. simpl processEach.
  unfold processDocument. simpl config. simpl embeddedChunks.
  rewrite Hchunks, Hemb. rewrite !pushLoop_short by exact Hlt.
  simpl. split; [reflexivity|]. split; [reflexivity|]. split; [reflexivity|].
  apply in_or_app. left. apply in_or_app. right. left. reflexivity.
Qed.

Lemma missing_embedding_leaves_orphans_witness :
  map (fun c => (id c, values (embedding c)))
    (embeddedChunks (fst (processDocuments patchyEnv
       [ {| in_filename := "faq"; in_content := "text"; in_metadata := [] |} ]
       (create emptyDirectory plainConfig))))
  = [("faq_chunk_0000"%string, [3; 1]%float); ("faq_chunk_0001"%string, [5; 1]%float)] /\
  documentsIndex (fst (processDocuments patchyEnv
       [ {| in_filename := "faq"; in_content := "text"; in_metadata := [] |} ]
       (create emptyDirectory plainConfig))) = ∅.
Proof.
  destruct (missing_embedding_leaves_orphans patchyEnv "faq" "text" [] (create emptyDirectory plainConfig)
              (match threeChunks "text" (chunkingConfig plainConfig) "faq" with
               | Ok l => l | Throw _ => [] end)
              [[3; 1]; [5; 1]]%float) as (_ & Hchunks & Hdocs & _).
  - reflexivity.
  - vm_compute. reflexivity.
  - simpl. lia.
  - rewrite Hchunks, Hdocs. split; [vm_compute; reflexivity|reflexivity].
Defined.

End Ingestion.

(* --------------------------------------------------------------------- *)
(** ** Knowledge base                                                  *)
(* --------------------------------------------------------------------- *)

Module Knowledge.
Import JS VectorUtils RAG IndexSpec KnowledgeSpec Retrieval.

(** *** Filters *)

Lemma filter_idempotent {A} (f : A -> bool) (l : list A) :
  List.filter f (List.filter f l) = List.filter f l.
Proof.
  induction l as [|x l IH]; simpl; [reflexivity|].
  destruct (f x) eqn:E; simpl; [rewrite E, IH|]; auto.
Qed.

Lemma filter_sublist {A} (f : A -> bool) (l : list A) : sublist (List.filter f l) l.
Proof.
  induction l as [|x l IH]; simpl; [constructor|].
  destruct (f x); [apply sublist_skip|apply sublist_cons]; exact IH.
Qed.

Lemma filter_all {A} (f : A -> bool) (l : list A) :
  (forall x, f x = true) -> List.filter f l = l.
Proof.
  intros H. induction l as [|x l IH]; simpl; [reflexivity|]. rewrite H, IH. reflexivity.
Qed.

(** X22.  [applyFilters] only removes results and keeps the order of the
    rest; applying it twice is the same as once; every result it keeps
    passes the filters; without filters, or with filters that restrict
    nothing, it removes nothing.  The date range includes both its ends, and
    a filter on sections removes every chunk without a section. *)
Theorem applyFilters_only_removes (chunks : list SimilarityResult) (filters : option Filters) :
  sublist (applyFilters chunks filters) chunks /\
  applyFilters (applyFilters chunks filters) filters = applyFilters chunks filters /\
  (forall f, filters = Some f -> Forall (fun r => passes f r = true) (applyFilters chunks filters)) /\
  (filters = None -> applyFilters chunks filters = chunks) /\
  (forall f, filters = Some f -> unrestricted f -> applyFilters chunks filters = chunks) /\
  (forall from to r, created_at (chunk r) = from \/ created_at (chunk r) = to ->
     from <= to -> passes (onlyDates from to) r = true) /\
  (forall names r, names <> [] -> section (source (chunk r)) = None ->
     passes (onlySections names) r = false).
Proof.
  split; [|split; [|split; [|split; [|split; [|split]]]]].
  - destruct filters; simpl; [apply filter_sublist|reflexivity].
  - destruct filters; simpl; [apply filter_idempotent|reflexivity].
  - intros f ->. simpl. apply List.Forall_forall. intros r Hr.
    apply filter_In in Hr. apply Hr.
  - intros ->. reflexivity.
  - intros f -> (Hn & Hs & Hd). simpl. apply filter_all. intros r. unfold passes.
    rewrite Hd. destruct Hn as [-> | ->], Hs as [-> | ->]; reflexivity.
  - intros from to r Hr Hle. unfold passes, onlyDates. simpl.
    destruct Hr as [-> | ->].
    + rewrite Z.ltb_irrefl. simpl. apply negb_true_iff. apply Z.ltb_ge. exact Hle.
    + rewrite Z.ltb_irrefl, andb_true_r. apply negb_true_iff. apply Z.ltb_ge. exact Hle.
  - intros names r Hne Hsec. unfold passes, onlySections. simpl.
    destruct names as [|n names]; [contradiction|]. simpl. rewrite Hsec. reflexivity.
Qed.

(** *** One failing document *)

Lemma processDocument_knowledge env filename content metadata s e :
  knowledge (fst (processDocument env filename content metadata (logged e s))) =
  knowledge (fst (processDocument env filename content metadata s)) /\
  snd (processDocument env filename content metadata (logged e s)) =
  snd (processDocument env filename content metadata s).
Proof.
  unfold processDocument. simpl config. simpl embeddedChunks.
  destruct (chunkText _ _ _ _) as [chunks|m]; [|split; reflexivity].
  destruct (generateEmbeddings _ _) as [embeddings|m]; [|split; reflexivity].
  destruct (pushLoop _ _ _ _ _) as [pushed [u|m]]; split; reflexivity.
Qed.

Lemma processDocument_config env filename content metadata s :
  config (fst (processDocument env filename content metadata s)) = config s.
Proof.
  unfold processDocument.
  destruct (chunkText _ _ _ _) as [chunks|m]; [|reflexivity].
  destruct (generateEmbeddings _ _) as [embeddings|m]; [|reflexivity].
  destruct (pushLoop _ _ _ _ _) as [pushed [u|m]]; reflexivity.
Qed.

Lemma processDocument_congruence env filename content metadata s1 s2 :
  knowledge s1 = knowledge s2 -> config s1 = config s2 ->
  knowledge (fst (processDocument env filename content metadata s1)) =
  knowledge (fst (processDocument env filename content metadata s2)) /\
  snd (processDocument env filename content metadata s1) =
  snd (processDocument env filename content metadata s2).
Proof.
  unfold knowledge. intros Hk Hc. inversion Hk as [[Hch Hd]].
  unfold processDocument. simpl config. simpl embeddedChunks. rewrite Hc, Hch.
  destruct (chunkText _ _ _ _) as [chunks|m]; [|simpl; split; congruence].
  destruct (generateEmbeddings _ _) as [embeddings|m]; [|simpl; split; congruence].
  destruct (pushLoop _ _ _ _ _) as [pushed [u|m]]; simpl; split; congruence.
Qed.

Lemma processDocument_log env filename content metadata s e :
  In e (log s) -> In e (log (fst (processDocument env filename content metadata s))).
Proof.
  intros H. unfold processDocument.
  destruct (chunkText _ _ _ _) as [chunks|m]; [|simpl; apply in_or_app; left; exact H].
  destruct (generateEmbeddings _ _) as [embeddings|m];
    [|simpl; apply in_or_app; left; apply in_or_app; left; exact H].
  destruct (pushLoop _ _ _ _ _) as [pushed [u|m]]; simpl;
    repeat (apply in_or_app; left); exact H.
Qed.

Lemma processEach_cons env doc docs s :
  processEach env (doc :: docs) s = processEach env docs (processOne env doc s).
Proof. reflexivity. Qed.

Lemma processOne_facts env doc s :
  config (processOne env doc s) = config s /\
  (forall e, In e (log s) -> In e (log (processOne env doc s))).
Proof.
  unfold processOne.
  pose proof (processDocument_config env (in_filename doc) (in_content doc) (in_metadata doc) s) as Hc.
  pose proof (processDocument_log env (in_filename doc) (in_content doc) (in_metadata doc) s) as Hl.
  destruct (processDocument _ _ _ _ s) as [s' [u|m]]; simpl in *; split; try exact Hc; try exact Hl.
  intros e He. apply in_or_app. left. apply Hl. exact He.
Qed.

Lemma processOne_congruence env doc s1 s2 :
  knowledge s1 = knowledge s2 -> config s1 = config s2 ->
  knowledge (processOne env doc s1) = knowledge (processOne env doc s2).
Proof.
  intros Hk Hc. unfold processOne.
  destruct (processDocument_congruence env (in_filename doc) (in_content doc) (in_metadata doc)
              s1 s2 Hk Hc) as [H1 H2].
  destruct (processDocument _ _ _ _ s1) as [s1' r1], (processDocument _ _ _ _ s2) as [s2' r2].
  simpl in *. subst r2. destruct r1; exact H1.
Qed.

Lemma processEach_facts env docs : forall s,
  config (processEach env docs s) = config s /\
  (forall e, In e (log s) -> In e (log (processEach env docs s))).
Proof.
  induction docs as [|doc docs IH]; intros s; [split; auto|].
  rewrite processEach_cons. destruct (IH (processOne env doc s)) as [Hc Hl].
  destruct (processOne_facts env doc s) as [Hc1 Hl1].
  split; [congruence|]. intros e He. apply Hl, Hl1, He.
Qed.

Lemma processEach_congruence env docs : forall s1 s2,
  knowledge s1 = knowledge s2 -> config s1 = config s2 ->
  knowledge (processEach env docs s1) = knowledge (processEach env docs s2).
Proof.
  induction docs as [|doc docs IH]; intros s1 s2 Hk Hc; [exact Hk|].
  rewrite !processEach_cons. apply IH.
  - apply processOne_congruence; assumption.
  - rewrite !(proj1 (processOne_facts env doc _)). exact Hc.
Qed.

Lemma processEach_app env docs1 docs2 s :
  processEach env (docs1 ++ docs2) s = processEach env docs2 (processEach env docs1 s).
Proof.
  revert s. induction docs1 as [|doc docs1 IH]; intros s; [reflexivity|].
  simpl app. rewrite !processEach_cons. apply IH.
Qed.

Lemma processOne_unprocessable env doc s m :
  unprocessable env s doc m ->
  knowledge (processOne env doc s) = knowledge s /\
  In (error (String.append "Failed to process document: " (in_filename doc)) m)
     (log (processOne env doc s)).
Proof.
  unfold unprocessable, processOne, processDocument. simpl config.
  intros [H|(chunks & H1 & H2)].
  - rewrite H. simpl. split; [reflexivity|]. apply in_or_app. right. left. reflexivity.
  - rewrite H1, H2. simpl. split; [reflexivity|]. apply in_or_app. right. left. reflexivity.
Qed.

(** X23.  A document for which [processDocument] throws before it stores
    anything does not stop [processDocuments]: the batch succeeds, the
    chunks and documents held afterwards are those of the batch without that
    document, and the failure is logged with the filename. *)
Theorem unprocessable_document_is_skipped (env : Env) (doc : Document) (m : string)
    (before after : list Document) (s : RAGService) :
  let s' := fst (processDocuments env (before ++ doc :: after) s) in
  unprocessable env s doc m ->
  snd (processDocuments env (before ++ doc :: after) s) = Ok tt /\
  knowledge s' = knowledge (fst (processDocuments env (before ++ after) s)) /\
  In (error (String.append "Failed to process document: " (in_filename doc)) m) (log s').
Proof.
  intros s' Hbad. split; [reflexivity|].
  unfold s', processDocuments. simpl fst.
  set (s0 := logged (info "Processing documents for RAG") s).
  rewrite !processEach_app, processEach_cons.
  set (s1 := processEach env before s0).
  assert (Hc1 : config s1 = config s).
  { unfold s1. rewrite (proj1 (processEach_facts env before s0)). reflexivity. }
  assert (Hbad1 : unprocessable env s1 doc m).
  { unfold unprocessable in *. rewrite Hc1. exact Hbad. }
  destruct (processOne_unprocessable env doc s1 m Hbad1) as [Hk Hin].
  split.
  - unfold knowledge at 1 2. simpl.
    change (embeddedChunks ?x, documentsIndex ?x) with (knowledge x).
    change (embeddedChunks (processEach env after (processOne env doc s1)),
            documentsIndex (processEach env after (processOne env doc s1)))
      with (knowledge (processEach env after (processOne env doc s1))).
    apply processEach_congruence; [exact Hk|].
    apply (proj1 (processOne_facts env doc s1)).
  - simpl. apply in_or_app. left.
    apply (proj2 (processEach_facts env after (processOne env doc s1))). exact Hin.
Qed.

Lemma unprocessable_document_is_skipped_witness :
  size (documentsIndex (fst (processDocuments pickyEnv
          [ {| in_filename := "a"; in_content := "good"; in_metadata := [] |};
            {| in_filename := "b"; in_content := "bad"; in_metadata := [] |};
            {| in_filename := "c"; in_content := "fine"; in_metadata := [] |} ]
          (create emptyDirectory plainConfig)))) = 2%nat /\
  map id (embeddedChunks (fst (processDocuments pickyEnv
          [ {| in_filename := "a"; in_content := "good"; in_metadata := [] |};
            {| in_filename := "b"; in_content := "bad"; in_metadata := [] |};
            {| in_filename := "c"; in_content := "fine"; in_metadata := [] |} ]
          (create emptyDirectory plainConfig))))
    = ["a_chunk_0000"; "a_chunk_0001"; "c_chunk_0000"; "c_chunk_0001"]%string.
Proof.
  destruct (unprocessable_document_is_skipped pickyEnv
              {| in_filename := "b"; in_content := "bad"; in_metadata := [] |}
              "Unsupported chunking strategy: none"
              [ {| in_filename := "a"; in_content := "good"; in_metadata := [] |} ]
              [ {| in_filename := "c"; in_content := "fine"; in_metadata := [] |} ]
              (create emptyDirectory plainConfig)) as (_ & Hk & _).
  - left. reflexivity.
  - simpl app in Hk. unfold knowledge in Hk.
    pose proof (f_equal fst Hk) as Hch. pose proof (f_equal snd Hk) as Hd.
    cbn [fst snd] in Hch, Hd. rewrite Hch, Hd. split; vm_compute; reflexivity.
Defined.

(** *** A query against an empty knowledge base *)

Lemma generateQueryEmbedding_cases env text s :
  match snd (generateQueryEmbedding env text s) with
  | Ok q => fst (generateQueryEmbedding env text s) = s /\ length q <> 0%nat
  | Throw _ => True
  end.
Proof.
  unfold generateQueryEmbedding.
  destruct (generateEmbeddings (llmService env) [cleanText (textUtils env) text])
    as [[|q l]|m]; simpl; try exact I.
  unfold validateVector. destruct (Nat.eqb_spec (length q) 0); simpl; [exact I|].
  destruct (firstNaN 0 q); simpl; [exact I|]. split; [reflexivity|assumption].
Qed.

(** X24.  [retrieveContent] throws before [initialize] has run; after an
    [initialize] that found no cache file, a query whose embedding can be
    computed is answered with no chunks, 0 documents and 0 chunks searched,
    not with an error. *)
Theorem empty_knowledge_base_answers_empty (env : Env) (cache : Cache)
    (config : RAGServiceConfig) (context : RAGContext) (queryEmbedding : list float) :
  let service := fst (initialize cache (create cache config)) in
  (forall path, existsSync cache path = false) ->
  snd (generateQueryEmbedding env (query context) service) = Ok queryEmbedding ->
  snd (retrieveContent env context (create cache config)) =
    Throw "RAG Service not initialized. Call initialize() first." /\
  snd (retrieveContent env context service) =
    Ok {| retrieved_chunks := []; documents_searched := 0; chunks_searched := 0 |}.
Proof.
  intros service Hnone Hq. split; [reflexivity|].
  assert (Hs : service = logged (info "RAG Service initialization completed")
                           (withInitialized true (create cache config))).
  { unfold service, initialize, loadExistingData, loadDocuments, loadChunks. simpl.
    rewrite !Hnone. reflexivity. }
  unfold retrieveContent.
  assert (Hi : isInitialized service = true) by (rewrite Hs; reflexivity).
  rewrite Hi. simpl negb. cbv iota zeta.
  set (s1 := logged (debug "Retrieving content for query") service).
  pose proof (generateQueryEmbedding_cases env (query context) s1) as Hcases.
  rewrite (generateQueryEmbedding_result env (query context) s1 service), Hq in Hcases.
  destruct Hcases as [Hfst Hlen].
  pose proof (generateQueryEmbedding_result env (query context) s1 service) as Hsnd.
  rewrite Hq in Hsnd.
  destruct (generateQueryEmbedding env (query context) s1) as [s2 r]. simpl in Hfst, Hsnd.
  subst s2 r.
  assert (Hch : embeddedChunks s1 = []) by (unfold s1; rewrite Hs; reflexivity).
  assert (Hd : documentsIndex s1 = ∅) by (unfold s1; rewrite Hs; reflexivity).
  unfold findSimilarChunks. rewrite Hch.
  destruct (Nat.eqb_spec (length queryEmbedding) 0); [contradiction|].
  change (length (@nil EmbeddedChunk) =? 0)%nat with true. cbv iota.
  cbn [fst snd applyFilters withConsole logged embeddedChunks documentsIndex length].
  rewrite Hd, Hch. rewrite map_size_empty.
  destruct (filters (search_params context)); reflexivity.
Qed.

Lemma empty_knowledge_base_answers_empty_witness :
  snd (retrieveContent plainEnv filteredQuery
         (fst (initialize emptyCache (create emptyCache plainConfig)))) =
    Ok {| retrieved_chunks := []; documents_searched := 0; chunks_searched := 0 |}.
Proof.
  apply (empty_knowledge_base_answers_empty plainEnv emptyCache plainConfig filteredQuery
           [1; 0]%float).
  - reflexivity.
  - reflexivity.
Defined.

End Knowledge.

(* --------------------------------------------------------------------- *)
(** ** Agent                                                           *)
(* --------------------------------------------------------------------- *)

Module Orchestration.
Import JS Agent AgentSpec.

Lemma chunkEntry_throws index r :
  chunkEntry index (ofResult r) = Throw noSource.
Proof. reflexivity. Qed.

Lemma buildSystemPrompt_throws ragResults pluginResults :
  RAG.retrieved_chunks ragResults <> [] ->
  buildSystemPrompt ragResults pluginResults = Throw noSource.
Proof.
  intros Hne. unfold buildSystemPrompt.
  destruct (RAG.retrieved_chunks ragResults) as [|r rs]; [contradiction|].
  simpl map. simpl (0 <? _)%nat. cbv iota.
  assert (Hs : exists rest, slice 0 (Some 3) (ofResult r :: map ofResult rs) = ofResult r :: rest).
  { rewrite SliceFacts.slice_prefix by lia. simpl. eauto. }
  destruct Hs as [rest ->]. reflexivity.
Qed.

Lemma filenames_nil chunks l : filenames (map ofResult chunks) = Ok l -> chunks = [].
Proof. destruct chunks as [|r rs]; [reflexivity|]. simpl. discriminate. Qed.

(** X25.  Whenever retrieval returns at least one chunk, [processMessage]
    answers with the error [PROCESSING_ERROR]: [buildSystemPrompt] reads
    [chunk.source.filename] of a similarity result, which has no [source].
    The user message has been stored by then, and nothing else is. *)
Theorem retrieved_chunk_fails_the_request (env : Env) (request : AgentMessageRequest)
    (a : AgentService) (ragResults : RAG.RAGResult) :
  retrieved env request a = Ok ragResults ->
  RAG.retrieved_chunks ragResults <> [] ->
  snd (processMessage env request a) = failed noSource /\
  memoryService (fst (processMessage env request a)) =
    fst (Memory.addMessage (userMessageId env) (userMessageTime env) (session_id request)
           Memory.user (message request) [listed "plugins_used" (pluginsFor request a)]
           (memoryService a)).
Proof.
  unfold retrieved, pluginsFor, processMessage. intros Hr Hne.
  destruct (Plugins.processInput _ _ _) as [plugins pluginResults]. simpl ragService.
  destruct (RAG.retrieveContent _ _ _) as [rag r]. simpl in Hr. subst r.
  rewrite (buildSystemPrompt_throws _ _ Hne). split; reflexivity.
Qed.

Lemma retrieved_chunk_fails_the_request_witness :
  snd (processMessage agentEnv ask agent) = failed noSource /\
  map Memory.content (remembered "s1" (fst (processMessage agentEnv ask agent)))
    = ["what is in b?"%string].
Proof.
  destruct (retrieved_chunk_fails_the_request agentEnv ask agent
              (match retrieved agentEnv ask agent with
               | Ok r => r
               | Throw _ => {| RAG.retrieved_chunks := []; RAG.documents_searched := 0;
                               RAG.chunks_searched := 0 |}
               end)) as [Hfail Hmem].
  - vm_compute. reflexivity.
  - vm_compute. discriminate.
  - split; [exact Hfail|]. unfold remembered. rewrite Hmem. vm_compute. reflexivity.
Defined.

(** X26.  Every successful answer of [processMessage] has an empty
    [sources_used]: a request succeeds only if retrieval returned no chunk;
    then the response is the content of the completion, [plugins_used] lists
    the executed plugins, and memory holds the user message followed by the
    assistant message. *)
Theorem success_has_no_sources (env : Env) (request : AgentMessageRequest)
    (a : AgentService) (data : ResponseData) :
  snd (processMessage env request a) = Succeeded data ->
  sources_used data = [] /\
  plugins_used data = pluginsFor request a /\
  (exists ragResults, retrieved env request a = Ok ragResults /\
                      RAG.retrieved_chunks ragResults = []) /\
  exists request_ llmResponse,
    generateCompletion env request_ = Ok llmResponse /\
    response data = LLM.response_content llmResponse /\
    memoryService (fst (processMessage env request a)) =
      fst (Memory.addMessage (assistantMessageId env) (assistantMessageTime env)
             (session_id request) Memory.assistant (LLM.response_content llmResponse)
             [listed "sources_used" []; listed "plugins_used" (pluginsFor request a)]
             (fst (Memory.addMessage (userMessageId env) (userMessageTime env)
                     (session_id request) Memory.user (message request)
                     [listed "plugins_used" (pluginsFor request a)] (memoryService a)))).
Proof.
  unfold retrieved, pluginsFor, processMessage.
  destruct (Plugins.processInput _ _ _) as [plugins pluginResults]. simpl ragService.
  destruct (RAG.retrieveContent _ _ _) as [rag [ragResults|m]]; [|discriminate].
  destruct (buildSystemPrompt ragResults pluginResults) as [systemPrompt|m]; [|discriminate].
  match goal with |- context [generateCompletion env ?r] => set (request_ := r) end.
  destruct (generateCompletion env request_) as [llmResponse|m] eqn:Ec; [|discriminate].
  destruct (filenames _) as [sourcesUsed|m] eqn:Ef; [|discriminate].
  pose proof (filenames_nil _ _ Ef) as Hnil. rewrite Hnil in *. simpl in Ef.
  inversion Ef; subst sourcesUsed. simpl.
  intros H. inversion H; subst data; clear H. simpl.
  split; [reflexivity|]. split; [reflexivity|]. split; [eauto|].
  exists request_, llmResponse. split; [exact Ec|]. split; reflexivity.
Qed.

Lemma success_has_no_sources_witness :
  map Memory.content (remembered "s1" (fst (processMessage agentEnv ask blankAgent)))
    = ["what is in b?"; "Hello"]%string /\
  exists data, snd (processMessage agentEnv ask blankAgent) = Succeeded data /\
               sources_used data = [].
Proof.
  destruct (snd (processMessage agentEnv ask blankAgent)) as [data|e] eqn:E;
    [|vm_compute in E; discriminate].
  destruct (success_has_no_sources agentEnv ask blankAgent data E) as (Hs & _).
  split; [vm_compute; reflexivity|]. exists data. split; [reflexivity|exact Hs].
Defined.

End Orchestration.

(* --------------------------------------------------------------------- *)
(** ** Distances                                                       *)
(* --------------------------------------------------------------------- *)

Module DistanceFacts.
Import JS VectorUtils Distances DistanceSpec FloatDifference.

Lemma squaresLoop_sym a : forall b sum, squaresLoop a b sum = squaresLoop b a sum.
Proof.
  induction a as [|x a IH]; intros [|y b] sum; try reflexivity.
  simpl. rewrite (square_sub_sym x y). apply IH.
Qed.

Lemma absLoop_sym a : forall b sum, absLoop a b sum = absLoop b a sum.
Proof.
  induction a as [|x a IH]; intros [|y b] sum; try reflexivity.
  simpl. rewrite (abs_sub_sym x y). apply IH.
Qed.

Lemma squaresLoop_diag a :
  Forall (fun x => isFinite x = true) a -> squaresLoop a a 0 = 0%float.
Proof.
  induction 1 as [|x a Hx _ IH]; [reflexivity|].
  simpl. rewrite (sub_diag x Hx). exact IH.
Qed.

Lemma absLoop_diag a :
  Forall (fun x => isFinite x = true) a -> absLoop a a 0 = 0%float.
Proof.
  induction 1 as [|x a Hx _ IH]; [reflexivity|].
  simpl. rewrite (sub_diag x Hx). exact IH.
Qed.

(** X27.  [euclideanDistance] and [manhattanDistance] are symmetric for all
    vectors of binary64 numbers, NaN and the infinities included: swapping
    the arguments gives the same number, or the same error. *)
Theorem distances_are_symmetric (a b : list float) :
  euclideanDistance a b = euclideanDistance b a /\
  manhattanDistance a b = manhattanDistance b a.
Proof.
  unfold euclideanDistance, manhattanDistance.
  rewrite (Nat.eqb_sym (length a) (length b)).
  rewrite (squaresLoop_sym a b), (absLoop_sym a b). split; reflexivity.
Qed.

(** X28.  For a vector whose components are all finite, the Euclidean and
    the Manhattan distance from the vector to itself are exactly 0; this
    includes the empty vector, for which these functions do not throw. *)
Theorem distance_to_itself_is_zero (a : list float) :
  Forall (fun x => isFinite x = true) a ->
  euclideanDistance a a = Ok 0%float /\ manhattanDistance a a = Ok 0%float.
Proof.
  intros H. unfold euclideanDistance, manhattanDistance.
  rewrite Nat.eqb_refl. simpl.
  rewrite (squaresLoop_diag a H), (absLoop_diag a H). split; reflexivity.
Qed.

Lemma distance_to_itself_is_zero_witness :
  Forall (fun x => isFinite x = true) point /\
  euclideanDistance point point = Ok 0%float /\ manhattanDistance point point = Ok 0%float.
Proof.
  assert (H : Forall (fun x => isFinite x = true) point)
    by (repeat constructor).
  split; [exact H | exact (distance_to_itself_is_zero point H)].
Defined.

(** An infinite component breaks it: [Infinity - Infinity] is NaN. *)
Example distance_of_infinity :
  euclideanDistance [infinity] [infinity] = Ok nan /\
  manhattanDistance [infinity] [infinity] = Ok nan.
Proof. split; reflexivity. Qed.

Lemma cosineSimilarity_throws q v :
  q <> [] ->
  (exists e, cosineSimilarity q v = Throw e) <-> length v <> length q.
Proof.
  intros Hq. unfold cosineSimilarity.
  destruct (Nat.eqb_spec (length q) (length v)) as [E|E]; simpl.
  - destruct (Nat.eqb_spec (length q) 0) as [Z0|Z0].
    + destruct q; [congruence|discriminate].
    + destruct (magnitudeLoop q v 0 0) as [sumA sumB].
      split; [|intros H; congruence].
      intros [e He]. destruct (_ || _) in He; discriminate.
  - split; [intros _; congruence|]. intros _. eexists. reflexivity.
Qed.

Lemma batchLoop_facts q : forall vs,
  q <> [] ->
  fst (batchLoop q vs) = map (scoreOf q) vs /\
  length (snd (batchLoop q vs)) = length (mismatched q vs).
Proof.
  intros vs Hq. induction vs as [|v vs [IH1 IH2]]; [split; reflexivity|].
  simpl. destruct (batchLoop q vs) as [scores console]. simpl in IH1, IH2.
  unfold scoreOf at 1.
  pose proof (cosineSimilarity_throws q v Hq) as Ht.
  destruct (cosineSimilarity q v) as [s|e]; simpl.
  - split; [congruence|].
    destruct (Nat.eqb_spec (length v) (length q)) as [E|E]; simpl; [assumption|].
    destruct Ht as [_ Ht]. destruct (Ht E) as [e He]. discriminate.
  - split; [congruence|].
    destruct (Nat.eqb_spec (length v) (length q)) as [E|E]; simpl; [|congruence].
    destruct Ht as [Ht _]. exfalso. apply Ht; [eexists; reflexivity|assumption].
Qed.

(** X29.  For a non-empty query [batchCosineSimilarity] returns one score
    per vector, in the order of the vectors: the cosine similarity, or 0
    where it cannot be computed.  It writes one console error for each
    vector whose dimension differs from that of the query, and no other. *)
Theorem batch_scores_stay_aligned (q : list float) (vs : list (list float)) :
  q <> [] ->
  exists console,
    batchCosineSimilarity q vs = (Ok (map (scoreOf q) vs), console) /\
    length console = length (mismatched q vs).
Proof.
  intros Hq. unfold batchCosineSimilarity.
  destruct (Nat.eqb_spec (length q) 0) as [Z0|Z0].
  { destruct q; [congruence|discriminate]. }
  destruct (Nat.eqb_spec (length vs) 0) as [Z1|Z1].
  { destruct vs; [|discriminate]. exists []. split; reflexivity. }
  destruct (batchLoop_facts q vs Hq) as [H1 H2].
  destruct (batchLoop q vs) as [scores console]. simpl in H1, H2.
  exists console. split; [congruence|assumption].
Qed.

Lemma batch_scores_stay_aligned_witness :
  [1%float; 0%float] <> [] /\
  exists console,
    batchCosineSimilarity [1%float; 0%float] candidates
      = (Ok [1%float; 0%float; 0%float; 0%float], console) /\
    length console = 2%nat.
Proof.
  assert (H : [1%float; 0%float] <> []) by discriminate.
  split; [exact H | exact (batch_scores_stay_aligned [1%float; 0%float] candidates H)].
Defined.

End DistanceFacts.

(* --------------------------------------------------------------------- *)
(** ** Plugin validation                                               *)
(* --------------------------------------------------------------------- *)

Module Validation.
Import JS Plugins Registry PluginBase ValidationSpec.

Lemma validateLoop_partition validate entries :
  fst (validateLoop validate entries)
    = map fst (List.filter (fun entry => clean validate (snd entry)) entries) /\
  map invalid_plugin_id (snd (validateLoop validate entries))
    = map fst (List.filter (fun entry => negb (clean validate (snd entry))) entries).
Proof.
  induction entries as [|[pluginId plugin] entries [IH1 IH2]]; [split; reflexivity|].
  cbn [validateLoop List.filter snd].
  destruct (validateLoop validate entries) as [validPlugins invalidPlugins].
  cbn [fst snd] in IH1, IH2.
  assert (Hc : clean validate plugin
               = match validate plugin with
                 | Ok validation => negb (hasErrors validation)
                 | Throw _ => false
                 end) by reflexivity.
  destruct (validate plugin) as [validation|m]; [destruct (hasErrors validation)|];
    cbn [negb] in Hc; rewrite Hc; cbn [negb fst snd map invalid_plugin_id];
    split; congruence.
Qed.

Lemma inherited_valid d p v :
  inherited d p = Ok v ->
  valid v = true <-> errors v = [] /\ missing_dependencies v = [].
Proof.
  unfold inherited, validate. destruct (customValidation d p) as [custom|m]; [|discriminate].
  intros [= <-]. cbn [valid errors missing_dependencies].
  rewrite andb_true_iff, !Nat.eqb_eq, !length_zero_iff_nil. reflexivity.
Qed.

Lemma hasErrors_false v :
  hasErrors v = false <->
  errors v = [] /\ missing_dependencies v = [] /\ config_issues v = [].
Proof.
  unfold hasErrors. rewrite !orb_false_iff, !Nat.ltb_ge.
  rewrite <- !length_zero_iff_nil. lia.
Qed.

(** X30.  [validatePlugins] lists every registered plugin id once, in the
    order of registration, as valid or as invalid.  A plugin is listed as
    valid exactly when its [validate()] returns and reports no error, no
    missing dependency and no config issue; the field [valid] of the report
    is not read.  For a plugin that inherits [validate()] from
    [AbstractBasePlugin], [valid] says that there is no error and no
    missing dependency, so such a plugin is listed as valid exactly when
    its report has [valid: true] and no config issue. *)
Theorem validatePlugins_partitions (validate : BasePlugin -> result PluginValidationResult)
    (s : PluginService) :
  fst (validatePlugins validate s) = idsWhere (clean validate) s /\
  map invalid_plugin_id (snd (validatePlugins validate s))
    = idsWhere (fun p => negb (clean validate p)) s /\
  (forall p, clean validate p = true <->
     exists v, validate p = Ok v /\
               errors v = [] /\ missing_dependencies v = [] /\ config_issues v = []) /\
  (forall d p v, inherited d p = Ok v ->
     (valid v = true <-> errors v = [] /\ missing_dependencies v = []) /\
     (clean (inherited d) p = true <-> valid v = true /\ config_issues v = [])).
Proof.
  unfold validatePlugins, idsWhere.
  destruct (validateLoop_partition validate (plugins s)) as [H1 H2].
  assert (Hclean : forall (f : BasePlugin -> result PluginValidationResult) p,
            clean f p = true <->
            exists v, f p = Ok v /\
                      errors v = [] /\ missing_dependencies v = [] /\ config_issues v = []).
  { intros f p. unfold clean. destruct (f p) as [v|m].
    - rewrite negb_true_iff, hasErrors_false. split.
      + intros H. exists v. split; [reflexivity|exact H].
      + intros (v' & [= <-] & H). exact H.
    - split; [discriminate|]. intros (v' & Hv' & _). discriminate. }
  split; [exact H1|]. split; [exact H2|]. split; [apply Hclean|].
  intros d p v E. pose proof (inherited_valid d p v E) as Hv.
  split; [exact Hv|]. rewrite Hclean. split.
  - intros (v' & E' & He & Hm & Hc). rewrite E in E'. injection E' as <-.
    split; [apply Hv; auto|exact Hc].
  - intros [Hval Hc]. apply Hv in Hval. exists v. tauto.
Qed.

(** A plugin with a [validate()] of its own that reports [valid: false]
    and nothing else is listed as valid; one that inherits [validate()]
    and reports a config issue is listed as invalid, although its report
    has [valid: true]. *)
Example valid_field_is_not_read :
  let lenient (p : BasePlugin) : result PluginValidationResult :=
    Ok {| valid := false; errors := []; warnings := []; missing_dependencies := [];
          config_issues := [] |} in
  let strict : Derived :=
    {| triggers := fun _ => ["weather"%string];
       customValidation := fun _ =>
         Ok {| valid := true; errors := []; warnings := []; missing_dependencies := [];
               config_issues := ["no API key"%string] |} |} in
  fst (validatePlugins lenient DispatchSpec.service) = ["weather"; "math"; "echo"; "off"]%string /\
  fst (validatePlugins (inherited strict) DispatchSpec.service) = [] /\
  map (fun i => (invalid_plugin_id i, valid (issues i)))
    (snd (validatePlugins (inherited strict) DispatchSpec.service))
    = [("weather", true); ("math", true); ("echo", true); ("off", true)]%string.
Proof. vm_compute. repeat split; reflexivity. Qed.

End Validation.
